(** * libretexts / mindtouch2zim scraper: a shallow embedding and its properties

    The development follows the Python sources:
    - [libretexts2zim/client.py]   : [LibraryPage], [LibraryTree], [get_page_tree]
    - [mindtouch2zim/processor.py] : [ContentFilter], the rewriting rules, the
                                     asset-to-download map, [Processor.run]
    - [mindtouch2zim/asset.py]     : [AssetProcessor]
    - [mindtouch2zim/ui.py]        : the JSON models
    - [libretexts2zim/client.py]   : also [get_all_pages_ids],
                                     [get_root_page_id], [get_page_content],
                                     [_get_cache_file], [placeholders]
    - [mindtouch2zim/processor.py] : also [_fetch_zim_illustration] and the
                                     progress counters of [Processor.run]

    Python values are modelled as follows.  [str] is [string]; [int] is [Z];
    a [float] is a binary64 number of [SpecFloat]; a [dict] is an
    insertion-ordered association list with unique keys ([Py.dict]); a [set]
    of URLs is a [gset], whose iteration order is not fixed by the language
    and is therefore a parameter ([SetIter]); objects that are shared and
    mutated ([LibraryPage]) live in a heap and are referred to by address; a
    raised exception is the [Raise] case of [Py.result]. *)

From Stdlib Require Import ZArith Lia String Ascii List SpecFloat.
From stdpp Require Import base option list gmap strings sets.

Local Open Scope string_scope.
Local Open Scope list_scope.

(* ------------------------------------------------------------------------- *)
(** ** Python runtime: exceptions, results, ordered dictionaries *)
(* ------------------------------------------------------------------------- *)

Module Py.

(** The exception classes the sources raise or catch. [HTTPError] is a
    subclass of [RequestException]; [ReError] is [re.error];
    [OtherException] stands for any other subclass of [Exception]. *)
Inductive exn : Type :=
| KeyError
| IndexError
| ValueError
| NameError
| AttributeError
| ZeroDivisionError
| OverflowError
| ReError
| ValidationError
| UnsupportedTagError
| HTTPError
| RequestException
| KnownBadAssetFailedError
| OSError
| OtherException.

#[global] Instance exn_eq_dec : EqDecision exn.
Proof. solve_decision. Defined.

(** [isinstance(e, RequestException)] *)
Definition is_RequestException (e : exn) : bool :=
  match e with
  | RequestException | HTTPError => true
  | _ => false
  end.

Inductive result (A : Type) : Type :=
| Ok (a : A)
| Raise (e : exn).
Arguments Ok {A} a.
Arguments Raise {A} e.

(** Sequencing: an exception raised by the first computation propagates. *)
#[global] Instance result_ret : MRet result := λ A a, Ok a.
#[global] Instance result_bind : MBind result := λ A B k r,
  match r with
  | Ok a => k a
  | Raise e => Raise e
  end.

(** Truthiness of a [str | None] value: [None] and [""] are falsy. *)
Definition truthy (v : option string) : bool :=
  match v with
  | Some s => negb (String.eqb s "")
  | None => false
  end.

Section dict.
Context {K V : Type} `{EqDecision K}.

(** A Python [dict]: entries in insertion order. *)
Definition dict : Type := list (K * V).

(** [d.get(k)] *)
Fixpoint get (k : K) (d : dict) : option V :=
  match d with
  | [] => None
  | (k', v) :: d' => if decide (k' = k) then Some v else get k d'
  end.

(** [k in d] *)
Definition contains (k : K) (d : dict) : bool :=
  match get k d with Some _ => true | None => false end.

(** [d[k] = v]: an existing key keeps its position and takes the new value,
    a new key is appended. *)
Fixpoint set (k : K) (v : V) (d : dict) : dict :=
  match d with
  | [] => [(k, v)]
  | (k', v') :: d' =>
      if decide (k' = k) then (k', v) :: d' else (k', v') :: set k v d'
  end.

(** [d.keys()], [d.values()], [d.items()] *)
Definition keys (d : dict) : list K := d.*1.
Definition values (d : dict) : list V := d.*2.
Definition items (d : dict) : list (K * V) := d.

End dict.
Arguments dict : clear implicits.

End Py.

Import Py (exn, result, Ok, Raise).

(** URLs and archive paths are compared and hashed by their string value
    ([HttpUrl.value], [ZimPath.value]). *)
Definition HttpUrl : Type := string.
Definition ZimPath : Type := string.
Definition bytes : Type := list Byte.byte.

(* ------------------------------------------------------------------------- *)
(** ** Python strings: [str.split(sep)] and [str.strip()] *)
(* ------------------------------------------------------------------------- *)

Module pystr.

(** ASCII white space, as removed by [str.strip()]. *)
Definition is_space (c : ascii) : bool :=
  let n := nat_of_ascii c in
  ((9 <=? n)%nat && (n <=? 13)%nat) || ((28 <=? n)%nat && (n <=? 32)%nat).

Fixpoint lstrip (s : string) : string :=
  match s with
  | EmptyString => EmptyString
  | String c s' => if is_space c then lstrip s' else s
  end.

Fixpoint rstrip (s : string) : string :=
  match s with
  | EmptyString => EmptyString
  | String c s' =>
      match rstrip s' with
      | EmptyString => if is_space c then EmptyString else String c EmptyString
      | r => String c r
      end
  end.

Definition strip (s : string) : string := rstrip (lstrip s).

(** [s.split(sep)] for a one-character separator; [''.split(sep) == ['']]. *)
Fixpoint split (sep : ascii) (s : string) : list string :=
  match s with
  | EmptyString => [EmptyString]
  | String c s' =>
      if Ascii.eqb c sep then EmptyString :: split sep s'
      else match split sep s' with
           | w :: ws => String c w :: ws
           | [] => [String c EmptyString]
           end
  end.

(** [x in l] for a list of strings *)
Definition mem (x : string) (l : list string) : bool :=
  bool_decide (x ∈ l).

End pystr.

(* ------------------------------------------------------------------------- *)
(** ** [mindtouch2zim/asset.py] *)
(* ------------------------------------------------------------------------- *)

(** Python gives no iteration order for a [set]: a [for] loop over a set
    enumerates its members, each once, in an order the program does not
    control.  The embedding takes that enumeration as a parameter. *)
Class SetIter := {
  set_iter : gset HttpUrl → list HttpUrl;
  set_iter_perm : ∀ s, set_iter s ≡ₚ elements s
}.

Module asset.

Definition SUPPORTED_IMAGE_MIME_TYPES : list string :=
  [ "image/jpeg"; "image/png"; "image/gif"; "image/bmp"; "image/tiff";
    "image/webp"; "image/x-portable-pixmap"; "image/x-portable-graymap";
    "image/x-portable-bitmap"; "image/x-portable-anymap";
    "image/vnd.microsoft.icon"; "image/vnd.ms-dds"; "application/postscript" ].

Record HeaderData := mkHeaderData {
  ident : string;
  content_type : option string
}.

Record AssetDetails := mkAssetDetails {
  asset_urls : gset HttpUrl;
  used_by : gset string;
  always_fetch_online : bool
}.

(** The fields of the run context that [asset.py] reads. *)
Record Context := mkContext {
  bad_assets_threshold : Z;
  bad_assets_regex : option string;
  maximum_image_pixels : Z;
  s3_url_with_credentials : option string
}.

(** A decoded [PIL.Image]: its size and its pixel data. *)
Record Image := mkImage {
  width : Z;
  height : Z;
  pixels : bytes
}.

(** What the module reaches outside the program: the network, the cache,
    the regular-expression engine and the image codec. *)
Class World := {
  (** [stream_file(url, byte_stream, block_size=1, only_first_block=True)]:
      the response headers *)
  stream_file_headers : HttpUrl → result (gmap string string);
  (** [stream_file(url, byte_stream)]: the whole body *)
  stream_file : HttpUrl → result bytes;
  (** [pattern.findall(s)] is a non-empty list *)
  findall : string → string → bool;
  (** [s3_storage.download_matching_fileobj]; [Ok None] is [NotFoundError] *)
  s3_download : string → string → result (option bytes);
  s3_upload : string → string → bytes → result unit;
  (** [Image.open] *)
  Image_open : bytes → result Image;
  (** [resizeimage.resize_cover(image, [w, h])] *)
  resize_cover : Image → Z → Z → result Image;
  (** [image.save(optimized, format="WEBP")] followed by [optimize_webp] *)
  save_webp : Image → result bytes
}.

(** [_get_header_data_for], after the headers were received: the first of
    the three headers whose value is truthy gives the ident. *)
Fixpoint first_truthy (names : list string) (headers : gmap string string)
  : option string :=
  match names with
  | [] => None
  | header :: names' =>
      match headers !! header with
      | Some v => if Py.truthy (Some v) then Some v
                  else first_truthy names' headers
      | None => first_truthy names' headers
      end
  end.

Definition header_data_of (headers : gmap string string) : HeaderData :=
  let content_type := headers !! "Content-Type" in
  match first_truthy ["ETag"; "Last-Modified"; "Content-Length"] headers with
  | Some header => mkHeaderData header content_type
  | None => mkHeaderData "-1" content_type
  end.

Definition _get_header_data_for `{World} (url : HttpUrl) : result HeaderData :=
  headers ← stream_file_headers url;
  mret (header_data_of headers).

(** What a name of the module's namespace is bound to: the run context, or
    something else (a module, a class, a function, a constant). *)
Inductive global_value : Type :=
| RunContext (c : Context)
| OtherValue.

(** The namespace of the module [asset.py] when its functions run: the
    names its [import] statements bind (lines 1 to 26), its constants, the
    run context [context = Context.get()] (line 46) and its classes. *)
Definition module_globals (ctx : Context) : Py.dict string global_value :=
  [ ("math", OtherValue); ("threading", OtherValue); ("partial", OtherValue);
    ("BytesIO", OtherValue); ("NamedTuple", OtherValue); ("backoff", OtherValue);
    ("KiwixStorage", OtherValue); ("NotFoundError", OtherValue);
    ("get_public_ip", OtherValue); ("Image", OtherValue);
    ("RequestException", OtherValue); ("resizeimage", OtherValue);
    ("optimize_webp", OtherValue); ("WebpMedium", OtherValue);
    ("HttpUrl", OtherValue); ("ZimPath", OtherValue); ("Creator", OtherValue);
    ("logger", OtherValue); ("Context", OtherValue); ("stream_file", OtherValue);
    ("KnownBadAssetFailedError", OtherValue); ("S3CacheError", OtherValue);
    ("S3InvalidCredentialsError", OtherValue); ("backoff_hdlr", OtherValue);
    ("SUPPORTED_IMAGE_MIME_TYPES", OtherValue); ("WEBP_OPTIONS", OtherValue);
    ("context", RunContext ctx);
    ("HeaderData", OtherValue); ("AssetDetails", OtherValue);
    ("AssetProcessor", OtherValue) ].

(** [<name>.maximum_image_pixels] in a method of the module, for a name that
    is not a local of the method and not a builtin: the name is looked up in
    the module's namespace ([NameError] when it is not bound there), and the
    attribute is read from the value ([AttributeError] when the value is not
    the run context). *)
Definition maximum_image_pixels_of (ctx : Context) (name : string) : result Z :=
  match Py.get name (module_globals ctx) with
  | None => Raise Py.NameError
  | Some (RunContext c) => Ok (maximum_image_pixels c)
  | Some OtherValue => Raise Py.AttributeError
  end.

(** Binary64 numbers, the [float] of Python, with the operations of
    [SpecFloat]. *)
Definition prec : Z := 53.
Definition emax : Z := 1024.

(** An [int] as the exact operand of a division. *)
Definition operand_of_int (n : Z) : spec_float :=
  match n with
  | Z0 => S754_zero false
  | Zpos p => S754_finite false p 0
  | Zneg p => S754_finite true p 0
  end.

(** [n / d] on two [int]: the float nearest to the quotient,
    [ZeroDivisionError] when [d] is 0, [OverflowError] when the quotient is
    out of the range of the floats. *)
Definition true_div (n d : Z) : result spec_float :=
  if (d =? 0)%Z then Raise Py.ZeroDivisionError
  else match SFdiv prec emax (operand_of_int n) (operand_of_int d) with
       | S754_infinity _ => Raise Py.OverflowError
       | q => Ok q
       end.

(** [math.sqrt(x)]: [ValueError] for a negative number. *)
Definition math_sqrt (x : spec_float) : result spec_float :=
  match x with
  | S754_finite true _ _ | S754_infinity true | S754_nan => Raise Py.ValueError
  | _ => Ok (SFsqrt prec emax x)
  end.

(** [int(x)]: the integer part of a float. *)
Definition int_of_float (x : spec_float) : result Z :=
  match x with
  | S754_zero _ => Ok 0%Z
  | S754_finite s m e =>
      let a := match e with
               | Zneg k => Z.shiftr (Zpos m) (Zpos k)
               | _ => Z.shiftl (Zpos m) e
               end in
      Ok (if s then (- a)%Z else a)
  | S754_infinity _ => Raise Py.OverflowError
  | S754_nan => Raise Py.ValueError
  end.

(** [int(math.sqrt(n / d))] for two [int]. *)
Definition int_sqrt_div (n d : Z) : result Z :=
  q ← true_div n d;
  r ← math_sqrt q;
  int_of_float r.

(** The body of [with Image.open(unoptimized) as image] in
    [_get_image_content]: the image that is handed to [save] as WEBP.  The
    budget is read as [CONTEXT.maximum_image_pixels], each time the
    expression is evaluated; [ctx] is the run context of the module. *)
Definition transcode `{World} (ctx : Context) (image : Image) : result Image :=
  let pixels := (width image * height image)%Z in
  budget ← maximum_image_pixels_of ctx "CONTEXT";
  if (pixels <=? budget)%Z
  then Ok image
  else
    budget ← maximum_image_pixels_of ctx "CONTEXT";
    w ← int_sqrt_div (budget * width image) (height image);
    budget ← maximum_image_pixels_of ctx "CONTEXT";
    h ← int_sqrt_div (budget * height image) (width image);
    resize_cover image w h.

Definition _download_from_online `{World} (asset_url : HttpUrl) : result bytes :=
  stream_file asset_url.

Definition _get_image_content `{World} (ctx : Context)
    (asset_path : ZimPath) (asset_url : HttpUrl) (header_data : HeaderData)
  : result bytes :=
  let s3_key := "medium/" +:+ asset_path in
  cached ← (if Py.truthy (s3_url_with_credentials ctx)
            then s3_download s3_key (ident header_data) else Ok None);
  match cached with
  | Some s3_data => Ok s3_data
  | None =>
      unoptimized ← _download_from_online asset_url;
      image ← Image_open unoptimized;
      resized ← transcode ctx image;
      optimized ← save_webp resized;
      _ ← (if Py.truthy (s3_url_with_credentials ctx)
           then s3_upload s3_key (ident header_data) optimized else Ok ());
      mret optimized
  end.

(** The [try] block of [get_asset_content]. *)
Definition get_asset_content_try `{World} (ctx : Context)
    (asset_path : ZimPath) (asset_url : HttpUrl) (always_fetch_online : bool)
  : result bytes :=
  if always_fetch_online then _download_from_online asset_url
  else
    header_data ← _get_header_data_for asset_url;
    if Py.truthy (content_type header_data) then
      let mime_type :=
        pystr.strip (hd "" (pystr.split ";" (default "" (content_type header_data)))) in
      if pystr.mem mime_type SUPPORTED_IMAGE_MIME_TYPES
      then _get_image_content ctx asset_path asset_url header_data
      else _download_from_online asset_url
    else _download_from_online asset_url.

(** [get_asset_content]: a [RequestException] on a URL that matches the
    known-bad regex becomes [KnownBadAssetFailedError].  The [backoff]
    decorator calls the function again on [RequestException] and re-raises
    the last one when it gives up, so the class of the exception that reaches
    the caller is the one computed here. *)
Definition get_asset_content `{World} (ctx : Context)
    (asset_path : ZimPath) (asset_url : HttpUrl) (always_fetch_online : bool)
  : result bytes :=
  match get_asset_content_try ctx asset_path asset_url always_fetch_online with
  | Ok content => Ok content
  | Raise exc =>
      if Py.is_RequestException exc then
        match bad_assets_regex ctx with
        | Some re => if findall re asset_url
                     then Raise Py.KnownBadAssetFailedError else Raise exc
        | None => Raise exc
        end
      else Raise exc
  end.

Inductive level : Type := DEBUG | WARNING | ERROR.

(** The state [process_asset] works on: the processor's counter, the items
    added to the ZIM, the log records of [process_asset], and the arguments
    of the successive calls of [get_asset_content] (one per attempted URL,
    as [context.current_thread_workitem] records them). *)
Record State := mkState {
  bad_assets_count : Z;
  zim : list (string * bytes);
  logs : list (level * HttpUrl);
  attempts : list (ZimPath * HttpUrl * bool)
}.

Definition init : State := mkState 0 [] [] [].

Definition set_workitem (a : ZimPath * HttpUrl * bool) (st : State) : State :=
  mkState (bad_assets_count st) (zim st) (logs st) (attempts st ++ [a]).
Definition add_item_for (path : string) (content : bytes) (st : State) : State :=
  mkState (bad_assets_count st) (zim st ++ [(path, content)]) (logs st) (attempts st).
Definition logger (l : level) (u : HttpUrl) (st : State) : State :=
  mkState (bad_assets_count st) (zim st) (logs st ++ [(l, u)]) (attempts st).
Definition incr_bad_assets (st : State) : State :=
  mkState (bad_assets_count st + 1) (zim st) (logs st) (attempts st).

(** The [for asset_url in asset_details.asset_urls] loop of [process_asset],
    over the enumeration of the set. *)
Fixpoint process_urls `{World} (ctx : Context) (asset_path : ZimPath)
    (always_fetch_online : bool) (urls : list HttpUrl) (st : State)
  : State * result unit :=
  match urls with
  | [] => (st, Ok ())
  | asset_url :: urls' =>
      let st := set_workitem (asset_path, asset_url, always_fetch_online) st in
      match get_asset_content ctx asset_path asset_url always_fetch_online with
      | Ok asset_content =>
          let st := logger DEBUG asset_url st in
          let st := add_item_for ("content/" +:+ asset_path) asset_content st in
          (st, Ok ())  (* break *)
      | Raise Py.KnownBadAssetFailedError =>
          process_urls ctx asset_path always_fetch_online urls'
            (logger DEBUG asset_url st)
      | Raise _ =>
          let st := incr_bad_assets st in
          if (0 <=? bad_assets_threshold ctx)%Z
             && (bad_assets_threshold ctx <? bad_assets_count st)%Z
          then (logger ERROR asset_url st, Raise Py.OSError)
          else process_urls ctx asset_path always_fetch_online urls'
                 (logger WARNING asset_url st)
      end
  end.

Definition process_asset `{World} `{SetIter} (ctx : Context)
    (asset_path : ZimPath) (asset_details : AssetDetails) (st : State)
  : State * result unit :=
  process_urls ctx asset_path (always_fetch_online asset_details)
    (set_iter (asset_urls asset_details)) st.

(** A sequence of calls of [process_asset] on one processor, whatever the
    assets and their order ([self.lock] makes the counter updates of
    concurrent calls happen one after the other); an exception that escapes a
    call ends the sequence. *)
Fixpoint process_assets `{World} `{SetIter} (ctx : Context)
    (assets : list (ZimPath * AssetDetails)) (st : State)
  : State * result unit :=
  match assets with
  | [] => (st, Ok ())
  | (asset_path, asset_details) :: assets' =>
      match process_asset ctx asset_path asset_details st with
      | (st', Ok _) => process_assets ctx assets' st'
      | (st', Raise e) => (st', Raise e)
      end
  end.

End asset.

(* ------------------------------------------------------------------------- *)
(** ** [mindtouch2zim/processor.py]: rewriting and the asset-to-download map *)
(* ------------------------------------------------------------------------- *)

Module processor.

(** [zimscraperlib]'s [RewriteResult]. *)
Record RewriteResult := mkRewriteResult {
  absolute_url : string;
  rewriten_url : string;
  zim_path : option ZimPath
}.

(** [ArticleUrlRewriter.__call__] of [zimscraperlib], for the rewriter of
    the document at [article_url]. *)
Class UrlRewriting := {
  rewrite_url : HttpUrl → string → option string → bool → RewriteResult
}.

(** [dict[ZimPath, set[HttpUrl]]] *)
Definition items_dict : Type := Py.dict ZimPath (gset HttpUrl).

(** The [if path in d: d[path].add(url) else: d[path] = {url}] of
    [HtmlUrlsRewriter.add_item_to_download] and [CssUrlsRewriter.__call__].
    The set is mutated in place: the entry keeps its position. *)
Definition add_url (path : ZimPath) (url : HttpUrl) (d : items_dict) : items_dict :=
  match Py.get path d with
  | Some urls => Py.set path (urls ∪ {[url]}) d
  | None => Py.set path {[url]} d
  end.

Definition add_item_to_download (rewrite_result : RewriteResult)
    (items_to_download : items_dict) : items_dict :=
  match zim_path rewrite_result with
  | Some zp => add_url zp (absolute_url rewrite_result) items_to_download
  | None => items_to_download
  end.

(** [CssUrlsRewriter.__call__]: every URL is rewritten with
    [rewrite_all_url=True] and scheduled. *)
Definition CssUrlsRewriter_call `{UrlRewriting} (article_url : HttpUrl)
    (item_url : string) (base_href : option string)
    (items_to_download : items_dict) : RewriteResult * items_dict :=
  let result := rewrite_url article_url item_url base_href true in
  (result, add_item_to_download result items_to_download).

(** The loop that ends [_process_css] and [_process_page]:
    [if path in self.items_to_download: self.items_to_download[path].update(urls)
     else: self.items_to_download[path] = urls].
    The assignment shares the rewriter's set object; the rewriter is dropped
    when the method returns, so the sharing is not observable. *)
Fixpoint merge_items (new : list (ZimPath * gset HttpUrl))
    (items_to_download : items_dict) : items_dict :=
  match new with
  | [] => items_to_download
  | (path, urls) :: new' =>
      merge_items new'
        (match Py.get path items_to_download with
         | Some old => Py.set path (old ∪ urls) items_to_download
         | None => Py.set path urls items_to_download
         end)
  end.

(** *** The HTML rules *)

(** [s[n:]] *)
Fixpoint drop_chars (n : nat) (s : string) : string :=
  match n, s with
  | O, _ => s
  | S n', String _ s' => drop_chars n' s'
  | S _, EmptyString => EmptyString
  end.

(** The rewriter a page is processed with: [HtmlUrlsRewriter]. *)
Record HtmlUrlsRewriter := mkHtmlUrlsRewriter {
  page_url : HttpUrl;
  library_path : string;
  html_items : items_dict
}.

Definition with_items (r : HtmlUrlsRewriter) (d : items_dict) : HtmlUrlsRewriter :=
  mkHtmlUrlsRewriter (page_url r) (library_path r) d.

(** [rewrite_href_src_attributes]: [Ok None] is the plain [return] (the
    attribute is left as it is), [Ok (Some v)] the rewritten value. *)
Definition rewrite_href_src_attributes `{UrlRewriting}
    (tag attr_name : string) (attr_value : option string)
    (url_rewriter : HtmlUrlsRewriter) (base_href : option string)
  : result (option (string * string) * HtmlUrlsRewriter) :=
  if negb (pystr.mem attr_name ["href"; "src"]) || negb (Py.truthy attr_value)
  then Ok (None, url_rewriter)
  else
    let attr_value := default "" attr_value in
    let new_attr_value : option string := None in
    let new_attr_value :=
      if String.eqb tag "a" then
        let rewrite_result :=
          rewrite_url (page_url url_rewriter) attr_value base_href false in
        Some (if String.prefix (library_path url_rewriter) (rewriten_url rewrite_result)
              then "#/" +:+ drop_chars (String.length (library_path url_rewriter))
                              (rewriten_url rewrite_result)
              else rewriten_url rewrite_result)
      else new_attr_value in
    let '(new_attr_value, url_rewriter) :=
      if String.eqb tag "img" then
        let rewrite_result :=
          rewrite_url (page_url url_rewriter) attr_value base_href true in
        (Some ("content/" +:+ rewriten_url rewrite_result),
         with_items url_rewriter
           (add_item_to_download rewrite_result (html_items url_rewriter)))
      else (new_attr_value, url_rewriter) in
    if Py.truthy new_attr_value
    then Ok (Some (attr_name, default "" new_attr_value), url_rewriter)
    else Raise Py.ValueError.

(** [drop_sizes_and_srcset_attribute] *)
Definition drop_sizes_and_srcset_attribute (tag attr_name : string) : bool :=
  String.eqb tag "img" && pystr.mem attr_name ["srcset"; "sizes"].

(** [refuse_unsupported_tags] *)
Definition refuse_unsupported_tags (tag : string) : result unit :=
  if negb (pystr.mem tag ["picture"]) then Ok ()
  else Raise Py.UnsupportedTagError.

(** A start tag as the HTML parser hands it to the rules. *)
Definition attr : Type := string * option string.
Record start_tag := mkTag {
  tag_name : string;
  tag_attrs : list attr
}.

(** How [zimscraperlib]'s [HtmlRewriter] applies the registered rules to a
    start tag (the standard rules were cleared): the tag rule first, then for
    each attribute the drop rule and the attribute rule. *)
Fixpoint rewrite_attrs `{UrlRewriting} (tag : string) (attrs : list attr)
    (url_rewriter : HtmlUrlsRewriter) (base_href : option string)
  : result (list attr * HtmlUrlsRewriter) :=
  match attrs with
  | [] => Ok ([], url_rewriter)
  | (attr_name, attr_value) :: attrs' =>
      if drop_sizes_and_srcset_attribute tag attr_name
      then rewrite_attrs tag attrs' url_rewriter base_href
      else
        '(rewritten, url_rewriter) ←
           rewrite_href_src_attributes tag attr_name attr_value url_rewriter base_href;
        '(rest, url_rewriter) ← rewrite_attrs tag attrs' url_rewriter base_href;
        mret (match rewritten with
              | Some (n, v) => (n, Some v) :: rest
              | None => (attr_name, attr_value) :: rest
              end, url_rewriter)
  end.

Definition rewrite_start_tag `{UrlRewriting} (t : start_tag)
    (url_rewriter : HtmlUrlsRewriter) (base_href : option string)
  : result (start_tag * HtmlUrlsRewriter) :=
  _ ← refuse_unsupported_tags (tag_name t);
  '(attrs, url_rewriter) ← rewrite_attrs (tag_name t) (tag_attrs t) url_rewriter base_href;
  mret (mkTag (tag_name t) attrs, url_rewriter).

(** [HtmlRewriter.rewrite], on the start tags of a document in order;
    [base_href] is the document's base, if it declares one. *)
Fixpoint rewrite_html `{UrlRewriting} (tags : list start_tag)
    (url_rewriter : HtmlUrlsRewriter) (base_href : option string)
  : result (list start_tag * HtmlUrlsRewriter) :=
  match tags with
  | [] => Ok ([], url_rewriter)
  | t :: tags' =>
      '(t', url_rewriter) ← rewrite_start_tag t url_rewriter base_href;
      '(rest, url_rewriter) ← rewrite_html tags' url_rewriter base_href;
      mret (t' :: rest, url_rewriter)
  end.

(** [CssRewriter.rewrite], on the URLs of a stylesheet in order. *)
Fixpoint rewrite_css `{UrlRewriting} (article_url : HttpUrl) (urls : list string)
    (items_to_download : items_dict) : items_dict :=
  match urls with
  | [] => items_to_download
  | item_url :: urls' =>
      rewrite_css article_url urls'
        (CssUrlsRewriter_call article_url item_url None items_to_download).2
  end.

(** A rewrite pass of the run: a stylesheet ([_process_css]) or a page
    ([_process_page]), given by the document's URL and what the parser finds
    in it. *)
Inductive pass : Type :=
| CssPass (css_location : HttpUrl) (urls : list string)
| PagePass (page_location : HttpUrl) (library_path : string)
    (base_href : option string) (tags : list start_tag).

(** The part of [_process_css] and [_process_page] that works on
    [self.items_to_download]. *)
Definition process_pass `{UrlRewriting} (p : pass) (items_to_download : items_dict)
  : result items_dict :=
  match p with
  | CssPass css_location urls =>
      let url_rewriter_items := rewrite_css css_location urls [] in
      Ok (merge_items (Py.items url_rewriter_items) items_to_download)
  | PagePass page_location library_path base_href tags =>
      '(_, url_rewriter) ←
         rewrite_html tags (mkHtmlUrlsRewriter page_location library_path [])
           base_href;
      mret (merge_items (Py.items (html_items url_rewriter)) items_to_download)
  end.

(** All the passes of a run, from [self.items_to_download = {}]. *)
Fixpoint process_passes `{UrlRewriting} (ps : list pass) (items_to_download : items_dict)
  : result items_dict :=
  match ps with
  | [] => Ok items_to_download
  | p :: ps' =>
      items_to_download ← process_pass p items_to_download;
      process_passes ps' items_to_download
  end.

(** *** The asset loop of [Processor.run] *)

(** The items added to the ZIM and the URLs requested so far. *)
Record RunState := mkRunState {
  zim : list (string * bytes);
  requested : list HttpUrl
}.

(** [for asset_url in asset_urls: try: ... break except HTTPError: ...] *)
Fixpoint download_first `{asset.World} (asset_path : ZimPath)
    (asset_urls : list HttpUrl) (st : RunState) : RunState * result unit :=
  match asset_urls with
  | [] => (st, Ok ())
  | asset_url :: asset_urls' =>
      let st := mkRunState (zim st) (requested st ++ [asset_url]) in
      match asset.stream_file asset_url with
      | Ok asset_content =>
          (mkRunState (zim st ++ [("content/" +:+ asset_path, asset_content)])
                      (requested st), Ok ())  (* break *)
      | Raise Py.HTTPError => download_first asset_path asset_urls' st
      | Raise e => (st, Raise e)
      end
  end.

(** [for asset_path, asset_urls in self.items_to_download.items()] *)
Fixpoint download_assets `{asset.World} `{SetIter}
    (items : list (ZimPath * gset HttpUrl)) (st : RunState)
  : RunState * result unit :=
  match items with
  | [] => (st, Ok ())
  | (asset_path, asset_urls) :: items' =>
      match download_first asset_path (set_iter asset_urls) st with
      | (st', Ok _) => download_assets items' st'
      | (st', Raise e) => (st', Raise e)
      end
  end.

End processor.

(* ------------------------------------------------------------------------- *)
(** ** [libretexts2zim/client.py]: pages and trees *)
(* ------------------------------------------------------------------------- *)

Module client.

Abbreviation LibraryPageId := string.

(** [LibraryPage] objects are shared between trees and mutated
    ([parent.children.append(page)]): they live in a heap and refer to each
    other by address. *)
Abbreviation ref := nat.

Record LibraryPage := mkPage {
  id : LibraryPageId;
  title : string;
  path : string;
  parent : option ref;
  children : list ref
}.

Abbreviation heap := (list LibraryPage).

Record LibraryTree := mkTree {
  root : ref;
  pages : Py.dict LibraryPageId ref
}.

(** The loop of [self_and_parents], [while current.parent is not None].
    On a heap whose parent links form a cycle the Python loop does not end;
    the walk is cut after [fuel] steps and gives [None] then (and on an
    address that is not in the heap). *)
Fixpoint parents_walk (fuel : nat) (h : heap) (current : ref) : option (list ref) :=
  pg ← h !! current;
  match parent pg with
  | None => Some []
  | Some p =>
      match fuel with
      | O => None
      | S fuel' => rest ← parents_walk fuel' h p; Some (p :: rest)
      end
  end.

(** A walk that does not end within [length h] steps has repeated an
    address, so it never ends. *)
Definition self_and_parents (h : heap) (self : ref) : option (list ref) :=
  rest ← parents_walk (length h) h self; Some (self :: rest).

(** The [while len(children_to_explore) > 0] loop of [sub_tree].
    [children_to_explore.remove(child)] removes the first element, which is
    [child] itself.  [None] when [fuel] runs out or an address is not in the
    heap. *)
Fixpoint sub_tree_loop (fuel : nat) (h : heap) (children_to_explore : list ref)
    (tree_pages : Py.dict LibraryPageId ref) : option (Py.dict LibraryPageId ref) :=
  match children_to_explore with
  | [] => Some tree_pages
  | child :: children_to_explore =>
      match fuel with
      | O => None
      | S fuel' =>
          pg ← h !! child;
          if Py.contains (id pg) tree_pages
          then sub_tree_loop fuel' h children_to_explore tree_pages  (* safe-guard *)
          else sub_tree_loop fuel' h (children_to_explore ++ children pg)
                 (Py.set (id pg) child tree_pages)
      end
  end.

(** Enough fuel for the loop, whatever the heap (lemma [sub_tree_loop_fuel]):
    every page is added at most once, so at most the children of all pages
    are ever queued. *)
Definition sub_tree_fuel (h : heap) : nat :=
  S (sum_list_with (λ pg, length (children pg)) h).

(** [LibraryTree.sub_tree]: [Some (Raise KeyError)] when [subroot_id] is not
    a key of [self.pages]. *)
Definition sub_tree (h : heap) (self : LibraryTree) (subroot_id : LibraryPageId)
  : option (result LibraryTree) :=
  match Py.get subroot_id (pages self) with
  | None => Some (Raise Py.KeyError)
  | Some new_root =>
      pg ← h !! new_root;
      tree_pages ← sub_tree_loop (sub_tree_fuel h) h (children pg)
                     (Py.set (id pg) new_root []);
      Some (Ok (mkTree new_root tree_pages))
  end.

(** The JSON answer of [/pages/home/tree]: a page node has an id, a title, a
    path and its [subpages], which are falsy (no subpage), or hold under
    ["page"] one node or a list of nodes. *)
Inductive page_node : Type :=
| PageNode (node_id node_title node_path : string) (subpages : subpages_t)
with subpages_t : Type :=
| NoSubpages
| OnePage (page : page_node)
| PageList (page : page_nodes)
with page_nodes : Type :=
| PNil
| PCons (subpage_node : page_node) (rest : page_nodes).

Definition node_subpages (n : page_node) : subpages_t :=
  match n with PageNode _ _ _ s => s end.

(** What [get_page_tree] builds: the heap and [tree_obj.pages]. *)
Definition build : Type := heap * Py.dict LibraryPageId ref.

(** [parent.children.append(page)] *)
Definition append_child (parent page : ref) (h : heap) : heap :=
  match h !! parent with
  | Some pg =>
      <[parent := mkPage (id pg) (title pg) (path pg) (client.parent pg)
                         (children pg ++ [page])]> h
  | None => h
  end.

(** [_add_page]: the new page is allocated at the end of the heap. *)
Definition _add_page (page_node : page_node) (parent : ref) (b : build)
  : ref * build :=
  match page_node with
  | PageNode node_id node_title node_path _ =>
      let page := length b.1 in
      let h := b.1 ++ [mkPage node_id node_title node_path (Some parent) []] in
      (page, (append_child parent page h, Py.set node_id page b.2))
  end.

(** [_process_tree_data] *)
Fixpoint _process_tree_data (page_node : page_node) (parent : ref) (b : build)
  : build :=
  match node_subpages page_node with
  | NoSubpages => b
  | OnePage sub =>
      let '(page, b) := _add_page sub parent b in
      _process_tree_data sub page b
  | PageList subs => _process_subpages subs parent b
  end
with _process_subpages (subs : page_nodes) (parent : ref) (b : build) : build :=
  match subs with
  | PNil => b
  | PCons subpage_node rest =>
      let '(page, b) := _add_page subpage_node parent b in
      _process_subpages rest parent (_process_tree_data subpage_node page b)
  end.

(** [get_page_tree], from the JSON node [tree_data["page"]]. *)
Definition get_page_tree (tree_data_page : page_node) : heap * LibraryTree :=
  match tree_data_page with
  | PageNode node_id node_title node_path _ =>
      let root := 0 in
      let b : build := ([mkPage node_id node_title node_path None []],
                        Py.set node_id root []) in
      let b := _process_tree_data tree_data_page root b in
      (b.1, mkTree root b.2)
  end.

End client.

(* ------------------------------------------------------------------------- *)
(** ** [ContentFilter] (the same in both [processor.py]) *)
(* ------------------------------------------------------------------------- *)

(** The regular expressions of [re], with [re.IGNORECASE]:
    [re_compiles pattern] when [re.compile(pattern, re.IGNORECASE)] returns
    a pattern (it raises [re.error] otherwise), and [re_search pattern s]
    when [search(s)] of the compiled pattern is not [None]. *)
Class Regex := {
  re_compiles : string → bool;
  re_search : string → string → bool
}.

Module content_filter.
Import client.

Record ContentFilter := mkFilter {
  page_title_include : option string;
  page_id_include : option string;
  page_title_exclude : option string;
  root_page_id : option string
}.

(** [re.compile(s, re.IGNORECASE) if s else None] *)
Definition compile_if `{Regex} (s : option string) : result (option string) :=
  if Py.truthy s
  then if re_compiles (default "" s) then Ok s else Raise Py.ReError
  else Ok None.

(** [[page_id.strip() for page_id in self.page_id_include.split(",")]
     if self.page_id_include else None] *)
Definition id_include_of (s : option string) : option (list LibraryPageId) :=
  if Py.truthy s
  then Some (map pystr.strip (pystr.split "," (default "" s)))
  else None.

Definition is_selected `{Regex} (title_include_re title_exclude_re : option string)
    (id_include : option (list LibraryPageId)) (page : LibraryPage) : bool :=
  (match title_include_re with
   | None => true
   | Some re => re_search re (title page)
   end)
  && (match id_include with
      | None | Some [] => true
      | Some l => pystr.mem (id page) l
      end)
  && (match title_exclude_re with
      | None => true
      | Some re => negb (re_search re (title page))
      end).

(** [page.id for page in pages], reading the pages in the heap. *)
Definition ids_of (h : heap) (pages : list ref) : option (list LibraryPageId) :=
  mapM (λ r, id <$> h !! r) pages.

(** The set comprehension [selected_ids]: for every page of the tree its
    [self_and_parents] is computed, and kept when the page is selected. *)
Fixpoint selected_ids `{Regex} (h : heap)
    (title_include_re title_exclude_re : option string)
    (id_include : option (list LibraryPageId)) (values : list ref)
  : option (gset LibraryPageId) :=
  match values with
  | [] => Some ∅
  | page :: values' =>
      pg ← h !! page;
      chain ← self_and_parents h page;
      ids ← ids_of h chain;
      rest ← selected_ids h title_include_re title_exclude_re id_include values';
      Some (if is_selected title_include_re title_exclude_re id_include pg
            then list_to_set ids ∪ rest else rest)
  end.

(** [[page for page in page_tree.pages.values() if page.id in selected_ids]] *)
Fixpoint pages_with_id_in (h : heap) (ids : gset LibraryPageId) (values : list ref)
  : option (list ref) :=
  match values with
  | [] => Some []
  | page :: values' =>
      pg ← h !! page;
      rest ← pages_with_id_in h ids values';
      Some (if bool_decide (id pg ∈ ids) then page :: rest else rest)
  end.

(** The tree the pages are taken from: [page_tree.sub_tree(self.root_page_id)]
    if [self.root_page_id], the given tree otherwise. *)
Definition effective_tree (self : ContentFilter) (h : heap) (page_tree : LibraryTree)
  : option (result LibraryTree) :=
  if Py.truthy (root_page_id self)
  then sub_tree h page_tree (default "" (root_page_id self))
  else Some (Ok page_tree).

(** [ContentFilter.filter]: [None] when a loop does not end, [Some (Raise e)]
    when [e] is raised ([KeyError] by [sub_tree], [re.error] by a pattern
    that does not compile), [Some (Ok pages)] when [pages] is returned. *)
Definition filter `{Regex} (self : ContentFilter) (h : heap) (page_tree : LibraryTree)
  : option (result (list ref)) :=
  t ← effective_tree self h page_tree;
  match t with
  | Raise e => Some (Raise e)
  | Ok page_tree =>
      match compile_if (page_title_include self) with
      | Raise e => Some (Raise e)
      | Ok title_include_re =>
          match compile_if (page_title_exclude self) with
          | Raise e => Some (Raise e)
          | Ok title_exclude_re =>
              let id_include := id_include_of (page_id_include self) in
              ids ← selected_ids h title_include_re title_exclude_re id_include
                      (Py.values (pages page_tree));
              res ← pages_with_id_in h ids (Py.values (pages page_tree));
              Some (Ok res)
          end
      end
  end.

End content_filter.

(* ------------------------------------------------------------------------- *)
(** ** [mindtouch2zim/ui.py] and the [content/shared.json] item *)
(* ------------------------------------------------------------------------- *)

Module ui.

#[local] Unset Elimination Schemes.
Inductive json : Type :=
| JString (s : string)
| JArray (l : list json)
| JObject (fields : list (string * json)).
#[local] Set Elimination Schemes.

Definition upper (c : ascii) : ascii :=
  let n := nat_of_ascii c in
  if ((97 <=? n)%nat && (n <=? 122)%nat) then ascii_of_nat (n - 32) else c.

(** [pydantic.alias_generators.to_camel] on a snake_case identifier (lower
    case words joined by one underscore): the underscores go and the letter
    after each is capitalised. *)
Fixpoint to_camel (snake : string) : string :=
  match snake with
  | EmptyString => EmptyString
  | String c rest =>
      if Ascii.eqb c "_" then
        match rest with
        | String c' rest' => String (upper c') (to_camel rest')
        | EmptyString => EmptyString
        end
      else String c (to_camel rest)
  end.

Record PageModel := mkPageModel {
  id : string;
  title : string;
  path : string
}.

Record SharedModel := mkSharedModel {
  logo_path : string;
  root_page_path : string;
  pages : list PageModel;
  js_paths : list string
}.

(** [SharedModel(...)] with keyword arguments: every field is declared
    without a default, so pydantic raises [ValidationError] when one is not
    given ([None] below). *)
Definition SharedModel_init (logo_path root_page_path : option string)
    (pages : option (list PageModel)) (js_paths : option (list string))
  : result SharedModel :=
  match logo_path, root_page_path, pages, js_paths with
  | Some l, Some r, Some p, Some j => Ok (mkSharedModel l r p j)
  | _, _, _, _ => Raise Py.ValidationError
  end.

(** [model_dump_json(by_alias=True)]: the fields in declaration order under
    their [to_camel] alias. *)
Definition PageModel_dump (m : PageModel) : json :=
  JObject [ (to_camel "id", JString (id m));
            (to_camel "title", JString (title m));
            (to_camel "path", JString (path m)) ].

Definition SharedModel_dump (m : SharedModel) : json :=
  JObject [ (to_camel "logo_path", JString (logo_path m));
            (to_camel "root_page_path", JString (root_page_path m));
            (to_camel "pages", JArray (map PageModel_dump (pages m)));
            (to_camel "js_paths", JArray (map JString (js_paths m))) ].

(** The keys of a JSON object. *)
Definition json_keys (j : json) : option (list string) :=
  match j with
  | JObject fields => Some fields.*1
  | _ => None
  end.

End ui.

Module run.
Import client.

(** [PageModel(id=page.id, title=page.title, path=page.path)] *)
Definition page_model (pg : LibraryPage) : ui.PageModel :=
  ui.mkPageModel (id pg) (title pg) (path pg).

(** The [add_item_for(creator, "content/shared.json", ...)] statement of
    [Processor.run], on the pages [selected_pages] read in the heap:
    [selected_pages[0]] raises [IndexError] on an empty list, and
    [SharedModel] is built from [logo_path], [root_page_path] and [pages]
    only. *)
Definition shared_json (selected_pages : list LibraryPage)
  : result (string * ui.json) :=
  match selected_pages with
  | [] => Raise Py.IndexError
  | first :: _ =>
      m ← ui.SharedModel_init (Some "content/logo.png") (Some (path first))
            (Some (map page_model selected_pages)) None;
      mret ("content/shared.json", ui.SharedModel_dump m)
  end.

End run.

(* ------------------------------------------------------------------------- *)
(** ** [libretexts2zim/client.py]: [LibreTextsClient] and [LibreTextsMetadata] *)
(* ------------------------------------------------------------------------- *)

(** A value decoded by [json.loads] / [resp.json()]. *)
Module pyjson.

#[local] Unset Elimination Schemes.
Inductive value : Type :=
| JNull
| JBool (b : bool)
| JNumber (literal : string)
| JStr (s : string)
| JList (l : list value)
| JDict (d : Py.dict string value).
#[local] Set Elimination Schemes.

(** The exceptions of [get_page_content]: those of Python's subscripts and
    the module's [LibreTextsParsingError]. *)
Inductive error : Type :=
| KeyError
| IndexError
| TypeError
| LibreTextsParsingError.

Inductive answer (A : Type) : Type :=
| Returns (a : A)
| Raises (e : error).
Arguments Returns {A} a.
Arguments Raises {A} e.

#[global] Instance answer_ret : MRet answer := λ A a, Returns a.
#[global] Instance answer_bind : MBind answer := λ A B k r,
  match r with
  | Returns a => k a
  | Raises e => Raises e
  end.

(** [v[key]] for a string [key]: a [dict] is looked up; a list and a string
    take integer indices only; the other values have no subscript. *)
Definition getitem (v : value) (key : string) : answer value :=
  match v with
  | JDict d =>
      match Py.get key d with
      | Some x => Returns x
      | None => Raises KeyError
      end
  | _ => Raises TypeError
  end.

(** [v[i]] for an index [i >= 0]: an element of a list, a character of a
    string; the keys of a decoded object are strings, so an integer is not
    among them. *)
Definition getindex (v : value) (i : nat) : answer value :=
  match v with
  | JList l =>
      match l !! i with
      | Some x => Returns x
      | None => Raises IndexError
      end
  | JStr s =>
      match String.get i s with
      | Some c => Returns (JStr (String c EmptyString))
      | None => Raises IndexError
      end
  | JDict _ => Raises KeyError
  | _ => Raises TypeError
  end.

(** [isinstance(v, dict)] *)
Definition is_dict (v : value) : bool := match v with JDict _ => true | _ => false end.

(** [key in v], for a [dict] *)
Definition has_key (key : string) (v : value) : bool :=
  match v with JDict d => Py.contains key d | _ => false end.

(** [v != s] for a string [s] *)
Definition differs (v : value) (s : string) : bool :=
  match v with JStr s' => negb (String.eqb s' s) | _ => true end.

End pyjson.

Module LibreTextsClient.
Import client pyjson.

(** [_get_page_ids] of [get_all_pages_ids]: the id of the node is appended
    to [page_ids], then the ids of its subpages. *)
Fixpoint _get_page_ids (page_node : page_node) (page_ids : list LibraryPageId)
  : list LibraryPageId :=
  match page_node with
  | PageNode node_id _ _ subpages =>
      let page_ids := page_ids ++ [node_id] in
      match subpages with
      | NoSubpages => page_ids
      | OnePage page => _get_page_ids page page_ids
      | PageList pages => _get_pages_ids pages page_ids
      end
  end
with _get_pages_ids (pages : page_nodes) (page_ids : list LibraryPageId)
  : list LibraryPageId :=
  match pages with
  | PNil => page_ids
  | PCons page rest => _get_pages_ids rest (_get_page_ids page page_ids)
  end.

(** [get_all_pages_ids], from the JSON node [tree["page"]]. *)
Definition get_all_pages_ids (tree_page : page_node) : list LibraryPageId :=
  _get_page_ids tree_page [].

(** [get_root_page_id]: [tree["page"]["@id"]]. *)
Definition get_root_page_id (tree_page : page_node) : LibraryPageId :=
  match tree_page with PageNode node_id _ _ _ => node_id end.

(** [get_page_content], on the decoded answer of [/pages/{id}/contents];
    the result is the [html_body] of the [LibraryPageContent]. The first
    [match] is [isinstance(tree["body"][0], str)]. *)
Definition get_page_content (tree : value) : answer string :=
  body ← getitem tree "body";
  body0 ← getindex body 0;
  match body0 with
  | JStr html_body =>
      body1 ← getindex body 1;
      if negb (is_dict body1) then Raises LibreTextsParsingError
      else if negb (has_key "@target" body1) then Raises LibreTextsParsingError
      else
        target ← getitem body1 "@target";
        if differs target "toc" then Raises LibreTextsParsingError
        else Returns html_body
  | _ => Raises LibreTextsParsingError
  end.

(** [s.endswith("/")] *)
Fixpoint endswith_slash (s : string) : bool :=
  match s with
  | EmptyString => false
  | String c EmptyString => Ascii.eqb c "/"
  | String _ s' => endswith_slash s'
  end.

(** [_get_cache_file]: the path of the file below [self.cache_folder]
    ([re.sub(r"^/", "", s)] removes one leading slash). *)
Definition _get_cache_file (url_subpath_and_query : string) : string :=
  let url_subpath_and_query :=
    match url_subpath_and_query with
    | String "/" rest => rest
    | _ => url_subpath_and_query
    end in
  if endswith_slash url_subpath_and_query
  then url_subpath_and_query +:+ "index"
  else url_subpath_and_query.

End LibreTextsClient.

Module LibreTextsMetadata.

(** A character of the class [[.a-zA-Z0-9]]. *)
Definition is_slug_char (c : ascii) : bool :=
  let n := nat_of_ascii c in
  (n =? 46)%nat
  || ((97 <=? n)%nat && (n <=? 122)%nat)
  || ((65 <=? n)%nat && (n <=? 90)%nat)
  || ((48 <=? n)%nat && (n <=? 57)%nat).

(** [re.sub(r"[^.a-zA-Z0-9]", "-", slug)] *)
Fixpoint clean_slug (slug : string) : string :=
  match slug with
  | EmptyString => EmptyString
  | String c rest =>
      String (if is_slug_char c then c else "-"%char) (clean_slug rest)
  end.

(** [placeholders]; [period] is [clock().strftime("%Y-%m")]. *)
Definition placeholders (name slug period : string) : Py.dict string string :=
  [ ("name", name); ("slug", slug); ("clean_slug", clean_slug slug);
    ("period", period) ].

End LibreTextsMetadata.

(* ------------------------------------------------------------------------- *)
(** ** [mindtouch2zim/processor.py]: the illustration, the progress, the pages *)
(* ------------------------------------------------------------------------- *)

(** The image functions of [zimscraperlib] that [processor.py] calls. *)
Class Imaging := {
  (** [format_for(src, from_suffix=False)] *)
  format_for : bytes → result (option string);
  (** [convert_svg2png(src, dst, width, height)]: the content of [dst] *)
  convert_svg2png : bytes → Z → Z → result bytes;
  (** [convert_image(src, dst, fmt=...)]: the content of [dst] *)
  convert_image : bytes → string → result bytes;
  (** [resize_image(src=..., width=..., height=..., method="cover")]: the
      content of [src] after the call *)
  resize_image : bytes → Z → Z → result bytes
}.

Module illustration.

(** The body of the [try] of [_fetch_zim_illustration], for one URL. *)
Definition fetch_one `{asset.World} `{Imaging} (icon_url : string) : result bytes :=
  illustration_content ← asset.stream_file icon_url;
  illustration_format ← format_for illustration_content;
  png_illustration ←
    (if decide (illustration_format = Some "SVG")
     then convert_svg2png illustration_content 48 48
     else if decide (illustration_format = Some "PNG")
     then Ok illustration_content
     else convert_image illustration_content "PNG");
  resize_image png_illustration 48 48.

(** What [_fetch_zim_illustration] does: it returns an image, or raises
    [NoIllustrationFoundError]. *)
Inductive outcome : Type :=
| Return (png_illustration : bytes)
| NoIllustrationFoundError.

(** The [for icon_url in ...: try: ... return ... except Exception: warning]
    loop, followed by the [raise]; [warnings] are the URLs of the warnings
    logged so far. *)
Fixpoint fetch_loop `{asset.World} `{Imaging} (icon_urls : list string)
    (warnings : list string) : list string * outcome :=
  match icon_urls with
  | [] => (warnings, NoIllustrationFoundError)
  | icon_url :: icon_urls' =>
      match fetch_one icon_url with
      | Ok png_illustration => (warnings, Return png_illustration)
      | Raise _ => fetch_loop icon_urls' (warnings ++ [icon_url])
      end
  end.

(** [_fetch_zim_illustration], with [self.illustration_url] and
    [home.icons_urls]. *)
Definition _fetch_zim_illustration `{asset.World} `{Imaging}
    (illustration_url : option string) (icons_urls : list string)
  : list string * outcome :=
  fetch_loop (if Py.truthy illustration_url
              then [default "" illustration_url] else icons_urls) [].

(** [_fetch_favicon_from_illustration] *)
Definition _fetch_favicon_from_illustration `{Imaging} (illustration : bytes)
  : result bytes :=
  favicon ← convert_image illustration "ICO";
  resize_image favicon 32 32.

End illustration.

Module progress.

(** The counters of the [Processor], the number of calls of [run_pending]
    so far, and the progress reports written so far ([done], [total]). *)
Record Stats := mkStats {
  stats_items_done : Z;
  stats_items_total : Z;
  pending_calls : nat;
  reports : list (Z * Z)
}.

(** [Processor.__init__] *)
Definition init : Stats := mkStats 0 1 0 [].

(** [_report_progress] *)
Definition _report_progress (s : Stats) : Stats :=
  mkStats (stats_items_done s) (stats_items_total s) (pending_calls s)
          (reports s ++ [(stats_items_done s, stats_items_total s)]).

(** [run_pending()]: the job registered with [every(10).seconds.do] runs
    when it is due; [due k] tells whether it is at the call number [k]. *)
Definition run_pending (due : nat → bool) (s : Stats) : Stats :=
  let s' := mkStats (stats_items_done s) (stats_items_total s)
                    (S (pending_calls s)) (reports s) in
  if due (pending_calls s) then _report_progress s' else s'.

(** [self.stats_items_total += n] *)
Definition add_total (n : nat) (s : Stats) : Stats :=
  mkStats (stats_items_done s) (stats_items_total s + Z.of_nat n)
          (pending_calls s) (reports s).

(** [self.stats_items_done += 1] *)
Definition add_done (s : Stats) : Stats :=
  mkStats (stats_items_done s + 1) (stats_items_total s) (pending_calls s) (reports s).

(** A loop of [run] over [n] items:
    [for ...: self.stats_items_done += 1; run_pending(); ...] *)
Fixpoint for_each (due : nat → bool) (n : nat) (s : Stats) : Stats :=
  match n with
  | O => s
  | S n' => for_each due n' (run_pending due (add_done s))
  end.

(** The statements of [Processor.run] that work on the counters, for a run
    that reaches its last statement. The files of the two folders are
    enumerated twice, once to count them ([count_zimui_files],
    [count_mathjax_files]) and once by the loop ([zimui_files],
    [mathjax_files]). *)
Definition run (due : nat → bool)
    (count_zimui_files zimui_files count_mathjax_files mathjax_files
     selected_pages items_to_download : nat) : Stats :=
  let s := _report_progress init in
  let s := add_total count_zimui_files s in
  let s := for_each due zimui_files s in
  let s := add_total count_mathjax_files s in
  let s := for_each due mathjax_files s in
  let s := add_total selected_pages s in
  let s := for_each due selected_pages s in
  let s := add_total items_to_download s in
  let s := for_each due items_to_download s in
  let s := add_done s in
  _report_progress s.

End progress.

(** The path of the item that [_process_page] adds for a page:
    [f"content/page_content_{page.id}.json"]. *)
Definition page_content_path (page_id : string) : string :=
  "content/page_content_" +:+ page_id +:+ ".json".

(* ========================================================================= *)
(** * Properties *)
(* ========================================================================= *)

(* ------------------------------------------------------------------------- *)
(** ** Dictionaries *)
(* ------------------------------------------------------------------------- *)

Section dict_facts.
Context {K V : Type} `{EqDecision K}.
Implicit Types (d : Py.dict K V) (k : K) (v : V).

Lemma get_set_eq k v d : Py.get k (Py.set k v d) = Some v.
Proof.
  induction d as [|[k' v'] d IH]; simpl.
  - by rewrite decide_True.
  - destruct (decide (k' = k)) as [->|Hne]; simpl.
    + by rewrite decide_True.
    + by rewrite decide_False.
Qed.

Lemma get_set_ne k k' v d : k ≠ k' → Py.get k' (Py.set k v d) = Py.get k' d.
Proof.
  intros Hne. induction d as [|[k0 v0] d IH]; simpl.
  - by rewrite decide_False.
  - destruct (decide (k0 = k)) as [->|Hne0]; simpl.
    + by rewrite !decide_False.
    + destruct (decide (k0 = k')); [done | apply IH].
Qed.

Lemma get_Some_keys k v d : Py.get k d = Some v → k ∈ Py.keys d.
Proof.
  induction d as [|[k' v'] d IH]; simpl; [done|].
  destruct (decide (k' = k)) as [->|Hne]; intros Hg.
  - apply list_elem_of_here.
  - apply list_elem_of_further, IH, Hg.
Qed.

Lemma get_None_keys k d : Py.get k d = None ↔ k ∉ Py.keys d.
Proof.
  induction d as [|[k' v'] d IH]; simpl.
  - split; [intros _ Hin; inversion Hin | done].
  - destruct (decide (k' = k)) as [->|Hne].
    + split; [done | intros Hn; destruct Hn; apply list_elem_of_here].
    + rewrite IH. unfold Py.keys. simpl. rewrite not_elem_of_cons.
      split; [intros Hn; split; [congruence | exact Hn] | intros [_ Hn]; exact Hn].
Qed.

Lemma get_Some_values k v d : Py.get k d = Some v → v ∈ Py.values d.
Proof.
  induction d as [|[k' v'] d IH]; simpl; [done|].
  destruct (decide (k' = k)) as [->|Hne]; intros Hg.
  - injection Hg as ->. apply list_elem_of_here.
  - apply list_elem_of_further, IH, Hg.
Qed.

Lemma contains_true k d : Py.contains k d = true ↔ k ∈ Py.keys d.
Proof.
  unfold Py.contains. destruct (Py.get k d) eqn:E.
  - split; [intros _; eapply get_Some_keys, E | done].
  - apply get_None_keys in E. split; [done | intros; contradiction].
Qed.

(** Assigning to a key that is present keeps the keys as they are;
    assigning to a new key appends it. *)
Lemma keys_set_in k v d : k ∈ Py.keys d → Py.keys (Py.set k v d) = Py.keys d.
Proof.
  induction d as [|[k' v'] d IH]; simpl; [by inversion 1|].
  intros Hin. destruct (decide (k' = k)) as [->|Hne]; [done|].
  unfold Py.keys in *. simpl. f_equal. apply IH.
  apply elem_of_cons in Hin as [->|Hin]; [done | exact Hin].
Qed.

Lemma keys_set_notin k v d : k ∉ Py.keys d → Py.keys (Py.set k v d) = Py.keys d ++ [k].
Proof.
  induction d as [|[k' v'] d IH]; simpl; [done|].
  intros Hnin. unfold Py.keys in *. simpl in *.
  apply not_elem_of_cons in Hnin as [Hne Hnin].
  rewrite decide_False by done. simpl. f_equal. by apply IH.
Qed.

Lemma keys_set_NoDup k v d : NoDup (Py.keys d) → NoDup (Py.keys (Py.set k v d)).
Proof.
  intros Hnd. destruct (decide (k ∈ Py.keys d)) as [Hin|Hnin].
  - by rewrite keys_set_in.
  - rewrite keys_set_notin by done. apply NoDup_app. split_and!; [done | | apply NoDup_singleton].
    intros x Hx ->%list_elem_of_singleton. done.
Qed.

(** The first entry stays first: its key under every assignment, and its
    value under an assignment to another key. *)
Lemma set_head k0 v0 k v d :
  k ≠ k0 → ∃ d', Py.set k v ((k0, v0) :: d) = (k0, v0) :: d'.
Proof. intros Hne. simpl. rewrite decide_False by done. eauto. Qed.

Lemma values_set_in v0 k v d :
  v0 ∈ Py.values (Py.set k v d) → v0 = v ∨ v0 ∈ Py.values d.
Proof.
  induction d as [|[k' v'] d IH]; simpl.
  - intros ->%list_elem_of_singleton. by left.
  - destruct (decide (k' = k)) as [->|Hne]; unfold Py.values in *; simpl;
      rewrite !elem_of_cons.
    + intros [->|Hin]; [by left | right; by right].
    + intros [->|Hin]; [right; by left|].
      destruct (IH Hin) as [->|Hin']; [by left | right; by right].
Qed.

Lemma values_set_notin k v d :
  k ∉ Py.keys d → Py.values (Py.set k v d) = Py.values d ++ [v].
Proof.
  induction d as [|[k' v'] d IH]; simpl; [done|].
  intros Hnin. unfold Py.keys, Py.values in *. simpl in *.
  apply not_elem_of_cons in Hnin as [Hne Hnin].
  rewrite decide_False by done. simpl. f_equal. by apply IH.
Qed.

End dict_facts.

(* ------------------------------------------------------------------------- *)
(** ** The header fingerprint *)
(* ------------------------------------------------------------------------- *)

Section header_data.
Import asset.

(** A header counts when it is present with a non-empty value. *)
Definition given (headers : gmap string string) (name : string) : bool :=
  Py.truthy (headers !! name).

Lemma first_truthy_cons headers name names :
  first_truthy (name :: names) headers =
    if given headers name then headers !! name else first_truthy names headers.
Proof.
  unfold given. simpl. destruct (headers !! name) as [v|]; simpl; [|done].
  by destruct (negb (v =? "")%string).
Qed.

Lemma header_data_of_content_type (headers : gmap string string) :
  content_type (header_data_of headers) = headers !! "Content-Type".
Proof.
  unfold header_data_of. by destruct (first_truthy _ headers).
Qed.

Lemma header_data_of_ident (headers : gmap string string) :
  ident (header_data_of headers) =
    if given headers "ETag" then default "" (headers !! "ETag")
    else if given headers "Last-Modified" then default "" (headers !! "Last-Modified")
    else if given headers "Content-Length" then default "" (headers !! "Content-Length")
    else "-1".
Proof.
  unfold header_data_of. rewrite !first_truthy_cons. simpl first_truthy.
  unfold given.
  destruct (headers !! "ETag") as [e|] eqn:He; simpl;
    [destruct (negb (e =? "")%string); simpl; [done|]|];
  (destruct (headers !! "Last-Modified") as [l|] eqn:Hl; simpl;
    [destruct (negb (l =? "")%string); simpl; [done|]|]);
  (destruct (headers !! "Content-Length") as [c|] eqn:Hc; simpl;
    [destruct (negb (c =? "")%string); simpl; done|done]).
Qed.

(** C8 (as amended). The ident is the value of the first header among ETag,
    Last-Modified and Content-Length that is present with a non-empty value,
    and "-1" when there is none; the content type is the Content-Type header
    of the response ([None] when absent) in every case. *)
Theorem header_fingerprint_priority (headers : gmap string string) :
  content_type (header_data_of headers) = headers !! "Content-Type" ∧
  ident (header_data_of headers) =
    if given headers "ETag" then default "" (headers !! "ETag")
    else if given headers "Last-Modified" then default "" (headers !! "Last-Modified")
    else if given headers "Content-Length" then default "" (headers !! "Content-Length")
    else "-1".
Proof.
  split; [apply header_data_of_content_type | apply header_data_of_ident].
Qed.

(** A response that carries an ETag and a Last-Modified header, the ETag
    being empty. *)
Definition headers_empty_etag : gmap string string :=
  <["ETag" := ""]> (<["Last-Modified" := "Tue, 05 Nov 2024 10:00:00 GMT"]> ∅).

(** C8, counterexample. Both headers are present, and the ident is the value
    of Last-Modified, not the ETag value. *)
Lemma header_fingerprint_empty_etag :
  headers_empty_etag !! "ETag" = Some "" ∧
  headers_empty_etag !! "Last-Modified" = Some "Tue, 05 Nov 2024 10:00:00 GMT" ∧
  ident (header_data_of headers_empty_etag) = "Tue, 05 Nov 2024 10:00:00 GMT" ∧
  ident (header_data_of headers_empty_etag) ≠ "".
Proof. vm_compute. split_and!; [done | done | done | discriminate]. Qed.

(** With a non-empty ETag the ident is the ETag, whatever else is there. *)
Lemma header_fingerprint_etag (headers : gmap string string) (v : string) :
  headers !! "ETag" = Some v → v ≠ "" →
  ident (header_data_of headers) = v.
Proof.
  intros He Hv. rewrite header_data_of_ident.
  unfold given. rewrite He. simpl.
  destruct (String.eqb_spec v ""); [done | done].
Qed.

End header_data.

(* ------------------------------------------------------------------------- *)
(** ** Image transcoding *)
(* ------------------------------------------------------------------------- *)

Section transcode.
Import asset.
Context `{!World}.

(** The module binds [context]; no statement of it binds [CONTEXT]. *)
Lemma CONTEXT_is_not_bound (ctx : Context) :
  Py.get "context" (module_globals ctx) = Some (RunContext ctx) ∧
  Py.get "CONTEXT" (module_globals ctx) = None ∧
  maximum_image_pixels_of ctx "CONTEXT" = Raise Py.NameError.
Proof. split_and!; reflexivity. Qed.

(** No image gets through the [with] block: the comparison with the budget
    raises before anything is saved or resized. *)
Lemma transcode_raises (ctx : Context) (image : Image) :
  transcode ctx image = Raise Py.NameError.
Proof. reflexivity. Qed.

(** [_get_image_content], with what the [with] block does: after a cache
    miss (or without a cache) the function returns nothing; it raises what
    the download or [Image.open] raises, and [NameError] after them. *)
Lemma _get_image_content_unfold (ctx : Context) (asset_path : ZimPath)
    (asset_url : HttpUrl) (header_data : HeaderData) :
  _get_image_content ctx asset_path asset_url header_data =
    (cached ← (if Py.truthy (s3_url_with_credentials ctx)
               then s3_download ("medium/" +:+ asset_path) (ident header_data)
               else Ok None);
     match cached with
     | Some s3_data => Ok s3_data
     | None =>
         unoptimized ← stream_file asset_url;
         _ ← Image_open unoptimized;
         Raise Py.NameError
     end).
Proof.
  unfold _get_image_content, _download_from_online.
  destruct (if Py.truthy (s3_url_with_credentials ctx) then _ else _) as [[d|]|];
    simpl; [done | | done].
  destruct (stream_file asset_url) as [body|]; simpl; [|done].
  by destruct (Image_open body).
Qed.

End transcode.

(* ------------------------------------------------------------------------- *)
(** ** Sample environments *)
(* ------------------------------------------------------------------------- *)

(** An enumeration of sets that is allowed for Python: the one of the set's
    representation, which depends on the members only and not on the order
    in which they were added. *)
Definition representation_order : SetIter :=
  {| set_iter := elements; set_iter_perm := λ s, reflexivity (elements s) |}.

(** [needle in haystack] *)
Definition occurs_in (needle haystack : string) : bool :=
  match String.index 0 needle haystack with Some _ => true | None => false end.

(** A world in which the URLs of [missing] answer with an HTTP error and
    every other URL with an empty body of type [text/plain]; the cache is
    empty, and patterns are plain words. *)
Definition world_without (missing : list HttpUrl) : asset.World :=
  {| asset.stream_file_headers u :=
       if pystr.mem u missing then Raise Py.HTTPError
       else Ok (<["Content-Type" := "text/plain"]> ∅);
     asset.stream_file u :=
       if pystr.mem u missing then Raise Py.HTTPError else Ok [];
     asset.findall re s := occurs_in re s;
     asset.s3_download _ _ := Ok None;
     asset.s3_upload _ _ _ := Ok ();
     asset.Image_open _ := Raise Py.OtherException;
     asset.resize_cover _ w h := Ok (asset.mkImage w h []);
     asset.save_webp _ := Ok [] |}.

(** A rewriter for references that are absolute URLs already: the archive
    path is the URL without its scheme, so that the [http] and the [https]
    URL of a resource normalize to one path. *)
Definition without_scheme (url : string) : string :=
  if String.prefix "https://" url then processor.drop_chars 8 url
  else if String.prefix "http://" url then processor.drop_chars 7 url
  else url.

Definition absolute_rewriting : processor.UrlRewriting :=
  {| processor.rewrite_url _ item_url _ _ :=
       processor.mkRewriteResult item_url (without_scheme item_url)
                       (Some (without_scheme item_url)) |}.

(* ------------------------------------------------------------------------- *)
(** ** [process_asset]: the failure budget and the fallback chain *)
(* ------------------------------------------------------------------------- *)

Section process_asset.
Import asset.
Context `{!World}.
Local Open Scope Z_scope.

(** An attempt that counts against the budget: [get_asset_content] raised,
    and not [KnownBadAssetFailedError]. *)
Definition counted (ctx : Context) (a : ZimPath * HttpUrl * bool) : bool :=
  match get_asset_content ctx a.1.1 a.1.2 a.2 with
  | Ok _ => false
  | Raise Py.KnownBadAssetFailedError => false
  | Raise _ => true
  end.

Definition count_failures (ctx : Context) (l : list (ZimPath * HttpUrl * bool)) : Z :=
  Z.of_nat (length (filter (λ a, counted ctx a) l)).

(** The candidates the loop goes through: up to the first that succeeds. *)
Fixpoint upto_first (ok : HttpUrl → bool) (urls : list HttpUrl) : list HttpUrl :=
  match urls with
  | [] => []
  | u :: urls' => if ok u then [u] else u :: upto_first ok urls'
  end.

Definition fetched (ctx : Context) (p : ZimPath) (b : bool) (u : HttpUrl) : bool :=
  match get_asset_content ctx p u b with Ok _ => true | Raise _ => false end.

(** The run may go on: no budget, or the budget is not exceeded. *)
Definition within_budget (ctx : Context) (st : State) : Prop :=
  bad_assets_threshold ctx < 0 ∨ bad_assets_count st ≤ bad_assets_threshold ctx.

(** The budget is exceeded by the attempt just made. *)
Definition aborted (ctx : Context) (st : State)
    (tried : list (ZimPath * HttpUrl * bool)) : Prop :=
  0 ≤ bad_assets_threshold ctx ∧
  bad_assets_count st = bad_assets_threshold ctx + 1 ∧
  ∃ pre a, tried = pre ++ [a] ∧ counted ctx a = true.

Lemma count_failures_app ctx l1 l2 :
  count_failures ctx (l1 ++ l2) = count_failures ctx l1 + count_failures ctx l2.
Proof. unfold count_failures. rewrite filter_app, length_app. lia. Qed.

Lemma count_failures_one ctx a :
  count_failures ctx [a] = if counted ctx a then 1 else 0.
Proof.
  unfold count_failures. rewrite filter_cons, filter_nil.
  destruct (counted ctx a) eqn:E.
  - rewrite decide_True; [done | done].
  - rewrite decide_False; [done | by intros []].
Qed.

Lemma process_urls_spec ctx p b urls st st' r :
  process_urls ctx p b urls st = (st', r) →
  within_budget ctx st →
  ∃ tried,
    attempts st' = attempts st ++ tried ∧
    bad_assets_count st' = bad_assets_count st + count_failures ctx tried ∧
    ((r = Ok () ∧ within_budget ctx st' ∧
      tried = (λ u, (p, u, b)) <$> upto_first (fetched ctx p b) urls)
     ∨ (r = Raise Py.OSError ∧ aborted ctx st' tried)).
Proof.
  revert st. induction urls as [|u urls IH]; intros st Hrun Hin; simpl in Hrun.
  - injection Hrun as <- <-. exists []. rewrite app_nil_r.
    split_and!; [done | unfold count_failures; simpl; lia | by left].
  - unfold fetched in *. simpl.
    destruct (get_asset_content ctx p u b) as [content|e] eqn:Hget.
    + injection Hrun as <- <-. exists [(p, u, b)]. simpl.
      rewrite count_failures_one. unfold counted. simpl. rewrite Hget.
      split_and!; [done | lia | left; done].
    + assert (Hstep : ∀ st1 k,
        process_urls ctx p b urls st1 = (st', r) →
        attempts st1 = attempts st ++ [(p, u, b)] →
        bad_assets_count st1 = bad_assets_count st + k →
        count_failures ctx [(p, u, b)] = k →
        within_budget ctx st1 →
        ∃ tried,
          attempts st' = attempts st ++ tried ∧
          bad_assets_count st' = bad_assets_count st + count_failures ctx tried ∧
          ((r = Ok () ∧ within_budget ctx st' ∧
            tried = (p, u, b) :: ((λ u, (p, u, b)) <$> upto_first
               (λ u, match get_asset_content ctx p u b with Ok _ => true | Raise _ => false end) urls))
           ∨ (r = Raise Py.OSError ∧ aborted ctx st' tried))).
      { intros st1 k Hr Ha Hc Hk Hb.
        destruct (IH _ Hr Hb) as (tried & Ht & Hn & Hcase).
        exists ((p, u, b) :: tried). rewrite Ht, Ha, <- app_assoc. simpl.
        change (count_failures ctx ((p, u, b) :: tried))
          with (count_failures ctx ([(p, u, b)] ++ tried)).
        rewrite (count_failures_app ctx [(p, u, b)] tried), Hn, Hc, Hk.
        split_and!; [done | lia |].
        destruct Hcase as [(-> & Hb' & ->)|(-> & Hab)]; [left; done|right].
        split; [done|]. destruct Hab as (HT & Hcount & pre & a & -> & Hca).
        split_and!; [done | done |]. exists ((p, u, b) :: pre), a. done. }
      assert (Hone : ∀ v, counted ctx (p, u, b) = v →
                count_failures ctx [(p, u, b)] = if v then 1 else 0).
      { intros v <-. apply count_failures_one. }
      destruct (decide (e = Py.KnownBadAssetFailedError)) as [->|Hne].
      * eapply (Hstep _ 0); [exact Hrun | done | simpl; lia | | exact Hin].
        apply (Hone false). unfold counted. simpl. by rewrite Hget.
      * assert (Hcnt : counted ctx (p, u, b) = true).
        { unfold counted. simpl. rewrite Hget. by destruct e. }
        assert (Hrun' :
          (if (0 <=? bad_assets_threshold ctx)
              && (bad_assets_threshold ctx <? bad_assets_count st + 1)
           then (logger ERROR u (incr_bad_assets (set_workitem (p, u, b) st)),
                 Raise Py.OSError)
           else process_urls ctx p b urls
                  (logger WARNING u (incr_bad_assets (set_workitem (p, u, b) st))))
          = (st', r)) by (destruct e; done).
        clear Hrun.
        destruct ((0 <=? bad_assets_threshold ctx)
                  && (bad_assets_threshold ctx <? bad_assets_count st + 1)) eqn:Hth.
        -- injection Hrun' as <- <-. exists [(p, u, b)]. simpl.
           rewrite (Hone _ Hcnt).
           split_and!; [done | done | right].
           apply andb_prop in Hth as [H0%Z.leb_le Hlt%Z.ltb_lt].
           split; [done|]. unfold aborted. simpl.
           split_and!; [done | destruct Hin; lia | by exists [], (p, u, b)].
        -- eapply (Hstep _ 1); [exact Hrun' | done | done | by apply (Hone true) |].
           apply andb_false_iff in Hth as [Hn%Z.leb_gt|Hn%Z.ltb_ge];
             unfold within_budget; simpl; lia.
Qed.

End process_asset.

Section process_assets.
Import asset.
Context `{!World} `{!SetIter}.
Local Open Scope Z_scope.

Lemma process_assets_spec ctx assets st st' r :
  process_assets ctx assets st = (st', r) →
  within_budget ctx st →
  ∃ tried,
    attempts st' = attempts st ++ tried ∧
    bad_assets_count st' = bad_assets_count st + count_failures ctx tried ∧
    ((r = Ok () ∧ within_budget ctx st')
     ∨ (r = Raise Py.OSError ∧ aborted ctx st' tried)).
Proof.
  revert st. induction assets as [|[p d] assets IH]; intros st Hrun Hin; simpl in Hrun.
  - injection Hrun as <- <-. exists []. rewrite app_nil_r.
    split_and!; [done | unfold count_failures; simpl; lia | by left].
  - unfold process_asset in Hrun.
    destruct (process_urls ctx p (always_fetch_online d) (set_iter (asset_urls d)) st)
      as [st1 r1] eqn:Hone.
    destruct (process_urls_spec _ _ _ _ _ _ _ Hone Hin) as (t1 & Ha1 & Hc1 & Hcase1).
    destruct Hcase1 as [(-> & Hb1 & _)|(-> & Hab)].
    + destruct (IH _ Hrun Hb1) as (t2 & Ha2 & Hc2 & Hcase2).
      exists (t1 ++ t2). rewrite Ha2, Ha1, <- app_assoc, Hc2, Hc1, count_failures_app.
      split_and!; [done | lia |].
      destruct Hcase2 as [?|(-> & HT & Hcount & pre & a & -> & Hca)]; [by left|right].
      split; [done|]. split_and!; [done | done |].
      exists (t1 ++ pre), a. by rewrite <- app_assoc.
    + injection Hrun as <- <-. exists t1. split_and!; [done | done | by right].
Qed.

(** C3. Over the successive calls of [process_asset] of a run, the counter
    is the number of attempts that failed otherwise than with
    [KnownBadAssetFailedError].  With a negative threshold the run is never
    aborted.  With a threshold [T >= 0] the run goes on as long as at most [T]
    such failures happened, and [OSError] is raised by the attempt that is
    failure number [T + 1]. *)
Theorem bad_asset_threshold (ctx : Context) (assets : list (ZimPath * AssetDetails)) :
  let T := bad_assets_threshold ctx in
  let st := (process_assets ctx assets init).1 in
  let r := (process_assets ctx assets init).2 in
  let n := count_failures ctx (attempts st) in
  bad_assets_count st = n ∧
  if T <? 0 then r = Ok ()
  else (r = Ok () ∧ n ≤ T)
       ∨ (r = Raise Py.OSError ∧ n = T + 1 ∧
          ∃ pre a, attempts st = pre ++ [a] ∧ counted ctx a = true).
Proof.
  intros T st r n. subst st r n.
  destruct (process_assets ctx assets init) as [st r] eqn:Hrun. simpl.
  assert (Hin : within_budget ctx init) by (unfold within_budget; simpl; lia).
  destruct (process_assets_spec _ _ _ _ _ Hrun Hin) as (tried & Ha & Hc & Hcase).
  simpl in Ha, Hc. subst tried. split; [lia|].
  destruct (T <? 0) eqn:HT.
  - apply Z.ltb_lt in HT.
    destruct Hcase as [[-> _]|(_ & HT' & _)]; [done | subst T; lia].
  - apply Z.ltb_ge in HT.
    destruct Hcase as [[-> Hb]|(-> & _ & Hcount & Hlast)].
    + left. split; [done|]. destruct Hb; subst T; lia.
    + right. split_and!; [done | subst T; lia | done].
Qed.

(** An attempt that fails with [KnownBadAssetFailedError] leaves the counter
    as it is, and the loop goes on with the next candidate. *)
Lemma known_bad_not_counted ctx p b u urls st :
  get_asset_content ctx p u b = Raise Py.KnownBadAssetFailedError →
  process_urls ctx p b (u :: urls) st =
    process_urls ctx p b urls (logger DEBUG u (set_workitem (p, u, b) st)) ∧
  bad_assets_count (logger DEBUG u (set_workitem (p, u, b) st)) = bad_assets_count st.
Proof. intros Hget. simpl. by rewrite Hget. Qed.

(** The fallback chain of [process_asset]: when the call returns, the
    candidates were attempted in the order of the set's enumeration, up to
    the first that gave its content and no further. *)
Lemma process_urls_chain ctx p b urls st st' :
  process_urls ctx p b urls st = (st', Ok ()) →
  attempts st' =
    attempts st ++ ((λ u, (p, u, b)) <$> upto_first (fetched ctx p b) urls).
Proof.
  revert st. induction urls as [|u urls IH]; intros st Hrun; simpl in Hrun.
  - injection Hrun as <-. by rewrite app_nil_r.
  - unfold fetched in *. simpl.
    destruct (get_asset_content ctx p u b) as [content|e] eqn:Hget.
    + by injection Hrun as <-.
    + assert (Hcons : ∀ st1, attempts st1 = attempts st ++ [(p, u, b)] →
                process_urls ctx p b urls st1 = (st', Ok ()) →
                attempts st' = attempts st ++ (p, u, b) ::
                  ((λ u, (p, u, b)) <$> upto_first
                     (λ u, match get_asset_content ctx p u b with
                           | Ok _ => true | Raise _ => false end) urls)).
      { intros st1 Ha Hr. rewrite (IH _ Hr), Ha, <- app_assoc. done. }
      destruct ((0 <=? bad_assets_threshold ctx)
                && (bad_assets_threshold ctx <? bad_assets_count st + 1)) eqn:Hth;
        destruct e; simpl in Hrun; rewrite ?Hth in Hrun;
        try discriminate; by eapply Hcons; [|exact Hrun].
Qed.

Lemma process_asset_chain ctx p d st st' :
  process_asset ctx p d st = (st', Ok ()) →
  attempts st' =
    attempts st ++ ((λ u, (p, u, always_fetch_online d)) <$>
                    upto_first (fetched ctx p (always_fetch_online d))
                               (set_iter (asset_urls d))).
Proof. apply process_urls_chain. Qed.

End process_assets.

(* ------------------------------------------------------------------------- *)
(** ** The asset-to-download map *)
(* ------------------------------------------------------------------------- *)

Section download_map.
Import processor.
Context `{!UrlRewriting}.

(** The URLs a pass schedules for download, with the path each normalizes
    to, in the order the pass meets them: every URL of a stylesheet; the
    [href] and [src] values of the [img] tags of a page. *)
Definition scheduled_result (r : RewriteResult) : list (ZimPath * HttpUrl) :=
  match zim_path r with
  | Some zp => [(zp, absolute_url r)]
  | None => []
  end.

Definition scheduled_css (article_url : HttpUrl) (urls : list string)
  : list (ZimPath * HttpUrl) :=
  urls ≫= λ item_url, scheduled_result (rewrite_url article_url item_url None true).

Definition scheduled_attr (page_url : HttpUrl) (base_href : option string)
    (tag : string) (a : attr) : list (ZimPath * HttpUrl) :=
  if drop_sizes_and_srcset_attribute tag a.1 then []
  else if String.eqb tag "img" && pystr.mem a.1 ["href"; "src"] && Py.truthy a.2
  then scheduled_result (rewrite_url page_url (default "" a.2) base_href true)
  else [].

Definition scheduled_html (page_url : HttpUrl) (base_href : option string)
    (tags : list start_tag) : list (ZimPath * HttpUrl) :=
  tags ≫= λ t, tag_attrs t ≫= scheduled_attr page_url base_href (tag_name t).

Definition scheduled_pass (p : pass) : list (ZimPath * HttpUrl) :=
  match p with
  | CssPass css_location urls => scheduled_css css_location urls
  | PagePass page_location _ base_href tags =>
      scheduled_html page_location base_href tags
  end.

Definition scheduled (ps : list pass) : list (ZimPath * HttpUrl) :=
  ps ≫= scheduled_pass.

(** [d] holds [u] as a candidate for [p]. *)
Definition holds (d : items_dict) (p : ZimPath) (u : HttpUrl) : Prop :=
  ∃ s : gset HttpUrl, Py.get p d = Some s ∧ u ∈ s.

(** [d] is the map of the scheduled pairs [l]: one entry per path, no entry
    without a candidate, and the candidates of a path are the URLs scheduled
    for it. *)
Definition accumulates (d : items_dict) (l : list (ZimPath * HttpUrl)) : Prop :=
  NoDup (Py.keys d) ∧
  (∀ p s, Py.get p d = Some s → ∃ u, u ∈ s) ∧
  (∀ p u, holds d p u ↔ (p, u) ∈ l).

Lemma accumulates_nil : accumulates [] [].
Proof.
  split_and!; [apply NoDup_nil_2 | done |].
  intros p u. split; [by intros (s & Hs & _) | by inversion 1].
Qed.

Lemma accumulates_add_url d l p u :
  accumulates d l → accumulates (add_url p u d) (l ++ [(p, u)]).
Proof.
  intros (Hnd & Hne & Hh). unfold add_url.
  assert (Hgoal : ∀ s0 : gset HttpUrl,
    (∀ u', u' ∈ s0 ↔ holds d p u' ∨ u' = u) →
    accumulates (Py.set p s0 d) (l ++ [(p, u)])).
  { intros s0 Hs0. split_and!.
    - by apply keys_set_NoDup.
    - intros p' s'. destruct (decide (p = p')) as [<-|Hpp].
      + rewrite get_set_eq. intros [= <-]. exists u. apply Hs0. by right.
      + rewrite get_set_ne by done. apply Hne.
    - intros p' u'. rewrite elem_of_app, list_elem_of_singleton, <- Hh.
      unfold holds. destruct (decide (p = p')) as [<-|Hpp].
      + rewrite get_set_eq. split.
        * intros (s & [= <-] & Hin). apply Hs0 in Hin as [Hin| ->]; [by left | by right].
        * intros Hin. exists s0. split; [done|]. apply Hs0.
          destruct Hin as [Hin|[= ->]]; [by left | by right].
      + rewrite get_set_ne by done. split; [by left|].
        intros [?|[= ? ?]]; [done | congruence]. }
  destruct (Py.get p d) as [s|] eqn:Hget; apply Hgoal; intros u'.
  - rewrite elem_of_union, elem_of_singleton. unfold holds. rewrite Hget.
    split; (intros [Hin|Hin]; [left | by right]).
    + by exists s.
    + by destruct Hin as (? & [= <-] & ?).
  - rewrite elem_of_singleton. unfold holds. rewrite Hget.
    split; [by right | by intros [(? & [=] & _)|?]].
Qed.

Lemma accumulates_add_item d l r :
  accumulates d l →
  accumulates (add_item_to_download r d) (l ++ scheduled_result r).
Proof.
  intros Hd. unfold add_item_to_download, scheduled_result.
  destruct (zim_path r); [by apply accumulates_add_url | by rewrite app_nil_r].
Qed.

Lemma accumulates_rewrite_css article_url urls d l :
  accumulates d l →
  accumulates (rewrite_css article_url urls d) (l ++ scheduled_css article_url urls).
Proof.
  revert d l. induction urls as [|u urls IH]; intros d l Hd; simpl.
  - by rewrite app_nil_r.
  - unfold scheduled_css. simpl. rewrite app_assoc.
    apply IH, accumulates_add_item, Hd.
Qed.

(** The rule for attributes keeps the rewriter's URL and schedules what
    [scheduled_attr] says. *)
Lemma rewrite_href_src_attributes_items tag n v r base res r' l :
  rewrite_href_src_attributes tag n v r base = Ok (res, r') →
  drop_sizes_and_srcset_attribute tag n = false →
  accumulates (html_items r) l →
  page_url r' = page_url r ∧
  accumulates (html_items r') (l ++ scheduled_attr (page_url r) base tag (n, v)).
Proof.
  unfold rewrite_href_src_attributes, scheduled_attr. simpl. intros Hrun -> Hacc.
  destruct (pystr.mem n ["href"; "src"]) eqn:Hn; simpl in *.
  - destruct (Py.truthy v) eqn:Hv; simpl in *.
    + destruct (String.eqb tag "img") eqn:Himg; simpl in *.
      * destruct (String.eqb tag "a"); simpl in Hrun; injection Hrun as <- <-;
          (split; [done|]); simpl; by apply accumulates_add_item.
      * rewrite app_nil_r.
        destruct (String.eqb tag "a"); simpl in Hrun; [|done].
        match type of Hrun with (if ?c then _ else _) = _ => destruct c end;
          [|done]. by injection Hrun as <- <-.
    + injection Hrun as <- <-. rewrite andb_false_r, app_nil_r. done.
  - injection Hrun as <- <-. rewrite andb_false_r, app_nil_r. done.
Qed.

Lemma rewrite_attrs_items tag attrs r base attrs' r' l :
  rewrite_attrs tag attrs r base = Ok (attrs', r') →
  accumulates (html_items r) l →
  page_url r' = page_url r ∧
  accumulates (html_items r')
    (l ++ (attrs ≫= scheduled_attr (page_url r) base tag)).
Proof.
  revert r attrs' l. induction attrs as [|[n v] attrs IH]; intros r attrs' l Hrun Hacc;
    simpl in Hrun.
  - injection Hrun as <- <-. by rewrite app_nil_r.
  - simpl. destruct (drop_sizes_and_srcset_attribute tag n) eqn:Hdrop.
    + destruct (IH _ _ _ Hrun Hacc) as [Hu Ha]. split; [done|].
      unfold scheduled_attr at 1. simpl. by rewrite Hdrop.
    + destruct (rewrite_href_src_attributes tag n v r base) as [[res r1]|] eqn:Hrule;
        [|done]. simpl in Hrun.
      destruct (rewrite_attrs tag attrs r1 base) as [[rest r2]|] eqn:Hrest; [|done].
      simpl in Hrun. injection Hrun as <- <-.
      destruct (rewrite_href_src_attributes_items _ _ _ _ _ _ _ _ Hrule Hdrop Hacc)
        as [Hu1 Ha1].
      destruct (IH _ _ _ Hrest Ha1) as [Hu2 Ha2].
      split; [congruence|]. rewrite Hu1, <- app_assoc in Ha2. done.
Qed.

Lemma rewrite_html_items tags r base tags' r' l :
  rewrite_html tags r base = Ok (tags', r') →
  accumulates (html_items r) l →
  page_url r' = page_url r ∧
  accumulates (html_items r') (l ++ scheduled_html (page_url r) base tags).
Proof.
  revert r tags' l. induction tags as [|t tags IH]; intros r tags' l Hrun Hacc;
    simpl in Hrun.
  - injection Hrun as <- <-. by rewrite app_nil_r.
  - unfold rewrite_start_tag in Hrun.
    destruct (refuse_unsupported_tags (tag_name t)); [|done]. simpl in Hrun.
    destruct (rewrite_attrs (tag_name t) (tag_attrs t) r base) as [[attrs r1]|] eqn:Ha;
      [|done]. simpl in Hrun.
    destruct (rewrite_html tags r1 base) as [[rest r2]|] eqn:Hrest; [|done].
    simpl in Hrun. injection Hrun as <- <-.
    destruct (rewrite_attrs_items _ _ _ _ _ _ _ Ha Hacc) as [Hu1 Ha1].
    destruct (IH _ _ _ Hrest Ha1) as [Hu2 Ha2].
    split; [congruence|]. unfold scheduled_html. simpl.
    rewrite app_assoc. rewrite Hu1 in Ha2. exact Ha2.
Qed.

End download_map.

Section dict_entries.
Context {K V : Type} `{EqDecision K}.

Lemma get_Some_elem_of (k : K) (v : V) (d : Py.dict K V) :
  Py.get k d = Some v → (k, v) ∈ Py.items d.
Proof.
  induction d as [|[k' v'] d IH]; simpl; [done|].
  destruct (decide (k' = k)) as [->|Hne].
  - intros [= ->]. apply list_elem_of_here.
  - intros Hg. apply list_elem_of_further, IH, Hg.
Qed.

Lemma elem_of_get_Some (k : K) (v : V) (d : Py.dict K V) :
  NoDup (Py.keys d) → (k, v) ∈ Py.items d → Py.get k d = Some v.
Proof.
  induction d as [|[k' v'] d IH]; simpl; [by inversion 2|].
  unfold Py.keys, Py.items in *. simpl.
  intros [Hnin Hnd]%NoDup_cons [[= -> ->]|Hin]%elem_of_cons.
  - by rewrite decide_True.
  - destruct (decide (k' = k)) as [->|Hne]; [|by apply IH].
    destruct Hnin. apply list_elem_of_fmap. by exists (k, v).
Qed.

End dict_entries.

Section download_map_merge.
Import processor.
Context `{!UrlRewriting}.

Lemma merge_items_spec (new : list (ZimPath * gset HttpUrl)) (acc : items_dict) :
  NoDup (Py.keys acc) →
  (∀ p s, Py.get p acc = Some s → ∃ u, u ∈ s) →
  (∀ p s, (p, s) ∈ new → ∃ u, u ∈ s) →
  NoDup (Py.keys (merge_items new acc)) ∧
  (∀ p s, Py.get p (merge_items new acc) = Some s → ∃ u, u ∈ s) ∧
  (∀ p u, holds (merge_items new acc) p u ↔
          holds acc p u ∨ ∃ s : gset HttpUrl, (p, s) ∈ new ∧ u ∈ s).
Proof.
  revert acc. induction new as [|[path urls] new IH]; intros acc Hnd Hne Hnew; simpl.
  - split_and!; [done | done |]. intros p u. split; [by left|].
    intros [?|(s & Hin & _)]; [done | by inversion Hin].
  - assert (Hurls : ∃ u, u ∈ urls) by (eapply Hnew, list_elem_of_here).
    assert (Hstep : ∀ s0 : gset HttpUrl,
      (∀ u, u ∈ s0 ↔ holds acc path u ∨ u ∈ urls) →
      NoDup (Py.keys (merge_items new (Py.set path s0 acc))) ∧
      (∀ p s, Py.get p (merge_items new (Py.set path s0 acc)) = Some s → ∃ u, u ∈ s) ∧
      (∀ p u, holds (merge_items new (Py.set path s0 acc)) p u ↔
              holds acc p u ∨ ∃ s : gset HttpUrl, (p, s) ∈ (path, urls) :: new ∧ u ∈ s)).
    { intros s0 Hs0.
      destruct (IH (Py.set path s0 acc)) as (Hnd' & Hne' & Hh').
      - by apply keys_set_NoDup.
      - intros p s. destruct (decide (path = p)) as [<-|Hpp].
        + rewrite get_set_eq. intros [= <-]. destruct Hurls as [u Hu].
          exists u. apply Hs0. by right.
        + rewrite get_set_ne by done. apply Hne.
      - intros p s Hin. eapply Hnew, list_elem_of_further, Hin.
      - split_and!; [done | done |]. intros p u. rewrite Hh'.
        assert (Hset : holds (Py.set path s0 acc) p u ↔
                       holds acc p u ∨ (p = path ∧ u ∈ urls)).
        { unfold holds. destruct (decide (path = p)) as [<-|Hpp].
          - rewrite get_set_eq. split.
            + intros (s & [= <-] & Hin). apply Hs0 in Hin as [Hin|Hin];
                [by left | by right].
            + intros Hin. exists s0. split; [done|]. apply Hs0.
              destruct Hin as [Hin|[_ Hin]]; [by left | by right].
          - rewrite get_set_ne by done. split; [by left|].
            intros [?|[? _]]; [done | congruence]. }
        rewrite Hset. split.
        + intros [[?|[-> Hu]]|(s & Hin & Hu)].
          * by left.
          * right. exists urls. split; [apply list_elem_of_here | done].
          * right. exists s. split; [by apply list_elem_of_further | done].
        + intros [?|(s & Hin & Hu)]; [by left; left|].
          apply elem_of_cons in Hin as [[= -> ->]|Hin].
          * left. by right.
          * right. by exists s. }
    destruct (Py.get path acc) as [old|] eqn:Hget; apply Hstep; intros u.
    + rewrite elem_of_union. unfold holds. rewrite Hget.
      split; (intros [Hin|Hin]; [left | by right]).
      * by exists old.
      * by destruct Hin as (? & [= <-] & ?).
    + unfold holds. rewrite Hget.
      split; [by right | by intros [(? & [=] & _)|?]].
Qed.

Lemma accumulates_merge (new acc : items_dict) ln la :
  accumulates new ln → accumulates acc la →
  accumulates (merge_items (Py.items new) acc) (la ++ ln).
Proof.
  intros (Hnd_n & Hne_n & Hh_n) (Hnd_a & Hne_a & Hh_a).
  destruct (merge_items_spec (Py.items new) acc) as (Hnd & Hne & Hh); [done | done | |].
  - intros p s Hin. eapply Hne_n, elem_of_get_Some; done.
  - split_and!; [done | done |]. intros p u.
    rewrite Hh, elem_of_app, <- Hh_a, <- Hh_n. unfold holds at 3.
    split; (intros [?|(s & Hs & Hu)]; [by left | right; exists s; split; [|done]]).
    + by apply elem_of_get_Some.
    + by apply get_Some_elem_of.
Qed.

Lemma process_pass_accumulates p d d' l :
  process_pass p d = Ok d' → accumulates d l →
  accumulates d' (l ++ scheduled_pass p).
Proof.
  intros Hrun Hacc. destruct p as [loc urls|loc lib base tags]; simpl in *.
  - injection Hrun as <-. apply accumulates_merge; [|done].
    apply (accumulates_rewrite_css loc urls [] []), accumulates_nil.
  - destruct (rewrite_html tags _ base) as [[tags' r']|] eqn:Hhtml; [|done].
    simpl in Hrun. injection Hrun as <-. apply accumulates_merge; [|done].
    eapply (rewrite_html_items _ _ _ _ _ []) in Hhtml as [_ Hh]; [exact Hh|].
    apply accumulates_nil.
Qed.

Lemma process_passes_accumulates ps d d' l :
  process_passes ps d = Ok d' → accumulates d l →
  accumulates d' (l ++ scheduled ps).
Proof.
  revert d l. induction ps as [|p ps IH]; intros d l Hrun Hacc; simpl in Hrun.
  - injection Hrun as <-. by rewrite app_nil_r.
  - destruct (process_pass p d) as [d1|] eqn:Hp; [|done]. simpl in Hrun.
    unfold scheduled. simpl. rewrite app_assoc.
    eapply IH; [exact Hrun|]. by eapply process_pass_accumulates.
Qed.

(** C2. After all the page and stylesheet passes of a run, the map has one
    entry per path, and the candidate set of a path holds exactly the URLs
    that were scheduled for that path in some pass; a path has an entry
    exactly when a URL was scheduled for it. *)
Theorem download_map_accumulates (ps : list pass) (items_to_download : items_dict) :
  process_passes ps [] = Ok items_to_download →
  NoDup (Py.keys items_to_download) ∧
  ∀ path : ZimPath,
    match Py.get path items_to_download with
    | Some urls =>
        (∀ u, u ∈ urls ↔ (path, u) ∈ scheduled ps) ∧
        (∃ u, (path, u) ∈ scheduled ps)
    | None => ∀ u, (path, u) ∉ scheduled ps
    end.
Proof.
  intros Hrun.
  destruct (process_passes_accumulates _ _ _ [] Hrun accumulates_nil)
    as (Hnd & Hne & Hh).
  simpl in Hh. split; [done|]. intros path.
  destruct (Py.get path items_to_download) as [urls|] eqn:Hget.
  - assert (Hu : ∀ u, u ∈ urls ↔ (path, u) ∈ scheduled ps).
    { intros u. rewrite <- Hh. unfold holds. rewrite Hget. split.
      - intros Hin. by exists urls.
      - by intros (? & [= <-] & ?). }
    split; [done|]. destruct (Hne _ _ Hget) as [u Hin]. exists u. by apply Hu.
  - intros u Hin. apply Hh in Hin as (s & Hs & _). congruence.
Qed.

(** A pass never drops or replaces an entry: the keys stay where they are
    (new ones come after them), and the candidates of a path only grow. *)
Lemma merge_items_monotone (new : list (ZimPath * gset HttpUrl)) (acc : items_dict) :
  Py.keys acc `prefix_of` Py.keys (merge_items new acc) ∧
  ∀ p s, Py.get p acc = Some s →
    ∃ s', Py.get p (merge_items new acc) = Some s' ∧ s ⊆ s'.
Proof.
  revert acc. induction new as [|[path urls] new IH]; intros acc; simpl.
  - split; [done|]. intros p s Hs. by exists s.
  - assert (Hstep : ∀ s0 : gset HttpUrl,
      (∀ old, Py.get path acc = Some old → old ⊆ s0) →
      Py.keys acc `prefix_of` Py.keys (merge_items new (Py.set path s0 acc)) ∧
      ∀ p s, Py.get p acc = Some s →
        ∃ s', Py.get p (merge_items new (Py.set path s0 acc)) = Some s' ∧ s ⊆ s').
    { intros s0 Hs0. destruct (IH (Py.set path s0 acc)) as [Hpre Hmono]. split.
      - etrans; [|exact Hpre].
        destruct (decide (path ∈ Py.keys acc)) as [Hin|Hnin].
        + by rewrite keys_set_in.
        + rewrite keys_set_notin by done. by apply prefix_app_r.
      - intros p s Hs. destruct (decide (path = p)) as [<-|Hpp].
        + destruct (Hmono path s0) as (s' & Hs' & Hsub); [apply get_set_eq|].
          exists s'. split; [done|]. etrans; [by apply Hs0 | done].
        + apply Hmono. by rewrite get_set_ne. }
    destruct (Py.get path acc) as [old|] eqn:Hget; apply Hstep.
    + intros ? [= <-]. apply union_subseteq_l.
    + by intros ? [=].
Qed.

End download_map_merge.

(* ------------------------------------------------------------------------- *)
(** ** The order of the candidates *)
(* ------------------------------------------------------------------------- *)

Section candidate_order.
Import processor.
#[local] Existing Instance absolute_rewriting.

Definition logo_https : HttpUrl := "https://cdn.example.org/logo.png".
Definition logo_http : HttpUrl := "http://cdn.example.org/logo.png".

(** Two stylesheets: the first refers to the logo by its [http] URL, the
    second by its [https] URL. *)
Definition two_stylesheets : list pass :=
  [ CssPass "https://example.org/screen.css" [logo_http];
    CssPass "https://example.org/print.css" [logo_https] ].

Definition logo_details (items : items_dict) : asset.AssetDetails :=
  asset.mkAssetDetails (default ∅ (Py.get "cdn.example.org/logo.png" items)) ∅ false.

(** C1, the code at the failing input. The [http] URL is seen first and the
    [https] URL second, for the same path; both can be downloaded. With a set
    enumeration that Python allows, the asset loop of [Processor.run] and
    [process_asset] both request the [https] URL, seen second, and stop there:
    the URL that was seen first is not the one attempted first. *)
Lemma candidates_not_in_discovery_order :
  scheduled two_stylesheets =
    [("cdn.example.org/logo.png", logo_http); ("cdn.example.org/logo.png", logo_https)] ∧
  ∃ items,
    process_passes two_stylesheets [] = Ok items ∧
    Py.keys items = ["cdn.example.org/logo.png"] ∧
    requested (@download_assets (world_without []) representation_order
                 (Py.items items) (mkRunState [] [])).1 = [logo_https] ∧
    asset.attempts (@asset.process_asset (world_without []) representation_order
                      (asset.mkContext 0 None 921600 None)
                      "cdn.example.org/logo.png" (logo_details items) asset.init).1
      = [("cdn.example.org/logo.png", logo_https, false)].
Proof.
  split; [reflexivity|]. eexists. split; [reflexivity|].
  split_and!; vm_compute; reflexivity.
Qed.

End candidate_order.

Section any_enumeration.
Context `{!SetIter}.

(** Whatever the enumeration of sets, it cannot follow the order in which
    two URLs were added in both of the two orders: the set is the same. *)
Lemma enumeration_forgets_order (u1 u2 : HttpUrl) :
  u1 ≠ u2 →
  head (set_iter ({[u1]} ∪ {[u2]})) ≠ Some u1 ∨
  head (set_iter ({[u2]} ∪ {[u1]})) ≠ Some u2.
Proof.
  intros Hne. rewrite (union_comm_L {[u2]} {[u1]}).
  destruct (head (set_iter ({[u1]} ∪ {[u2]}))) as [u|]; [|by left].
  destruct (decide (u = u1)) as [->|]; [right | left]; congruence.
Qed.

End any_enumeration.

Section asset_loop.
Import processor.
Context `{!asset.World} `{!SetIter}.

(** The asset loop of [Processor.run] has the same shape: the candidates of
    a path are requested in the order of the set's enumeration, up to the
    first whose download succeeds. *)
Lemma download_first_chain asset_path urls st st' :
  download_first asset_path urls st = (st', Ok ()) →
  requested st' =
    requested st ++
    upto_first (λ u, match asset.stream_file u with Ok _ => true | Raise _ => false end)
               urls.
Proof.
  revert st. induction urls as [|u urls IH]; intros st Hrun; simpl in Hrun.
  - injection Hrun as <-. by rewrite app_nil_r.
  - simpl. destruct (asset.stream_file u) as [content|e] eqn:Hget.
    + by injection Hrun as <-.
    + destruct e; try done. rewrite (IH _ Hrun). simpl. by rewrite <- app_assoc.
Qed.

End asset_loop.

(* ------------------------------------------------------------------------- *)
(** ** Unsupported tags *)
(* ------------------------------------------------------------------------- *)

Section unsupported_tags.
Import processor.
Context `{!UrlRewriting}.

(** The tag carries an [href] or [src] attribute with a non-empty value. *)
Definition has_link (attrs : list attr) : bool :=
  existsb (λ a : attr, pystr.mem a.1 ["href"; "src"] && Py.truthy a.2) attrs.

Definition other_tag (tag : string) : Prop :=
  tag ≠ "picture" ∧ tag ≠ "a" ∧ tag ≠ "img".

Lemma refuse_unsupported_tags_picture tag :
  refuse_unsupported_tags tag = Raise Py.UnsupportedTagError ↔ tag = "picture".
Proof.
  unfold refuse_unsupported_tags, pystr.mem.
  destruct (decide (tag = "picture")) as [->|Hne].
  - done.
  - rewrite bool_decide_eq_false_2; [done|].
    by intros ->%list_elem_of_singleton.
Qed.

Lemma refuse_unsupported_tags_other tag :
  tag ≠ "picture" → refuse_unsupported_tags tag = Ok ().
Proof.
  intros Hne. unfold refuse_unsupported_tags, pystr.mem.
  rewrite bool_decide_eq_false_2; [done|]. by intros ->%list_elem_of_singleton.
Qed.

Lemma rule_other_tag tag n v r base :
  other_tag tag →
  rewrite_href_src_attributes tag n v r base =
    if pystr.mem n ["href"; "src"] && Py.truthy v then Raise Py.ValueError
    else Ok (None, r).
Proof.
  intros (_ & Ha & Hi). unfold rewrite_href_src_attributes.
  destruct (pystr.mem n ["href"; "src"]); simpl; [|done].
  destruct (Py.truthy v); simpl; [|done].
  destruct (String.eqb_spec tag "a"); [done|].
  destruct (String.eqb_spec tag "img"); [done|]. done.
Qed.

Lemma rewrite_attrs_other_tag tag attrs r base :
  other_tag tag →
  rewrite_attrs tag attrs r base =
    if has_link attrs then Raise Py.ValueError else Ok (attrs, r).
Proof.
  intros Hother. induction attrs as [|[n v] attrs IH]; simpl; [done|].
  unfold drop_sizes_and_srcset_attribute.
  destruct (String.eqb_spec tag "img") as [->|_]; [by destruct Hother as (_ & _ & ?)|].
  simpl. rewrite rule_other_tag by done.
  destruct (pystr.mem n ["href"; "src"] && Py.truthy v); simpl; [done|].
  rewrite IH. by destruct (has_link attrs).
Qed.

(** C5 (as amended). The tag [picture] raises [UnsupportedTagError]. A tag
    other than [picture], [a] and [img] raises [ValueError] when it carries a
    non-empty [href] or [src], and is passed through as it is otherwise. *)
Theorem unsupported_tag_rules (t : start_tag) (r : HtmlUrlsRewriter)
    (base : option string) :
  (tag_name t = "picture" →
     rewrite_start_tag t r base = Raise Py.UnsupportedTagError) ∧
  (other_tag (tag_name t) → has_link (tag_attrs t) = true →
     rewrite_start_tag t r base = Raise Py.ValueError) ∧
  (other_tag (tag_name t) → has_link (tag_attrs t) = false →
     rewrite_start_tag t r base = Ok (t, r)).
Proof.
  unfold rewrite_start_tag. split_and!.
  - intros Hp. by rewrite (proj2 (refuse_unsupported_tags_picture _) Hp).
  - intros Hother Hl. rewrite refuse_unsupported_tags_other by apply Hother.
    simpl. rewrite rewrite_attrs_other_tag, Hl by done. done.
  - intros Hother Hl. rewrite refuse_unsupported_tags_other by apply Hother.
    simpl. rewrite rewrite_attrs_other_tag, Hl by done. simpl. by destruct t.
Qed.

(** A document with a [picture] tag is not rewritten: the run stops with an
    exception, [UnsupportedTagError] unless an earlier tag raised. *)
Lemma rewrite_html_picture tags r base t :
  t ∈ tags → tag_name t = "picture" →
  ∃ e, rewrite_html tags r base = Raise e.
Proof.
  revert r. induction tags as [|t' tags IH]; intros r Hin Hp; [by inversion Hin|].
  simpl. destruct (rewrite_start_tag t' r base) as [[t1 r1]|e] eqn:Ht; [|by eauto].
  apply elem_of_cons in Hin as [<-|Hin].
  - unfold rewrite_start_tag in Ht.
    by rewrite (proj2 (refuse_unsupported_tags_picture _) Hp) in Ht.
  - simpl. destruct (IH r1 Hin Hp) as [e ->]. by eauto.
Qed.

End unsupported_tags.

Section unsupported_tags_samples.
Import processor.
#[local] Existing Instance absolute_rewriting.

(** A [video] tag with a poster and its controls. *)
Definition video_tag : start_tag :=
  mkTag "video" [("poster", Some "https://example.org/poster.png"); ("controls", None)].

Definition page_rewriter : HtmlUrlsRewriter :=
  mkHtmlUrlsRewriter "https://example.org/Bookshelves/Page" "example.org/" [].

(** C5, counterexample. A [video] tag is none of the tags the rules handle
    ([a], [img]); rewriting a page that contains it raises nothing and leaves
    the tag as it was. *)
Lemma video_tag_passes_through :
  refuse_unsupported_tags (tag_name video_tag) = Ok () ∧
  rewrite_html [video_tag] page_rewriter None = Ok ([video_tag], page_rewriter) ∧
  process_pass (PagePass "https://example.org/Bookshelves/Page" "example.org/" None
                         [video_tag]) [] = Ok [].
Proof. split_and!; reflexivity. Qed.

Definition picture_tag : start_tag := mkTag "picture" [].

Lemma unsupported_tag_rules_witness :
  tag_name picture_tag = "picture" ∧
  rewrite_start_tag picture_tag page_rewriter None = Raise Py.UnsupportedTagError.
Proof.
  split; [reflexivity|].
  apply (proj1 (unsupported_tag_rules picture_tag page_rewriter None)). reflexivity.
Defined.

End unsupported_tags_samples.

(* ------------------------------------------------------------------------- *)
(** ** [content/shared.json] *)
(* ------------------------------------------------------------------------- *)

Section shared_json.

Lemma to_camel_fields :
  ui.to_camel "logo_path" = "logoPath" ∧
  ui.to_camel "root_page_path" = "rootPagePath" ∧
  ui.to_camel "pages" = "pages" ∧
  ui.to_camel "js_paths" = "jsPaths" ∧
  ui.to_camel "id" = "id" ∧ ui.to_camel "title" = "title" ∧ ui.to_camel "path" = "path".
Proof. split_and!; reflexivity. Qed.

(** The JSON of a [SharedModel]: an object with the keys [logoPath],
    [rootPagePath], [pages] and [jsPaths], in which [pages] is a list of
    objects with the keys [id], [title] and [path] and [jsPaths] a list of
    strings. *)
Lemma SharedModel_dump_shape (m : ui.SharedModel) :
  ui.SharedModel_dump m =
    ui.JObject [ ("logoPath", ui.JString (ui.logo_path m));
                 ("rootPagePath", ui.JString (ui.root_page_path m));
                 ("pages", ui.JArray (ui.PageModel_dump <$> ui.pages m));
                 ("jsPaths", ui.JArray (ui.JString <$> ui.js_paths m)) ] ∧
  ui.json_keys (ui.SharedModel_dump m) =
    Some ["logoPath"; "rootPagePath"; "pages"; "jsPaths"] ∧
  Forall (λ j, ui.json_keys j = Some ["id"; "title"; "path"])
         (ui.PageModel_dump <$> ui.pages m).
Proof.
  split_and!; [reflexivity | reflexivity |].
  apply Forall_fmap, Forall_forall. intros pm _. reflexivity.
Qed.

(** C9, the code on every input. [Processor.run] builds the [SharedModel]
    without [js_paths], a field that [ui.py] declares with no default: the
    statement that writes [content/shared.json] raises ([IndexError] when no
    page is selected, [ValidationError] otherwise) and the item is not
    written. *)
Theorem shared_json_not_written (selected_pages : list client.LibraryPage) :
  run.shared_json selected_pages =
    match selected_pages with
    | [] => Raise Py.IndexError
    | _ :: _ => Raise Py.ValidationError
    end.
Proof. by destruct selected_pages. Qed.

End shared_json.

(* ------------------------------------------------------------------------- *)
(** ** The theorems at sample inputs *)
(* ------------------------------------------------------------------------- *)

Section samples.
Import processor.
#[local] Existing Instance absolute_rewriting.

(** A photograph of 4000 by 3000 pixels, with a budget of 1280 * 720. *)
Definition photo : asset.Image := asset.mkImage 4000 3000 [].
Definition default_context : asset.Context := asset.mkContext 0 None 921600 None.

(** A thumbnail of 64 by 48 pixels, within the budget. *)
Definition thumbnail : asset.Image := asset.mkImage 64 48 [].

(** A server that answers every URL with a PNG file, which the codec decodes
    to [image]; there is no cache, and the codec can save every image. *)
Definition image_server (image : asset.Image) : asset.World :=
  {| asset.stream_file_headers _ := Ok (<["Content-Type" := "image/png"]> ∅);
     asset.stream_file _ := Ok [];
     asset.findall re s := occurs_in re s;
     asset.s3_download _ _ := Ok None;
     asset.s3_upload _ _ _ := Ok ();
     asset.Image_open _ := Ok image;
     asset.resize_cover _ w h := Ok (asset.mkImage w h []);
     asset.save_webp _ := Ok [] |}.

(** The run context with ten failures allowed. *)
Definition lenient_context : asset.Context := asset.mkContext 10 None 921600 None.

Definition photo_asset : asset.AssetDetails :=
  asset.mkAssetDetails {["https://example.org/photo.png"]} ∅ false.

(** The arithmetic of the resizing, as Python's floats give it: the target
    size of the photograph would be 1108 by 831. *)
Example int_sqrt_div_photo :
  asset.int_sqrt_div (921600 * 4000) 3000 = Ok 1108%Z ∧
  asset.int_sqrt_div (921600 * 3000) 4000 = Ok 831%Z ∧
  asset.int_sqrt_div (10 ^ 17 - 1) (10 ^ 5) = Ok 1000000%Z ∧
  asset.int_sqrt_div 921600 0 = Raise Py.ZeroDivisionError.
Proof. split_and!; vm_compute; reflexivity. Qed.

(** C7, the code at the failing input. A URL answers with a PNG photograph
    of 4000 by 3000 pixels, the budget is 1280 * 720 pixels and no cache is
    configured.  The image is not resized: the comparison with the budget
    reads [CONTEXT], a name the module does not bind, and [NameError] is
    raised; [get_asset_content] raises it, and [process_asset] counts a
    failure and adds nothing to the archive.  An image within the budget is
    not encoded either. *)
Theorem image_transcoding_raises :
  (asset.width photo * asset.height photo >? asset.maximum_image_pixels lenient_context)%Z
    = true ∧
  @asset.transcode (image_server photo) lenient_context photo = Raise Py.NameError ∧
  @asset.get_asset_content (image_server photo) lenient_context
     "example.org/photo.png" "https://example.org/photo.png" false
    = Raise Py.NameError ∧
  @asset.process_asset (image_server photo) representation_order lenient_context
     "example.org/photo.png" photo_asset asset.init
    = (asset.mkState 1 []
         [(asset.WARNING, "https://example.org/photo.png")]
         [("example.org/photo.png", "https://example.org/photo.png", false)],
       Ok ()) ∧
  (asset.width thumbnail * asset.height thumbnail
     <=? asset.maximum_image_pixels lenient_context)%Z = true ∧
  @asset.transcode (image_server thumbnail) lenient_context thumbnail
    = Raise Py.NameError ∧
  @asset.get_asset_content (image_server thumbnail) lenient_context
     "example.org/photo.png" "https://example.org/photo.png" false
    = Raise Py.NameError.
Proof. split_and!; vm_compute; reflexivity. Qed.

(** Three assets whose only URL is missing. *)
Definition missing_urls : list HttpUrl :=
  [ "https://example.org/a.png"; "https://cdn.broken.example/b.png";
    "https://cdn.broken.example/c.png" ].

Definition missing_assets : list (ZimPath * asset.AssetDetails) :=
  (λ u, (without_scheme u, asset.mkAssetDetails {[u]} ∅ false)) <$> missing_urls.

Definition run_missing (ctx : asset.Context) : Z * nat * result () :=
  let r := @asset.process_assets (world_without missing_urls) representation_order
             ctx missing_assets asset.init in
  (asset.bad_assets_count r.1, length (asset.attempts r.1), r.2).

(** With a threshold of 1 the second failure aborts the run; with a
    threshold of 3, or a negative one, the three assets are skipped; failures
    on URLs that match the known-bad pattern are not counted. *)
Example threshold_1 :
  run_missing (asset.mkContext 1 None 921600 None) = (2%Z, 2, Raise Py.OSError).
Proof. reflexivity. Qed.

Example threshold_3 :
  run_missing (asset.mkContext 3 None 921600 None) = (3%Z, 3, Ok ()).
Proof. reflexivity. Qed.

Example threshold_negative :
  run_missing (asset.mkContext (-1) None 921600 None) = (3%Z, 3, Ok ()).
Proof. reflexivity. Qed.

Example threshold_0_known_bad :
  run_missing (asset.mkContext 0 (Some "cdn.broken") 921600 None)
    = (1%Z, 1, Raise Py.OSError) ∧
  @asset.process_assets (world_without missing_urls) representation_order
    (asset.mkContext 0 (Some "cdn.broken") 921600 None) (drop 1 missing_assets) asset.init
    = (asset.mkState 0 []
         [(asset.DEBUG, "https://cdn.broken.example/b.png");
          (asset.DEBUG, "https://cdn.broken.example/c.png")]
         [("cdn.broken.example/b.png", "https://cdn.broken.example/b.png", false);
          ("cdn.broken.example/c.png", "https://cdn.broken.example/c.png", false)],
       Ok ()).
Proof. split; vm_compute; reflexivity. Qed.

Lemma download_map_accumulates_witness :
  ∃ items,
    process_passes two_stylesheets [] = Ok items ∧
    NoDup (Py.keys items) ∧
    ∀ u, u ∈ default ∅ (Py.get "cdn.example.org/logo.png" items)
         ↔ ("cdn.example.org/logo.png", u) ∈ scheduled two_stylesheets.
Proof.
  eexists. split; [reflexivity|].
  destruct (download_map_accumulates two_stylesheets _ eq_refl) as [Hnd Hall].
  split; [exact Hnd|]. exact (proj1 (Hall "cdn.example.org/logo.png")).
Defined.

End samples.

(* ------------------------------------------------------------------------- *)
(** ** [sub_tree] *)
(* ------------------------------------------------------------------------- *)

Section dict_append.
Context {K V : Type} `{EqDecision K}.

Lemma set_notin (k : K) (v : V) (d : Py.dict K V) :
  k ∉ Py.keys d → Py.set k v d = d ++ [(k, v)].
Proof.
  induction d as [|[k' v'] d IH]; simpl; [done|].
  unfold Py.keys in *. simpl.
  intros [Hne Hnin]%not_elem_of_cons.
  rewrite decide_False by done. f_equal. by apply IH.
Qed.

Lemma contains_false (k : K) (d : Py.dict K V) :
  Py.contains k d = false ↔ k ∉ Py.keys d.
Proof.
  rewrite <- (contains_true k d). by destruct (Py.contains k d).
Qed.

Lemma contains_get (k : K) (d : Py.dict K V) :
  Py.contains k d = true → ∃ v, Py.get k d = Some v.
Proof. unfold Py.contains. destruct (Py.get k d); [by eauto | done]. Qed.

End dict_append.

Section sub_tree.
Import client.
Local Open Scope nat_scope.

(** [b] is a child of [a]; [b] is reachable from [a] through children. *)
Definition child (h : heap) (a b : ref) : Prop :=
  ∃ pg, h !! a = Some pg ∧ b ∈ children pg.

Definition reach (h : heap) : relation ref := rtc (child h).

(** Every address that is stored as a child is the address of a page. *)
Definition closed (h : heap) : Prop :=
  Forall (λ pg, Forall (λ c, c < length h) (children pg)) h.

Lemma closed_child h a b : closed h → child h a b → b < length h.
Proof.
  intros Hcl (pg & Hpg & Hb). unfold closed in Hcl.
  rewrite Forall_forall in Hcl. specialize (Hcl pg (list_elem_of_lookup_2 _ _ _ Hpg)).
  rewrite Forall_forall in Hcl. by apply Hcl.
Qed.

(** Every entry of a pages map is a page stored under its id. *)
Definition entries_ok (h : heap) (d : Py.dict LibraryPageId ref) : Prop :=
  ∀ k r, (k, r) ∈ d → ∃ pg, h !! r = Some pg ∧ id pg = k.

(** The children that may still be queued: those of the pages whose id is
    not yet in the map. *)
Definition pending (h : heap) (d : Py.dict LibraryPageId ref) : nat :=
  sum_list_with (λ pg, if Py.contains (id pg) d then 0 else length (children pg)) h.

Lemma sum_list_with_drop {A} (f g : A → nat) (l : list A) i x n :
  (∀ y, g y ≤ f y) → l !! i = Some x → g x + n ≤ f x →
  sum_list_with g l + n ≤ sum_list_with f l.
Proof.
  intros Hle. revert i. induction l as [|y l IH]; intros i Hi Hx; [done|].
  destruct i as [|i]; simpl in *.
  - injection Hi as ->.
    assert (sum_list_with g l ≤ sum_list_with f l); [|lia].
    clear -Hle. induction l as [|z l IH]; simpl; [done|]. specialize (Hle z). lia.
  - specialize (IH i Hi Hx). specialize (Hle y). lia.
Qed.

Lemma pending_set h d c pg :
  h !! c = Some pg → Py.contains (id pg) d = false →
  pending h (Py.set (id pg) c d) + length (children pg) ≤ pending h d.
Proof.
  intros Hc Hnew. unfold pending. apply (sum_list_with_drop _ _ _ c pg); [|done|].
  - intros y. destruct (Py.contains (id y) d) eqn:Hy;
      [|destruct (Py.contains (id y) (Py.set _ _ _)); simpl; lia].
    apply contains_true in Hy. rewrite (proj2 (contains_true _ _)); [done|].
    apply contains_false in Hnew. rewrite set_notin by done.
    unfold Py.keys in *. rewrite fmap_app. apply elem_of_app. by left.
  - rewrite Hnew. rewrite (proj2 (contains_true _ _)); [simpl; lia|].
    eapply get_Some_keys, get_set_eq.
Qed.

Lemma pending_first h r0 pg d :
  h !! r0 = Some pg → Py.contains (id pg) d = true →
  pending h d + length (children pg) ≤ sum_list_with (λ pg, length (children pg)) h.
Proof.
  intros Hr Hin. unfold pending. apply (sum_list_with_drop _ _ _ r0 pg); [|done|].
  - intros y. destruct (Py.contains (id y) d); simpl; lia.
  - rewrite Hin. simpl. lia.
Qed.

(** The loop ends within the fuel it is given, on every closed heap: with or
    without cycles among the children links, with or without repeated ids. *)
Lemma sub_tree_loop_fuel h fuel queue d :
  closed h → Forall (λ c, c < length h) queue →
  length queue + pending h d ≤ fuel →
  is_Some (sub_tree_loop fuel h queue d).
Proof.
  intros Hcl. revert queue d. induction fuel as [|fuel IH]; intros queue d Hq Hfuel.
  - destruct queue; simpl in *; [by eauto | lia].
  - destruct queue as [|c q]; simpl; [by eauto|].
    apply Forall_cons in Hq as [Hc Hq].
    destruct (lookup_lt_is_Some_2 h c Hc) as [pg Hpg]. rewrite Hpg. simpl.
    destruct (Py.contains (id pg) d) eqn:Hin.
    + apply IH; [done | simpl in Hfuel; lia].
    + apply IH.
      * apply Forall_app. split; [done|]. apply Forall_forall. intros x Hx.
        apply (closed_child h c x Hcl). by exists pg.
      * pose proof (pending_set h d c pg Hpg Hin). rewrite length_app.
        simpl in Hfuel. lia.
Qed.

(** What the loop keeps true. *)
Record visited (h : heap) (r0 : ref) (d : Py.dict LibraryPageId ref) : Prop := {
  visited_keys : NoDup (Py.keys d);
  visited_entries : entries_ok h d;
  visited_reach : Forall (reach h r0) (Py.values d);
  visited_head : head (Py.values d) = Some r0
}.

Lemma visited_add h r0 d c pg :
  visited h r0 d → reach h r0 c → h !! c = Some pg →
  Py.contains (id pg) d = false →
  visited h r0 (Py.set (id pg) c d).
Proof.
  intros [Hk He Hr Hh] Hc Hpg Hnew. apply contains_false in Hnew.
  rewrite set_notin by done. split.
  - unfold Py.keys in *. rewrite fmap_app. apply NoDup_app. split_and!; [done | | apply NoDup_singleton].
    intros x Hx ->%list_elem_of_singleton. done.
  - intros k r [Hin|[= -> ->]%list_elem_of_singleton]%elem_of_app; [by apply He | by eauto].
  - unfold Py.values in *. rewrite fmap_app. apply Forall_app. split; [done|].
    by apply Forall_singleton.
  - unfold Py.values in *. rewrite fmap_app, head_app, Hh. done.
Qed.

Lemma sub_tree_loop_sound h r0 fuel queue d res :
  sub_tree_loop fuel h queue d = Some res →
  Forall (reach h r0) queue → visited h r0 d → visited h r0 res.
Proof.
  revert queue d. induction fuel as [|fuel IH]; intros queue d Hrun Hq Hv.
  - destruct queue; simpl in Hrun; [by injection Hrun as <- | done].
  - destruct queue as [|c q]; simpl in Hrun; [by injection Hrun as <-|].
    apply Forall_cons in Hq as [Hc Hq].
    destruct (h !! c) as [pg|] eqn:Hpg; [|done]. simpl in Hrun.
    destruct (Py.contains (id pg) d) eqn:Hin.
    + by eapply IH.
    + eapply IH; [exact Hrun | | by eapply visited_add].
      apply Forall_app. split; [done|]. apply Forall_forall. intros x Hx.
      eapply rtc_r; [exact Hc|]. by exists pg.
Qed.

(** The ids tell the pages reachable from [r0] apart. *)
Definition distinct_ids (h : heap) (r0 : ref) : Prop :=
  ∀ a b pga pgb, reach h r0 a → reach h r0 b →
    h !! a = Some pga → h !! b = Some pgb → id pga = id pgb → a = b.

Lemma sub_tree_loop_complete h r0 fuel queue d res :
  distinct_ids h r0 →
  sub_tree_loop fuel h queue d = Some res →
  Forall (reach h r0) queue → visited h r0 d →
  (∀ v c, v ∈ Py.values d → child h v c → c ∈ Py.values d ∨ c ∈ queue) →
  (∀ v, v ∈ Py.values d → v ∈ Py.values res) ∧
  (∀ v c, v ∈ Py.values res → child h v c → c ∈ Py.values res).
Proof.
  intros Hinj. revert queue d. induction fuel as [|fuel IH]; intros queue d Hrun Hq Hv Hcl.
  - destruct queue; simpl in Hrun; [|done]. injection Hrun as <-.
    split; [done|]. intros v c Hin Hch.
    destruct (Hcl v c Hin Hch) as [?|Hc]; [done | by inversion Hc].
  - destruct queue as [|c q]; simpl in Hrun.
    { injection Hrun as <-. split; [done|]. intros v c Hin Hch.
      destruct (Hcl v c Hin Hch) as [?|Hc]; [done | by inversion Hc]. }
    apply Forall_cons in Hq as [Hc Hq].
    destruct (h !! c) as [pg|] eqn:Hpg; [|done]. simpl in Hrun.
    destruct (Py.contains (id pg) d) eqn:Hin.
    + assert (Hcin : c ∈ Py.values d).
      { destruct (contains_get _ _ Hin) as [r Hr].
        destruct (visited_entries _ _ _ Hv _ _ (get_Some_elem_of _ _ _ Hr))
          as (pgr & Hpgr & Hid).
        pose proof (get_Some_values _ _ _ Hr) as Hrin.
        assert (r = c) as <-; [|done].
        eapply Hinj; [| exact Hc | exact Hpgr | exact Hpg | exact Hid].
        eapply Forall_forall; [apply (visited_reach _ _ _ Hv) | done]. }
      eapply IH; [exact Hrun | done | done |].
      intros v x Hvin Hch. destruct (Hcl v x Hvin Hch) as [?|Hx]; [by left|].
      apply elem_of_cons in Hx as [->|Hx]; [by left | by right].
    + pose proof (visited_add _ _ _ _ _ Hv Hc Hpg Hin) as Hv'.
      assert (Hvals : Py.values (Py.set (id pg) c d) = Py.values d ++ [c]).
      { apply values_set_notin. by apply contains_false. }
      destruct (IH _ _ Hrun) as [Hsub Hclosed]; [| done | | ].
      * apply Forall_app. split; [done|]. apply Forall_forall. intros x Hx.
        eapply rtc_r; [exact Hc|]. by exists pg.
      * intros v x. rewrite Hvals, !elem_of_app, !list_elem_of_singleton.
        intros [Hvin| ->] Hch.
        -- destruct (Hcl v x Hvin Hch) as [?|Hx]; [by left; left|].
           apply elem_of_cons in Hx as [->|Hx]; [left; by right | right; by left].
        -- right. right. destruct Hch as (pg' & Hpg' & Hx).
           rewrite Hpg in Hpg'. by injection Hpg' as <-.
      * split; [|done]. intros v Hvin. apply Hsub. rewrite Hvals.
        apply elem_of_app. by left.
Qed.

End sub_tree.

Section sub_tree_theorem.
Import client.
Local Open Scope nat_scope.
#[local] Arguments sub_tree_loop : simpl never.
#[local] Arguments sub_tree_fuel : simpl never.

Lemma entries_values_NoDup h (d : Py.dict LibraryPageId ref) :
  entries_ok h d → NoDup (Py.keys d) → NoDup (Py.values d).
Proof.
  induction d as [|[k r] d IH]; intros He Hk; [apply NoDup_nil_2|].
  unfold Py.keys, Py.values in *. simpl in *.
  apply NoDup_cons in Hk as [Hnin Hk]. apply NoDup_cons. split.
  - intros ([k' r'] & -> & Hin)%list_elem_of_fmap. simpl in *. apply Hnin.
    destruct (He k r' (list_elem_of_here _ _)) as (pg & Hpg & <-).
    destruct (He k' r' (list_elem_of_further _ _ _ Hin)) as (pg' & Hpg' & <-).
    rewrite Hpg in Hpg'. injection Hpg' as <-.
    apply list_elem_of_fmap. by exists (id pg, r').
  - apply IH; [|done]. intros k' r' Hin. by apply He, list_elem_of_further.
Qed.

(** [sub_tree] returns on every closed heap, and the loop's invariant holds
    of the pages of the tree it returns. *)
Lemma sub_tree_result (h : heap) (self : LibraryTree)
    (subroot_id : LibraryPageId) (new_root : ref) :
  closed h →
  Py.get subroot_id (pages self) = Some new_root →
  new_root < length h →
  ∃ tree,
    sub_tree h self subroot_id = Some (Ok tree) ∧
    root tree = new_root ∧
    visited h new_root (pages tree) ∧
    (distinct_ids h new_root → ∀ r, reach h new_root r → r ∈ Py.values (pages tree)).
Proof.
  intros Hcl Hget Hlt. unfold sub_tree. rewrite Hget.
  destruct (lookup_lt_is_Some_2 h new_root Hlt) as [pg Hpg]. rewrite Hpg. simpl.
  assert (Hq : Forall (λ c, c < length h) (children pg)).
  { apply Forall_forall. intros c Hc. apply (closed_child h new_root c Hcl). by exists pg. }
  assert (Hqr : Forall (reach h new_root) (children pg)).
  { apply Forall_forall. intros c Hc. apply rtc_once. by exists pg. }
  assert (Hv0 : visited h new_root [(id pg, new_root)]).
  { split.
    - apply NoDup_singleton.
    - intros k r [= -> ->]%list_elem_of_singleton. by eauto.
    - apply Forall_singleton. apply rtc_refl.
    - done. }
  destruct (sub_tree_loop_fuel h (sub_tree_fuel h) (children pg) [(id pg, new_root)])
    as [res Hres]; [done | done | |].
  { unfold sub_tree_fuel.
    pose proof (pending_first h new_root pg [(id pg, new_root)] Hpg) as Hp.
    unfold Py.contains in Hp. simpl in Hp. rewrite decide_True in Hp by done.
    specialize (Hp eq_refl). lia. }
  rewrite Hres. simpl. eexists. split; [done|]. simpl.
  pose proof (sub_tree_loop_sound _ _ _ _ _ _ Hres Hqr Hv0) as Hv.
  split_and!; [done | done |].
  intros Hinj.
  destruct (sub_tree_loop_complete _ _ _ _ _ _ Hinj Hres Hqr Hv0) as [Hsub Hclosed].
  { intros v c [= ->]%list_elem_of_singleton (pg' & Hpg' & Hc).
    right. rewrite Hpg in Hpg'. by injection Hpg' as <-. }
  apply (rtc_ind_r (R := child h) (λ r, r ∈ Py.values res) new_root).
  - apply Hsub. apply list_elem_of_here.
  - intros y z _ Hyz Hy. by eapply Hclosed.
Qed.

(** C6 (as amended). For an id of the pages map, [sub_tree] returns, on
    every heap: cycles among the children links and repeated ids do not keep
    it from ending. The pages of the result have distinct keys and are
    distinct pages, each stored under its id and reachable from the new root
    through children. When the pages reachable from the new root have
    distinct ids, every one of them is in the result. *)
Theorem sub_tree_pages (h : heap) (self : LibraryTree)
    (subroot_id : LibraryPageId) (new_root : ref) :
  closed h →
  Py.get subroot_id (pages self) = Some new_root →
  new_root < length h →
  ∃ tree,
    sub_tree h self subroot_id = Some (Ok tree) ∧
    root tree = new_root ∧
    NoDup (Py.keys (pages tree)) ∧
    NoDup (Py.values (pages tree)) ∧
    entries_ok h (pages tree) ∧
    (∀ r, r ∈ Py.values (pages tree) → reach h new_root r) ∧
    (distinct_ids h new_root → ∀ r, reach h new_root r → r ∈ Py.values (pages tree)).
Proof.
  intros Hcl Hget Hlt.
  destruct (sub_tree_result h self subroot_id new_root Hcl Hget Hlt)
    as (tree & Hrun & Hroot & [Hk He Hr Hh] & Hall).
  exists tree.
  split_and!; [done | done | done | by apply (entries_values_NoDup h) | done | | done].
  intros r Hin. eapply Forall_forall; [exact Hr | done].
Qed.

(** A response in which two sibling pages carry the id "2"; the second has
    a subpage. *)
Definition repeated_id_response : page_node :=
  PageNode "1" "Home" ""
    (PageList
       (PCons (PageNode "2" "Chapter A" "Chapter_A" NoSubpages)
       (PCons (PageNode "2" "Chapter B" "Chapter_B"
                 (OnePage (PageNode "3" "Section" "Chapter_B/Section" NoSubpages)))
        PNil))).

(** C6, counterexample. In the tree built from that response, the page
    "Section" (at address 3) is reachable from the root through children,
    and [sub_tree] of the root's id leaves it out: the second page with the
    id "2" is skipped by the safe-guard, and its children with it. *)
Lemma sub_tree_misses_reachable_page :
  let h := (get_page_tree repeated_id_response).1 in
  let tree := (get_page_tree repeated_id_response).2 in
  Py.get "1" (pages tree) = Some 0 ∧
  (path <$> h !! 3) = Some "Chapter_B/Section" ∧
  reach h 0 3 ∧
  ∃ sub, sub_tree h tree "1" = Some (Ok sub) ∧
         Py.values (pages sub) = [0; 1] ∧
         3 ∉ Py.values (pages sub).
Proof.
  split_and!; [reflexivity | reflexivity | |].
  - eapply rtc_l; [|apply rtc_once].
    + eexists. split; [reflexivity|]. simpl. apply list_elem_of_further, list_elem_of_here.
    + eexists. split; [reflexivity|]. simpl. apply list_elem_of_here.
  - eexists. split; [reflexivity|]. split; [reflexivity|].
    simpl. intros Hin. repeat (apply elem_of_cons in Hin as [Hin|Hin]; [discriminate|]).
    inversion Hin.
Qed.

End sub_tree_theorem.

(* ------------------------------------------------------------------------- *)
(** ** The trees [get_page_tree] builds *)
(* ------------------------------------------------------------------------- *)

Section built_trees.
Import client.
Local Open Scope nat_scope.

Scheme page_node_mut := Induction for page_node Sort Prop
  with subpages_mut := Induction for subpages_t Sort Prop
  with page_nodes_mut := Induction for page_nodes Sort Prop.

(** The ids of a node and of the nodes below it, in the order in which
    [get_page_tree] meets them. *)
Fixpoint node_ids (n : page_node) : list LibraryPageId :=
  match n with
  | PageNode node_id _ _ s => node_id :: subpages_ids s
  end
with subpages_ids (s : subpages_t) : list LibraryPageId :=
  match s with
  | NoSubpages => []
  | OnePage sub => node_ids sub
  | PageList subs => nodes_ids subs
  end
with nodes_ids (subs : page_nodes) : list LibraryPageId :=
  match subs with
  | PNil => []
  | PCons sub rest => node_ids sub ++ nodes_ids rest
  end.

Definition node_id_of (n : page_node) : LibraryPageId :=
  match n with PageNode node_id _ _ _ => node_id end.

(** The body of [_process_tree_data], on the [subpages] of the node. *)
Definition process_subs (s : subpages_t) (parent : ref) (b : build) : build :=
  match s with
  | NoSubpages => b
  | OnePage sub =>
      let '(page, b) := _add_page sub parent b in _process_tree_data sub page b
  | PageList subs => _process_subpages subs parent b
  end.

Lemma _process_tree_data_eq n parent b :
  _process_tree_data n parent b = process_subs (node_subpages n) parent b.
Proof. by destruct n. Qed.

(** The links of a built heap: the page at address 0 has no parent, every
    other page has its parent at a smaller address, and the children of a
    page are pages that have it as their parent. *)
Record built (h : heap) : Prop := {
  built_root : ∃ pg, h !! 0 = Some pg;
  built_parent : ∀ i pg, h !! i = Some pg →
    match parent pg with None => i = 0 | Some p => p < i end;
  built_children : ∀ i pg c, h !! i = Some pg → c ∈ children pg →
    ∃ pgc, h !! c = Some pgc ∧ parent pgc = Some i
}.

Definition with_child (pg : LibraryPage) (c : ref) : LibraryPage :=
  mkPage (id pg) (title pg) (path pg) (parent pg) (children pg ++ [c]).

Lemma add_page_lookup (h : heap) parent pgp new i :
  h !! parent = Some pgp →
  append_child parent (length h) (h ++ [new]) !! i =
    if decide (i = parent) then Some (with_child pgp (length h))
    else if decide (i = length h) then Some new
    else h !! i.
Proof.
  intros Hp. pose proof (lookup_lt_Some _ _ _ Hp) as Hlt.
  unfold append_child. rewrite lookup_app_l, Hp by done.
  destruct (decide (i = parent)) as [->|Hne].
  - rewrite list_lookup_insert_eq; [done|]. rewrite length_app. simpl. lia.
  - rewrite list_lookup_insert_ne by done.
    destruct (decide (i = length h)) as [->|Hne'].
    + by rewrite lookup_app_r, Nat.sub_diag by lia.
    + destruct (decide (i < length h)).
      * by rewrite lookup_app_l.
      * rewrite !lookup_ge_None_2; [done | lia | rewrite length_app; simpl; lia].
Qed.

Lemma add_page_length (h : heap) parent new :
  length (append_child parent (length h) (h ++ [new])) = S (length h).
Proof.
  unfold append_child. destruct ((h ++ [new]) !! parent);
    rewrite ?length_insert, length_app; simpl; lia.
Qed.

(** The pages of [h] are still in [h']: at the same address, with the same
    id, title, path and parent. *)
Definition extends (h h' : heap) : Prop :=
  ∀ i pg, h !! i = Some pg →
    ∃ pg', h' !! i = Some pg' ∧ id pg' = id pg ∧ title pg' = title pg ∧
           path pg' = path pg ∧ parent pg' = parent pg.

Lemma extends_refl h : extends h h.
Proof. intros i pg Hpg. by exists pg. Qed.

Lemma extends_trans h1 h2 h3 : extends h1 h2 → extends h2 h3 → extends h1 h3.
Proof.
  intros H12 H23 i pg Hpg.
  destruct (H12 _ _ Hpg) as (pg2 & Hpg2 & ? & ? & ? & ?).
  destruct (H23 _ _ Hpg2) as (pg3 & Hpg3 & ? & ? & ? & ?).
  exists pg3. split_and!; congruence.
Qed.

Lemma extends_length h h' : extends h h' → length h ≤ length h'.
Proof.
  intros Hext. destruct (decide (length h ≤ length h')) as [|Hgt]; [done|].
  assert (Hlt : length h' < length h) by lia.
  destruct (lookup_lt_is_Some_2 h (length h') Hlt) as [pg Hpg].
  destruct (Hext _ _ Hpg) as (pg' & Hpg' & _).
  apply lookup_lt_Some in Hpg'. lia.
Qed.

Lemma entries_ok_extends h h' (d : Py.dict LibraryPageId ref) :
  extends h h' → entries_ok h d → entries_ok h' d.
Proof.
  intros Hext He k r Hin. destruct (He k r Hin) as (pg & Hpg & Hid).
  destruct (Hext _ _ Hpg) as (pg' & Hpg' & Hid' & _). exists pg'. split; congruence.
Qed.

Lemma entries_ok_set h (d : Py.dict LibraryPageId ref) r pg :
  entries_ok h d → h !! r = Some pg → entries_ok h (Py.set (id pg) r d).
Proof.
  intros He Hpg. induction d as [|[k0 r0] d IH]; simpl.
  - intros k r' [= -> ->]%list_elem_of_singleton. by eauto.
  - assert (He' : entries_ok h d).
    { intros k r' Hin. by apply He, list_elem_of_further. }
    destruct (decide (k0 = id pg)) as [->|Hne].
    + intros k r' [[= -> ->]|Hin]%elem_of_cons; [by eauto | by apply He'].
    + intros k r' [[= -> ->]|Hin]%elem_of_cons.
      * apply He, list_elem_of_here.
      * by apply IH.
Qed.

(** What [get_page_tree] keeps true of the heap and of [tree_obj.pages]. *)
Definition build_ok (b : build) : Prop := built b.1 ∧ entries_ok b.1 b.2.

Lemma _add_page_ok n par b :
  build_ok b → par < length b.1 →
  build_ok (_add_page n par b).2 ∧
  extends b.1 (_add_page n par b).2.1 ∧
  (_add_page n par b).1 = length b.1 ∧
  length (_add_page n par b).2.1 = S (length b.1) ∧
  (_add_page n par b).2.2 = Py.set (node_id_of n) (length b.1) b.2.
Proof.
  destruct b as [h d]. destruct n as [nid nt np s]. simpl.
  intros [[Hroot Hpar Hch] He] Hlt.
  destruct (lookup_lt_is_Some_2 h par Hlt) as [pgp Hpgp].
  set (new := mkPage nid nt np (Some par) []).
  set (h' := append_child par (length h) (h ++ [new])).
  assert (Hlook : ∀ i, h' !! i =
    if decide (i = par) then Some (with_child pgp (length h))
    else if decide (i = length h) then Some new else h !! i)
    by (intros i; by apply add_page_lookup).
  assert (Hext : extends h h').
  { intros i pg Hpg. rewrite Hlook. pose proof (lookup_lt_Some _ _ _ Hpg).
    destruct (decide (i = par)) as [->|_].
    - rewrite Hpgp in Hpg. injection Hpg as <-. by eexists.
    - rewrite decide_False by lia. by exists pg. }
  assert (Hnew : h' !! length h = Some new).
  { rewrite Hlook, decide_False by lia. by rewrite decide_True. }
  split_and!; [split; [split|] | done | done | apply add_page_length | done].
  - destruct Hroot as [pg0 Hpg0]. destruct (Hext _ _ Hpg0) as (pg' & Hpg' & _). by eauto.
  - intros i pg. rewrite Hlook.
    destruct (decide (i = par)) as [->|_]; [|destruct (decide (i = length h)) as [->|_]].
    + intros [= <-]. simpl. by apply (Hpar par pgp).
    + intros [= <-]. simpl. done.
    + apply Hpar.
  - assert (Hold : ∀ i pg c, h !! i = Some pg → c ∈ children pg →
              ∃ pgc, h' !! c = Some pgc ∧ parent pgc = Some i).
    { intros i pg c Hpg Hc. destruct (Hch _ _ _ Hpg Hc) as (pgc & Hpgc & Hp).
      destruct (Hext _ _ Hpgc) as (pgc' & Hpgc' & _ & _ & _ & Hp'). exists pgc'.
      split; congruence. }
    intros i pg c. rewrite Hlook.
    destruct (decide (i = par)) as [->|_]; [|destruct (decide (i = length h)) as [->|_]].
    + intros [= <-]. simpl. intros [Hc| ->%list_elem_of_singleton]%elem_of_app.
      * by eapply Hold.
      * by exists new.
    + intros [= <-]. simpl. by inversion 1.
    + apply Hold.
  - simpl. apply (entries_ok_set h' d (length h) new); [|done].
    by eapply entries_ok_extends.
Qed.

End built_trees.

Section built_trees_induction.
Import client.
Local Open Scope nat_scope.

Combined Scheme page_tree_mutind from page_node_mut, subpages_mut, page_nodes_mut.

(** The first entry of the map is the root, under the id [k0]. *)
Definition root_first (k0 : LibraryPageId) (d : Py.dict LibraryPageId ref) : Prop :=
  ∃ d', d = (k0, 0) :: d'.

Lemma root_first_set k0 k v d :
  k ≠ k0 → root_first k0 d → root_first k0 (Py.set k v d).
Proof.
  intros Hne [d' ->]. simpl. rewrite decide_False by done. by eexists.
Qed.

(** What a step of the construction gives, from [b] to [b']. *)
Definition step_ok (k0 : LibraryPageId) (ids : list LibraryPageId) (b b' : build) : Prop :=
  build_ok b' ∧ extends b.1 b'.1 ∧
  (k0 ∉ ids → root_first k0 b.2 → root_first k0 b'.2).

Lemma step_ok_trans k0 ids1 ids2 b1 b2 b3 :
  step_ok k0 ids1 b1 b2 → step_ok k0 ids2 b2 b3 →
  step_ok k0 (ids1 ++ ids2) b1 b3.
Proof.
  intros (Hok2 & Hext12 & Hf12) (Hok3 & Hext23 & Hf23).
  split_and!; [done | by eapply extends_trans |].
  intros [Hn1 Hn2]%not_elem_of_app Hf. by apply Hf23, Hf12.
Qed.

Lemma _add_page_step k0 n par b :
  build_ok b → par < length b.1 →
  step_ok k0 [node_id_of n] b (_add_page n par b).2.
Proof.
  intros Hok Hlt.
  destruct (_add_page_ok n par b Hok Hlt) as (Hok' & Hext & _ & _ & Hd).
  split_and!; [done | done |].
  intros Hn Hf. rewrite Hd. apply root_first_set; [|done].
  intros Heq. apply Hn. rewrite Heq. apply list_elem_of_here.
Qed.

Lemma process_ok k0 :
  (∀ n par b, build_ok b → par < length b.1 →
     step_ok k0 (node_ids n) b
       (_process_tree_data n (_add_page n par b).1 (_add_page n par b).2)) ∧
  (∀ s par b, build_ok b → par < length b.1 →
     step_ok k0 (subpages_ids s) b (process_subs s par b)) ∧
  (∀ subs par b, build_ok b → par < length b.1 →
     step_ok k0 (nodes_ids subs) b (_process_subpages subs par b)).
Proof.
  apply page_tree_mutind.
  - intros nid nt np s IH par b Hok Hlt.
    pose proof (_add_page_step k0 (PageNode nid nt np s) par b Hok Hlt) as Hstep.
    destruct (_add_page_ok (PageNode nid nt np s) par b Hok Hlt)
      as (Hok' & _ & Hpage & Hlen & _).
    rewrite _process_tree_data_eq.
    change (node_ids (PageNode nid nt np s)) with ([nid] ++ subpages_ids s).
    eapply step_ok_trans; [exact Hstep|].
    apply IH; [done|]. rewrite Hpage, Hlen. lia.
  - intros par b Hok _. split_and!; [done | apply extends_refl | done].
  - intros sub IH par b Hok Hlt. simpl.
    specialize (IH par b Hok Hlt). by destruct (_add_page sub par b).
  - intros subs IH par b Hok Hlt. by apply IH.
  - intros par b Hok _. split_and!; [done | apply extends_refl | done].
  - intros sub IHsub rest IHrest par b Hok Hlt. simpl.
    specialize (IHsub par b Hok Hlt).
    destruct (_add_page sub par b) as [page b1]. simpl in IHsub.
    eapply step_ok_trans; [exact IHsub|].
    apply IHrest; [apply IHsub|].
    destruct IHsub as (_ & Hext & _). apply extends_length in Hext. lia.
Qed.

(** The tree of a response: its heap is built, its map holds pages under
    their ids, the root is at address 0; and the root is the first entry of
    the map when no page below it repeats its id. *)
Lemma get_page_tree_ok (tree_data_page : page_node) :
  let h := (get_page_tree tree_data_page).1 in
  let tree := (get_page_tree tree_data_page).2 in
  built h ∧ entries_ok h (pages tree) ∧ root tree = 0 ∧
  (node_id_of tree_data_page ∉ subpages_ids (node_subpages tree_data_page) →
   head (Py.values (pages tree)) = Some 0).
Proof.
  destruct tree_data_page as [nid nt np s].
  set (b0 := ([mkPage nid nt np None []], [(nid, 0)]) : build).
  assert (Heq : get_page_tree (PageNode nid nt np s) =
                ((process_subs s 0 b0).1, mkTree 0 (process_subs s 0 b0).2))
    by reflexivity.
  rewrite Heq. clear Heq. cbn [fst snd pages root node_id_of node_subpages].
  assert (Hok0 : build_ok b0).
  { split; [split|]; simpl.
    - by eexists.
    - intros [|i] pg; [by intros [= <-]|done].
    - intros [|i] pg c; [intros [= <-]; by inversion 1|done].
    - intros k r [= -> ->]%list_elem_of_singleton. by eexists. }
  destruct (process_ok nid) as (_ & Hsubs & _).
  destruct (Hsubs s 0 b0 Hok0) as ([Hb He] & _ & Hf); [simpl; lia|].
  split_and!; [done | done | done |].
  intros Hn. destruct (Hf Hn) as [d' ->]; [by exists []|done].
Qed.

End built_trees_induction.

(* ------------------------------------------------------------------------- *)
(** ** [self_and_parents] on built trees *)
(* ------------------------------------------------------------------------- *)

Section parents.
Import client.
Local Open Scope nat_scope.

Lemma parents_walk_unfold fuel h current :
  parents_walk fuel h current =
    pg ← h !! current;
    match parent pg with
    | None => Some []
    | Some p =>
        match fuel with
        | O => None
        | S fuel' => rest ← parents_walk fuel' h p; Some (p :: rest)
        end
    end.
Proof. by destruct fuel. Qed.

(** On a built heap the walk ends at the root, within as many steps as the
    address it starts from. *)
Lemma parents_walk_built h fuel i :
  built h → i < length h → i ≤ fuel →
  ∃ l, parents_walk fuel h i = Some l ∧ 0 ∈ i :: l ∧
       Forall (λ a, a < length h) l.
Proof.
  intros Hb. revert i. induction fuel as [|fuel IH]; intros i Hi Hfuel;
    rewrite parents_walk_unfold;
    destruct (lookup_lt_is_Some_2 h i Hi) as [pg Hpg]; rewrite Hpg; simpl;
    pose proof (built_parent h Hb i pg Hpg) as Hp;
    destruct (parent pg) as [p|] eqn:Hpar.
  - lia.
  - subst i. exists []. split_and!; [done | apply list_elem_of_here | done].
  - destruct (IH p) as (l & Hl & H0 & Hall); [lia | lia |].
    rewrite Hl. simpl. exists (p :: l).
    split_and!; [done | by apply list_elem_of_further |].
    apply Forall_cons. split; [lia | done].
  - subst i. exists []. split_and!; [done | apply list_elem_of_here | done].
Qed.

Lemma self_and_parents_built h i :
  built h → i < length h →
  ∃ chain, self_and_parents h i = Some chain ∧ 0 ∈ chain ∧ i ∈ chain ∧
           Forall (λ a, a < length h) chain.
Proof.
  intros Hb Hi. unfold self_and_parents.
  destruct (parents_walk_built h (length h) i Hb Hi) as (l & Hl & H0 & Hall); [lia|].
  rewrite Hl. simpl. exists (i :: l).
  split_and!; [done | done | apply list_elem_of_here |].
  apply Forall_cons. by split.
Qed.

Lemma parents_walk_more_fuel h fuel fuel' i l :
  parents_walk fuel h i = Some l → fuel ≤ fuel' → parents_walk fuel' h i = Some l.
Proof.
  revert fuel' i l. induction fuel as [|fuel IH]; intros fuel' i l;
    rewrite !(parents_walk_unfold _ h i);
    destruct (h !! i) as [pg|]; simpl; try done;
    destruct (parent pg) as [p|]; try done.
  intros Hrun Hle. destruct fuel' as [|fuel'']; [lia|].
  destruct (parents_walk fuel h p) as [rest|] eqn:Hrest; [|done].
  rewrite (IH fuel'' p rest Hrest) by lia. done.
Qed.

(** A page that is reachable from [a] through children has [a] among its
    [self_and_parents]. *)
Lemma reach_self_and_parents h a b chain :
  built h → reach h a b → self_and_parents h b = Some chain → a ∈ chain.
Proof.
  intros Hb Hreach. revert chain.
  apply (rtc_ind_r (R := child h)
           (λ b, ∀ chain, self_and_parents h b = Some chain → a ∈ chain) a);
    [| | exact Hreach].
  - intros chain. unfold self_and_parents.
    destruct (parents_walk _ h a); [|done]. intros [= <-]. apply list_elem_of_here.
  - intros y z _ (pgy & Hpgy & Hz) IH chain.
    destruct (built_children h Hb y pgy z Hpgy Hz) as (pgz & Hpgz & Hpar).
    unfold self_and_parents. rewrite parents_walk_unfold, Hpgz. simpl. rewrite Hpar.
    destruct (length h) as [|n] eqn:Hlen; [done|].
    destruct (parents_walk n h y) as [rest|] eqn:Hrest; [|done]. simpl.
    intros [= <-]. apply list_elem_of_further. apply IH.
    unfold self_and_parents. rewrite Hlen.
    rewrite (parents_walk_more_fuel h n (S n) y rest Hrest) by lia. done.
Qed.

Lemma built_closed h : built h → closed h.
Proof.
  intros Hb. apply Forall_forall. intros pg Hpg.
  apply list_elem_of_lookup in Hpg as [i Hi].
  apply Forall_forall. intros c Hc.
  destruct (built_children h Hb i pg c Hi Hc) as (pgc & Hpgc & _).
  by eapply lookup_lt_Some.
Qed.

End parents.

(* ------------------------------------------------------------------------- *)
(** ** [ContentFilter.filter] *)
(* ------------------------------------------------------------------------- *)

Section content_filter_facts.
Import client content_filter.
Context `{!Regex}.
Local Open Scope nat_scope.

(** [page.id] of the page at an address. *)
Definition id_at (h : heap) (r : ref) : option LibraryPageId := id <$> h !! r.

(** The page matches the user's choices: its title matches the include
    pattern if one is given, and its id is in the include list if one is
    given, and its title does not match the exclude pattern if one is
    given. *)
Definition matches (cf : ContentFilter) (pg : LibraryPage) : Prop :=
  (∀ re, compile_if (page_title_include cf) = Ok (Some re) →
         re_search re (title pg) = true) ∧
  (∀ l, id_include_of (page_id_include cf) = Some l → id pg ∈ l) ∧
  (∀ re, compile_if (page_title_exclude cf) = Ok (Some re) →
         re_search re (title pg) = false).

(** The two patterns compiled, in the order of [filter]; [re.error] when one
    of them does not compile. *)
Definition patterns (cf : ContentFilter) : result (option string * option string) :=
  title_include_re ← compile_if (page_title_include cf);
  title_exclude_re ← compile_if (page_title_exclude cf);
  mret (title_include_re, title_exclude_re).

Lemma compile_if_raises s e : compile_if s = Raise e → e = Py.ReError.
Proof.
  unfold compile_if. destruct (Py.truthy s); [|done].
  destruct (re_compiles (default "" s)); [done | by intros [= <-]].
Qed.

Lemma patterns_raises cf e : patterns cf = Raise e → e = Py.ReError.
Proof.
  unfold patterns.
  destruct (compile_if (page_title_include cf)) as [ti|e1] eqn:Hi; simpl.
  - destruct (compile_if (page_title_exclude cf)) as [te|e2] eqn:He; simpl; [done|].
    intros [= <-]. by eapply compile_if_raises.
  - intros [= <-]. by eapply compile_if_raises.
Qed.

Lemma split_nonempty sep s : pystr.split sep s ≠ [].
Proof.
  destruct s as [|c s]; simpl; [done|].
  destruct (Ascii.eqb c sep); [done|]. by destruct (pystr.split sep s).
Qed.

Lemma is_selected_matches cf ti te pg :
  patterns cf = Ok (ti, te) →
  is_selected ti te (id_include_of (page_id_include cf)) pg = true
  ↔ matches cf pg.
Proof.
  unfold patterns, is_selected, matches.
  destruct (compile_if (page_title_include cf)) as [ti'|]; simpl; [|done].
  destruct (compile_if (page_title_exclude cf)) as [te'|]; simpl; [|done].
  intros [= -> ->].
  assert (Hl : id_include_of (page_id_include cf) ≠ Some []).
  { unfold id_include_of. destruct (Py.truthy _); [|done].
    pose proof (split_nonempty "," (default "" (page_id_include cf))).
    by destruct (pystr.split _ _). }
  rewrite !andb_true_iff.
  assert (Hti : ∀ o : option string,
    match o with None => true | Some re => re_search re (title pg) end = true
    ↔ ∀ re, Ok o = Ok (Some re) → re_search re (title pg) = true).
  { intros [re|]; split; [by intros ? ? [= <-] | by eauto | done | done]. }
  assert (Hte : ∀ o : option string,
    match o with None => true | Some re => negb (re_search re (title pg)) end = true
    ↔ ∀ re, Ok o = Ok (Some re) → re_search re (title pg) = false).
  { intros [re|]; rewrite ?negb_true_iff;
      split; [by intros ? ? [= <-] | by eauto | done | done]. }
  rewrite Hti, Hte.
  assert (Hii : match id_include_of (page_id_include cf) with
                | None | Some [] => true
                | Some l => pystr.mem (id pg) l
                end = true
                ↔ ∀ l, id_include_of (page_id_include cf) = Some l → id pg ∈ l).
  { destruct (id_include_of (page_id_include cf)) as [[|x l]|]; [done | | done].
    unfold pystr.mem. rewrite bool_decide_eq_true.
    split; [by intros ? ? [= <-] | by eauto]. }
  rewrite Hii. split; [intros [[? ?] ?] | intros (? & ? & ?)]; by split_and!.
Qed.

Lemma ids_of_valid h l :
  Forall (λ a, a < length h) l →
  ∃ ids, ids_of h l = Some ids ∧ ∀ k, k ∈ ids ↔ ∃ a, a ∈ l ∧ id_at h a = Some k.
Proof.
  unfold ids_of, id_at. induction l as [|a l IH]; intros Hall.
  - exists []. split; [done|]. intros k. split; [by inversion 1|].
    intros (a & Ha & _). by inversion Ha.
  - apply Forall_cons in Hall as [Ha Hall]. destruct (IH Hall) as (ids & Hids & Hk).
    destruct (lookup_lt_is_Some_2 h a Ha) as [pg Hpg].
    exists (id pg :: ids). split.
    + simpl. rewrite Hpg. simpl. rewrite Hids. done.
    + intros k. rewrite elem_of_cons, Hk. split.
      * intros [->|(a' & Ha' & Hid)].
        -- exists a. split; [apply list_elem_of_here|]. by rewrite Hpg.
        -- exists a'. split; [by apply list_elem_of_further | done].
      * intros (a' & [->|Ha']%elem_of_cons & Hid).
        -- left. rewrite Hpg in Hid. by injection Hid as <-.
        -- right. by exists a'.
Qed.

(** The id [k] is selected: it is the id of a page among the
    [self_and_parents] of a selected page of [values]. *)
Definition in_selection (h : heap) (sel : LibraryPage → bool) (values : list ref)
    (k : LibraryPageId) : Prop :=
  ∃ q pg chain a,
    q ∈ values ∧ h !! q = Some pg ∧ sel pg = true ∧
    self_and_parents h q = Some chain ∧ a ∈ chain ∧ id_at h a = Some k.

Lemma selected_ids_spec h ti te ii values :
  built h → Forall (λ a, a < length h) values →
  ∃ ids : gset LibraryPageId,
    selected_ids h ti te ii values = Some ids ∧
    ∀ k, k ∈ ids ↔ in_selection h (is_selected ti te ii) values k.
Proof.
  intros Hb. induction values as [|q values IH]; intros Hall.
  - exists ∅. split; [done|]. intros k. split; [by intros ?%not_elem_of_empty|].
    intros (q & ? & ? & ? & Hq & _). by inversion Hq.
  - apply Forall_cons in Hall as [Hq Hall]. destruct (IH Hall) as (rest & Hrest & Hk).
    destruct (lookup_lt_is_Some_2 h q Hq) as [pg Hpg].
    destruct (self_and_parents_built h q Hb Hq) as (chain & Hchain & _ & _ & Hvalid).
    destruct (ids_of_valid h chain Hvalid) as (ids & Hids & Hin).
    simpl. rewrite Hpg. simpl. rewrite Hchain. simpl. rewrite Hids. simpl.
    rewrite Hrest. simpl. eexists. split; [done|]. intros k.
    assert (Hrest_iff : k ∈ rest → in_selection h (is_selected ti te ii) (q :: values) k).
    { intros (q' & pg' & chain' & a & Hq' & ?)%Hk. exists q', pg', chain', a.
      split; [by apply list_elem_of_further | done]. }
    destruct (is_selected ti te ii pg) eqn:Hsel.
    + rewrite elem_of_union, elem_of_list_to_set, Hin. split.
      * intros [(a & Ha & Hid)|Hr]; [|by apply Hrest_iff].
        exists q, pg, chain, a. split_and!; try done. apply list_elem_of_here.
      * intros (q' & pg' & chain' & a & [->|Hq']%elem_of_cons & Hpg' & Hsel' & Hch' & Ha & Hid).
        -- left. exists a. rewrite Hchain in Hch'. by injection Hch' as <-.
        -- right. apply Hk. by exists q', pg', chain', a.
    + split; [done|].
      intros (q' & pg' & chain' & a & [->|Hq']%elem_of_cons & Hpg' & Hsel' & Hch' & Ha & Hid).
      * rewrite Hpg in Hpg'. injection Hpg' as <-. congruence.
      * apply Hk. by exists q', pg', chain', a.
Qed.

Lemma pages_with_id_in_spec h (ids : gset LibraryPageId) values :
  Forall (λ a, a < length h) values →
  ∃ l, pages_with_id_in h ids values = Some l ∧
       l `sublist_of` values ∧
       (∀ r, r ∈ l ↔ r ∈ values ∧ ∃ k, id_at h r = Some k ∧ k ∈ ids) ∧
       (∀ r0 k0, head values = Some r0 → id_at h r0 = Some k0 → k0 ∈ ids →
                 head l = Some r0).
Proof.
  unfold id_at. induction values as [|q values IH]; intros Hall.
  - exists []. split_and!; [done | done | | done].
    intros r. split; [by inversion 1 | by intros [Hr _]; inversion Hr].
  - apply Forall_cons in Hall as [Hq Hall].
    destruct (IH Hall) as (l & Hl & Hsub & Hmem & _).
    destruct (lookup_lt_is_Some_2 h q Hq) as [pg Hpg].
    simpl. rewrite Hpg. simpl. rewrite Hl. simpl. eexists. split; [done|].
    destruct (bool_decide (id pg ∈ ids)) eqn:Hin.
    + apply bool_decide_eq_true in Hin. split_and!.
      * by apply sublist_skip.
      * intros r. rewrite !elem_of_cons, Hmem. split.
        -- intros [->|[Hr Hk]]; [|by split; [right|]].
           split; [by left|]. exists (id pg). by rewrite Hpg.
        -- intros [[->|Hr] Hk]; [by left | right; by split].
      * by intros r0 k0 [= <-] _ _.
    + apply bool_decide_eq_false in Hin. split_and!.
      * by apply sublist_cons.
      * intros r. rewrite elem_of_cons, Hmem. split.
        -- intros [Hr Hk]. split; [by right | done].
        -- intros [[->|Hr] (k & Hk & Hki)]; [|split; [done | by exists k]].
           rewrite Hpg in Hk. injection Hk as <-. done.
      * intros r0 k0 [= <-]. rewrite Hpg. intros [= <-]. done.
Qed.

End content_filter_facts.

Section content_filter_theorems.
Import client content_filter.
Context `{!Regex}.
Local Open Scope nat_scope.

(** The part of [filter] that follows the choice of the tree. *)
Definition select (cf : ContentFilter) (h : heap) (page_tree : LibraryTree)
  : option (result (list ref)) :=
  match patterns cf with
  | Raise e => Some (Raise e)
  | Ok (title_include_re, title_exclude_re) =>
      ids ← selected_ids h title_include_re title_exclude_re
              (id_include_of (page_id_include cf)) (Py.values (pages page_tree));
      res ← pages_with_id_in h ids (Py.values (pages page_tree));
      Some (Ok res)
  end.

Lemma filter_select cf h tree :
  filter cf h tree =
    match effective_tree cf h tree with
    | Some (Ok page_tree) => select cf h page_tree
    | Some (Raise e) => Some (Raise e)
    | None => None
    end.
Proof.
  unfold filter, select, patterns.
  destruct (effective_tree cf h tree) as [[page_tree|]|]; simpl; [|done..].
  destruct (compile_if (page_title_include cf)); simpl; [|done].
  by destruct (compile_if (page_title_exclude cf)).
Qed.

(** The pages of the tree are pages of the heap, stored under their ids,
    and the root is among the [self_and_parents] of each. *)
Record rooted (h : heap) (page_tree : LibraryTree) : Prop := {
  rooted_entries : entries_ok h (pages page_tree);
  rooted_chain : ∀ r chain, r ∈ Py.values (pages page_tree) →
    self_and_parents h r = Some chain → root page_tree ∈ chain
}.

Lemma entries_ok_valid h (d : Py.dict LibraryPageId ref) :
  entries_ok h d → Forall (λ a, a < length h) (Py.values d).
Proof.
  intros He. apply Forall_forall. intros r ([k r'] & -> & Hin)%list_elem_of_fmap.
  destruct (He k r' Hin) as (pg & Hpg & _). by eapply lookup_lt_Some.
Qed.

(** The pages selected in a page tree. *)
Definition chosen (cf : ContentFilter) (h : heap) (page_tree : LibraryTree)
    (r : ref) : Prop :=
  r ∈ Py.values (pages page_tree) ∧
  ∃ q pgq chain a k,
    q ∈ Py.values (pages page_tree) ∧ h !! q = Some pgq ∧ matches cf pgq ∧
    self_and_parents h q = Some chain ∧ a ∈ chain ∧
    id_at h a = Some k ∧ id_at h r = Some k.

Lemma select_spec cf h page_tree :
  built h → rooted h page_tree →
  match patterns cf with
  | Ok _ =>
      ∃ l, select cf h page_tree = Some (Ok l) ∧
           l `sublist_of` Py.values (pages page_tree) ∧
           (∀ r, r ∈ l ↔ chosen cf h page_tree r) ∧
           (head (Py.values (pages page_tree)) = Some (root page_tree) →
            l ≠ [] → head l = Some (root page_tree))
  | Raise e => e = Py.ReError ∧ select cf h page_tree = Some (Raise Py.ReError)
  end.
Proof.
  intros Hb [He Hchain]. pose proof (entries_ok_valid h _ He) as Hvalid.
  unfold select.
  destruct (patterns cf) as [[ti te]|e] eqn:Hpat;
    [|apply patterns_raises in Hpat as ->; done].
  destruct (selected_ids_spec h ti te
              (id_include_of (page_id_include cf)) _ Hb Hvalid) as (ids & Hids & Hsel).
  destruct (pages_with_id_in_spec h ids _ Hvalid) as (l & Hl & Hsub & Hmem & Hhead).
  rewrite Hids. simpl. rewrite Hl. simpl. exists l.
  assert (Hchosen : ∀ r, r ∈ l ↔ chosen cf h page_tree r).
  { intros r. rewrite Hmem. unfold chosen. split.
    - intros [Hr (k & Hk & (q & pgq & chain & a & Hq & Hpgq & Hs & Hch & Ha & Hid)%Hsel)].
      split; [done|]. exists q, pgq, chain, a, k.
      split_and!; try done. by eapply is_selected_matches.
    - intros [Hr (q & pgq & chain & a & k & Hq & Hpgq & Hm & Hch & Ha & Hid & Hk)].
      split; [done|]. exists k. split; [done|]. apply Hsel.
      exists q, pgq, chain, a. split_and!; try done. by eapply is_selected_matches. }
  split_and!; [done | done | done |].
  intros Hfirst Hne. destruct l as [|r l']; [done|].
  destruct (proj1 (Hmem r) (list_elem_of_here _ _)) as [Hr (k & Hk & Hki)].
  apply Hsel in Hki as (q & pgq & chain & a & Hq & Hpgq & Hs & Hch & Ha & Hid).
  assert (Hroot : root page_tree ∈ Py.values (pages page_tree)).
  { destruct (Py.values (pages page_tree)); [done|]. injection Hfirst as ->.
    apply list_elem_of_here. }
  pose proof (proj1 (Forall_forall _ _) Hvalid _ Hroot) as Hrv. simpl in Hrv.
  destruct (lookup_lt_is_Some_2 h (root page_tree) Hrv) as [pg0 Hpg0].
  apply (Hhead (root page_tree) (id pg0)); [done | unfold id_at; by rewrite Hpg0 |].
  apply Hsel. exists q, pgq, chain, (root page_tree).
  split_and!; [done | done | done | done | exact (Hchain q chain Hq Hch) |].
  unfold id_at. by rewrite Hpg0.
Qed.

(** The tree [filter] works on, for a tree built by [get_page_tree]: the
    given tree, or the sub-tree of a page of its map; [KeyError] when
    [root_page_id] is not an id of the map. *)
Lemma effective_tree_rooted (tree_data_page : page_node) (cf : ContentFilter) :
  let h := (get_page_tree tree_data_page).1 in
  let tree := (get_page_tree tree_data_page).2 in
  match effective_tree cf h tree with
  | Some (Ok page_tree) =>
      built h ∧ rooted h page_tree ∧
      (node_id_of tree_data_page ∉ subpages_ids (node_subpages tree_data_page) →
       head (Py.values (pages page_tree)) = Some (root page_tree))
  | Some (Raise e) => e = Py.KeyError
  | None => False
  end.
Proof.
  pose proof (get_page_tree_ok tree_data_page) as Hok.
  destruct (get_page_tree tree_data_page) as [h tree]. cbn [fst snd] in *.
  destruct Hok as (Hb & He & Hroot & Hfirst).
  unfold effective_tree. destruct (Py.truthy (root_page_id cf)).
  - destruct (Py.get (default "" (root_page_id cf)) (pages tree)) as [new_root|] eqn:Hget.
    + destruct (He _ _ (get_Some_elem_of _ _ _ Hget)) as (pg & Hpg & _).
      destruct (sub_tree_result h tree _ new_root (built_closed h Hb) Hget
                  (lookup_lt_Some _ _ _ Hpg))
        as (sub & -> & Hr & [Hk Hes Hreach Hhead] & _).
      split_and!; [done | split; [done|] | by rewrite Hr].
      intros r chain Hin Hchain. rewrite Hr.
      eapply reach_self_and_parents; [done | | done].
      eapply Forall_forall; [exact Hreach | done].
    + unfold sub_tree. by rewrite Hget.
  - split_and!; [done | split; [done|] | by rewrite Hroot].
    intros r chain Hin Hchain. rewrite Hroot.
    pose proof (entries_ok_valid h _ He) as Hvalid.
    rewrite Forall_forall in Hvalid.
    destruct (self_and_parents_built h r Hb (Hvalid r Hin)) as (chain' & Hc' & H0 & _).
    rewrite Hchain in Hc'. by injection Hc' as <-.
Qed.

(** What [filter] computes on a tree built by [get_page_tree], when the
    patterns compile: the pages of the tree it works on (the given tree, or
    the sub-tree of [root_page_id]) whose id is the id of a page among the
    [self_and_parents] of a page of that tree that matches the include
    pattern, and the include list, and not the exclude pattern (each when
    given). When the result is not empty, the root of that tree is in it,
    provided no page below the root of the response repeats the root's id.
    [filter] raises [KeyError] when [root_page_id] is not an id of the tree,
    and [re.error] when a pattern does not compile. *)
Lemma filter_selection (tree_data_page : page_node) (cf : ContentFilter) :
  let h := (get_page_tree tree_data_page).1 in
  let tree := (get_page_tree tree_data_page).2 in
  match effective_tree cf h tree with
  | Some (Ok page_tree) =>
      match patterns cf with
      | Ok _ =>
          ∃ l, filter cf h tree = Some (Ok l) ∧
               (∀ r, r ∈ l ↔ chosen cf h page_tree r) ∧
               (node_id_of tree_data_page ∉ subpages_ids (node_subpages tree_data_page) →
                l ≠ [] → root page_tree ∈ l)
      | Raise e => e = Py.ReError ∧ filter cf h tree = Some (Raise Py.ReError)
      end
  | Some (Raise e) => e = Py.KeyError ∧ filter cf h tree = Some (Raise Py.KeyError)
  | None => False
  end.
Proof.
  pose proof (effective_tree_rooted tree_data_page cf) as Heff.
  destruct (get_page_tree tree_data_page) as [h tree]. cbn [fst snd] in *.
  rewrite filter_select.
  destruct (effective_tree cf h tree) as [[page_tree|e]|]; [| by subst e | done].
  destruct Heff as (Hb & Hrooted & Hfirst).
  pose proof (select_spec cf h page_tree Hb Hrooted) as Hsel.
  destruct (patterns cf) as [pats|e]; [|done].
  destruct Hsel as (l & Hl & _ & Hmem & Hhead).
  exists l. split_and!; [done | done |].
  intros Hn Hne. specialize (Hhead (Hfirst Hn) Hne).
  destruct l as [|r l']; [done|]. injection Hhead as ->. apply list_elem_of_here.
Qed.

(** On a tree built by [get_page_tree] in which no page below the root
    repeats the root's id, the list [filter] returns follows the order of
    the pages map of the tree it works on (the given tree, or the sub-tree
    of [root_page_id]), and when it is not empty its first element is the
    root of that tree. *)
Lemma filter_root_first (tree_data_page : page_node) (cf : ContentFilter) :
  let h := (get_page_tree tree_data_page).1 in
  let tree := (get_page_tree tree_data_page).2 in
  node_id_of tree_data_page ∉ subpages_ids (node_subpages tree_data_page) →
  match effective_tree cf h tree with
  | Some (Ok page_tree) =>
      match patterns cf with
      | Ok _ =>
          ∃ l, filter cf h tree = Some (Ok l) ∧
               l `sublist_of` Py.values (pages page_tree) ∧
               (l ≠ [] → head l = Some (root page_tree))
      | Raise e => filter cf h tree = Some (Raise e)
      end
  | Some (Raise e) => filter cf h tree = Some (Raise e)
  | None => False
  end.
Proof.
  pose proof (effective_tree_rooted tree_data_page cf) as Heff.
  destruct (get_page_tree tree_data_page) as [h tree]. cbn [fst snd] in *.
  intros Hn. rewrite filter_select.
  destruct (effective_tree cf h tree) as [[page_tree|e]|]; [| done | done].
  destruct Heff as (Hb & Hrooted & Hfirst).
  pose proof (select_spec cf h page_tree Hb Hrooted) as Hsel.
  destruct (patterns cf) as [pats|e]; [|by destruct Hsel as [-> ?]].
  destruct Hsel as (l & Hl & Hsub & _ & Hhead).
  exists l. split_and!; [done | done | by apply Hhead, Hfirst].
Qed.

End content_filter_theorems.

(* ------------------------------------------------------------------------- *)
(** ** The tree theorems at sample inputs *)
(* ------------------------------------------------------------------------- *)

Section tree_samples.
Import client content_filter.
Local Open Scope nat_scope.

Definition lower (c : ascii) : ascii :=
  let n := nat_of_ascii c in
  if ((65 <=? n) && (n <=? 90)) then ascii_of_nat (n + 32) else c.

Fixpoint lower_string (s : string) : string :=
  match s with
  | EmptyString => EmptyString
  | String c s' => String (lower c) (lower_string s')
  end.

(** Patterns that are plain words (letters, digits and spaces): they
    compile, and the search is the search, ignoring case, for the word in
    the string. *)
Definition word_search : Regex :=
  {| re_compiles _ := true;
     re_search re s := occurs_in (lower_string re) (lower_string s) |}.

(** A library with a home page and two chapters. *)
Definition library_response : page_node :=
  PageNode "1" "Home" ""
    (PageList
       (PCons (PageNode "2" "Chapter A" "Chapter_A" NoSubpages)
       (PCons (PageNode "3" "Chapter B" "Chapter_B" NoSubpages)
        PNil))).

Definition library_heap : heap := (get_page_tree library_response).1.
Definition library_tree : LibraryTree := (get_page_tree library_response).2.

Example library_heap_pages :
  library_heap =
    [ mkPage "1" "Home" "" None [1; 2];
      mkPage "2" "Chapter A" "Chapter_A" (Some 0) [];
      mkPage "3" "Chapter B" "Chapter_B" (Some 0) [] ] ∧
  library_tree = mkTree 0 [("1", 0); ("2", 1); ("3", 2)].
Proof. split; reflexivity. Qed.

(** The pages whose title matches "chapter a": the chapter and, for
    navigation, the home page above it. *)
Definition only_chapter_a : ContentFilter := mkFilter (Some "chapter a") None None None.

Example filter_only_chapter_a :
  @filter word_search only_chapter_a library_heap library_tree = Some (Ok [0; 1]).
Proof. reflexivity. Qed.

Example id_include_of_list :
  id_include_of (Some " 12, 7 ,305") = Some ["12"; "7"; "305"] ∧
  id_include_of (Some "") = None ∧ id_include_of None = None.
Proof. split_and!; reflexivity. Qed.

(** An include pattern and an include list. *)
Definition chapter_a_or_page_3 : ContentFilter :=
  mkFilter (Some "chapter a") (Some "3") None None.

(** C4, the code at the failing input. With the include pattern "chapter a"
    and the include list "3", the page "Chapter A" matches the pattern and
    the page "Chapter B" is in the list: pages with matching title or id are
    to be included, with the home page above them.  [filter] returns no
    page: [is_selected] joins the pattern and the list with [and]. *)
Lemma filter_include_is_conjunctive :
  (∃ pg, library_heap !! 1 = Some pg ∧
         @re_search word_search "chapter a" (title pg) = true) ∧
  (∃ pg, library_heap !! 2 = Some pg ∧
         id_include_of (page_id_include chapter_a_or_page_3) = Some [id pg]) ∧
  @filter word_search chapter_a_or_page_3 library_heap library_tree = Some (Ok []).
Proof.
  split_and!; [eexists; split; reflexivity | eexists; split; reflexivity | reflexivity].
Qed.

Lemma library_root_id_not_repeated :
  node_id_of library_response ∉ subpages_ids (node_subpages library_response).
Proof.
  simpl. intros Hin.
  repeat (apply elem_of_cons in Hin as [Hin|Hin]; [discriminate|]). inversion Hin.
Qed.

Lemma filter_selection_witness :
  ∃ l, @filter word_search only_chapter_a library_heap library_tree = Some (Ok l) ∧
       root library_tree ∈ l.
Proof.
  destruct (@filter_selection word_search library_response only_chapter_a)
    as (l & Hl & _ & Hroot).
  exists l. split; [exact Hl|].
  apply Hroot; [exact library_root_id_not_repeated|].
  intros ->. discriminate Hl.
Defined.

Lemma filter_root_first_witness :
  (node_id_of library_response ∉ subpages_ids (node_subpages library_response)) ∧
  ∃ l, @filter word_search only_chapter_a library_heap library_tree = Some (Ok l) ∧
       l `sublist_of` Py.values (pages library_tree) ∧
       (l ≠ [] → head l = Some (root library_tree)).
Proof.
  split; [exact library_root_id_not_repeated|].
  exact (@filter_root_first word_search library_response only_chapter_a
           library_root_id_not_repeated).
Defined.

(** A response in which the page below the root carries the root's id. *)
Definition repeated_root_response : page_node :=
  PageNode "1" "Home" "" (OnePage (PageNode "1" "Mirror" "Mirror" NoSubpages)).

Definition no_filter : ContentFilter := mkFilter None None None None.

(** C10, the code at the failing input. In the tree built from that
    response the entry of the root's id holds the second page: the
    assignment [tree_obj.pages[page.id] = page] of [_add_page] replaced the
    root.  [filter] returns that page alone, and the first element of the
    list is not the root of the tree: its path is "Mirror", where the
    root's path is empty. *)
Lemma filter_first_is_not_root :
  let h := (get_page_tree repeated_root_response).1 in
  let tree := (get_page_tree repeated_root_response).2 in
  root tree = 0 ∧
  @filter word_search no_filter h tree = Some (Ok [1]) ∧
  (path <$> h !! 1) = Some "Mirror" ∧
  (path <$> h !! root tree) = Some "".
Proof. split_and!; reflexivity. Qed.

(** Two pages that are each other's child. *)
Definition cyclic_heap : heap :=
  [ mkPage "1" "Home" "" None [1];
    mkPage "2" "Chapter" "Chapter" (Some 0) [0] ].

Definition cyclic_tree : LibraryTree := mkTree 0 [("1", 0); ("2", 1)].

Lemma sub_tree_pages_witness :
  closed cyclic_heap ∧ Py.get "2" (pages cyclic_tree) = Some 1 ∧
  1 < length cyclic_heap ∧
  ∃ tree, sub_tree cyclic_heap cyclic_tree "2" = Some (Ok tree) ∧
          root tree = 1 ∧ NoDup (Py.keys (pages tree)).
Proof.
  assert (Hcl : closed cyclic_heap).
  { unfold closed, cyclic_heap. repeat (constructor; simpl; try lia). }
  split_and!; [exact Hcl | reflexivity | simpl; lia |].
  destruct (sub_tree_pages cyclic_heap cyclic_tree "2" 1 Hcl eq_refl)
    as (tree & Hrun & Hroot & Hk & _); [simpl; lia|].
  exists tree. split_and!; [exact Hrun | exact Hroot | exact Hk].
Defined.

Example sub_tree_cyclic :
  sub_tree cyclic_heap cyclic_tree "2" = Some (Ok (mkTree 1 [("2", 1); ("1", 0)])).
Proof. reflexivity. Qed.

End tree_samples.

(* ------------------------------------------------------------------------- *)
(** ** [get_all_pages_ids] and the pages of [get_page_tree] *)
(* ------------------------------------------------------------------------- *)

Section page_ids.
Import client LibreTextsClient.
Local Open Scope nat_scope.

Lemma _get_page_ids_node_ids :
  (∀ n acc, _get_page_ids n acc = acc ++ node_ids n) ∧
  (∀ s acc,
     match s with
     | NoSubpages => acc
     | OnePage page => _get_page_ids page acc
     | PageList pages => _get_pages_ids pages acc
     end = acc ++ subpages_ids s) ∧
  (∀ subs acc, _get_pages_ids subs acc = acc ++ nodes_ids subs).
Proof.
  apply page_tree_mutind.
  - intros nid nt np s IH acc. simpl. rewrite IH, <- app_assoc. done.
  - intros acc. simpl. by rewrite app_nil_r.
  - intros sub IH acc. apply IH.
  - intros subs IH acc. apply IH.
  - intros acc. simpl. by rewrite app_nil_r.
  - intros sub IHsub rest IHrest acc. simpl. rewrite IHrest, IHsub, <- app_assoc. done.
Qed.

Lemma get_all_pages_ids_node_ids n : get_all_pages_ids n = node_ids n.
Proof. unfold get_all_pages_ids. by rewrite (proj1 _get_page_ids_node_ids). Qed.

(** The keys of a dict after the keys [ks] were assigned in turn. *)
Definition add_key (keys : list LibraryPageId) (k : LibraryPageId) : list LibraryPageId :=
  if decide (k ∈ keys) then keys else keys ++ [k].

Lemma keys_set {V} (k : LibraryPageId) (v : V) (d : Py.dict LibraryPageId V) :
  Py.keys (Py.set k v d) = add_key (Py.keys d) k.
Proof.
  unfold add_key. destruct (decide (k ∈ Py.keys d)).
  - by apply keys_set_in.
  - by apply keys_set_notin.
Qed.

Lemma append_child_ids par c (h : heap) : id <$> append_child par c h = id <$> h.
Proof.
  unfold append_child. destruct (h !! par) as [pg|] eqn:Hpg; [|done].
  rewrite list_fmap_insert. simpl. apply list_insert_id.
  by rewrite list_lookup_fmap, Hpg.
Qed.

(** What a step of the construction adds for the nodes with the ids [ids]:
    a page per id, at the end of the heap, and the id as a key. *)
Definition adds (ids : list LibraryPageId) (b b' : build) : Prop :=
  id <$> b'.1 = (id <$> b.1) ++ ids ∧
  Py.keys b'.2 = foldl add_key (Py.keys b.2) ids.

Lemma adds_trans ids1 ids2 b1 b2 b3 :
  adds ids1 b1 b2 → adds ids2 b2 b3 → adds (ids1 ++ ids2) b1 b3.
Proof.
  intros [Hi1 Hk1] [Hi2 Hk2]. split.
  - by rewrite Hi2, Hi1, <- app_assoc.
  - by rewrite Hk2, Hk1, foldl_app.
Qed.

Lemma _add_page_adds n par b : adds [node_id_of n] b (_add_page n par b).2.
Proof.
  destruct n as [nid nt np s]. destruct b as [h d]. split; simpl.
  - by rewrite append_child_ids, fmap_app.
  - apply keys_set.
Qed.

Lemma process_adds :
  (∀ n par b,
     adds (node_ids n) b
       (_process_tree_data n (_add_page n par b).1 (_add_page n par b).2)) ∧
  (∀ s par b, adds (subpages_ids s) b (process_subs s par b)) ∧
  (∀ subs par b, adds (nodes_ids subs) b (_process_subpages subs par b)).
Proof.
  apply page_tree_mutind.
  - intros nid nt np s IH par b. rewrite _process_tree_data_eq.
    change (node_ids (PageNode nid nt np s)) with ([nid] ++ subpages_ids s).
    eapply adds_trans; [apply (_add_page_adds (PageNode nid nt np s))|]. apply IH.
  - intros par b. split; simpl; by rewrite ?app_nil_r.
  - intros sub IH par b. simpl. specialize (IH par b).
    by destruct (_add_page sub par b).
  - intros subs IH par b. apply IH.
  - intros par b. split; simpl; by rewrite ?app_nil_r.
  - intros sub IHsub rest IHrest par b. simpl. specialize (IHsub par b).
    destruct (_add_page sub par b) as [page b1]. simpl in IHsub.
    eapply adds_trans; [exact IHsub | apply IHrest].
Qed.

Lemma get_page_tree_adds (n : page_node) :
  let h := (get_page_tree n).1 in
  let tree := (get_page_tree n).2 in
  id <$> h = node_ids n ∧
  Py.keys (pages tree) = foldl add_key [] (node_ids n).
Proof.
  destruct n as [nid nt np s].
  set (b0 := ([mkPage nid nt np None []], [(nid, 0)]) : build).
  assert (Heq : get_page_tree (PageNode nid nt np s) =
                ((process_subs s 0 b0).1, mkTree 0 (process_subs s 0 b0).2))
    by reflexivity.
  rewrite Heq. clear Heq. cbn [fst snd pages root].
  destruct (proj1 (proj2 process_adds) s 0 b0) as [Hi Hk]. split.
  - rewrite Hi. done.
  - rewrite Hk. simpl. unfold add_key at 2. simpl. done.
Qed.

Lemma add_keys_spec (ids keys : list LibraryPageId) :
  NoDup keys →
  NoDup (foldl add_key keys ids) ∧
  (∀ k, k ∈ foldl add_key keys ids ↔ k ∈ keys ∨ k ∈ ids) ∧
  (NoDup (keys ++ ids) → foldl add_key keys ids = keys ++ ids).
Proof.
  revert keys. induction ids as [|i ids IH]; intros keys Hnd; simpl.
  - split_and!; [done | | by rewrite app_nil_r].
    intros k. split; [by left | by intros [?|?%elem_of_nil]].
  - assert (Hnd' : NoDup (add_key keys i)).
    { unfold add_key. destruct (decide (i ∈ keys)); [done|].
      apply NoDup_app. split_and!; [done | | apply NoDup_singleton].
      by intros x Hx ->%list_elem_of_singleton. }
    destruct (IH _ Hnd') as (H1 & H2 & H3). split_and!; [done | |].
    + intros k. rewrite H2, elem_of_cons. unfold add_key.
      destruct (decide (i ∈ keys)) as [Hin|Hnin].
      * split; [intros [?|?]; [by left | right; by right]|].
        intros [?|[->|?]]; [by left | by left | by right].
      * rewrite elem_of_app, list_elem_of_singleton.
        split; [intros [[?|?]|?] | intros [?|[?|?]]]; tauto.
    + intros Hall. unfold add_key in *.
      assert (Hnin : i ∉ keys).
      { apply NoDup_app in Hall as (_ & Hdisj & _). intros Hin.
        apply (Hdisj i Hin), list_elem_of_here. }
      rewrite decide_False in * by done.
      rewrite H3; rewrite <- app_assoc; done.
Qed.

(** X1. [get_page_tree] creates one page for every id that
    [get_all_pages_ids] returns, in the same order: the pages of the heap, in
    the order of their creation, carry the ids of that list, repeated ids
    included. *)
Theorem get_page_tree_creates_all_pages (tree_page : page_node) :
  id <$> (get_page_tree tree_page).1 = get_all_pages_ids tree_page.
Proof.
  rewrite get_all_pages_ids_node_ids. apply get_page_tree_adds.
Qed.

(** X2. The keys of the pages map of [get_page_tree] are the ids of
    [get_all_pages_ids], each once, in the order of their first occurrence:
    no key twice, an id is a key exactly when it is in the list, and the keys
    are the list itself when no id is repeated. *)
Theorem pages_keys_are_page_ids (tree_page : page_node) :
  let keys := Py.keys (pages (get_page_tree tree_page).2) in
  NoDup keys ∧
  (∀ k, k ∈ keys ↔ k ∈ get_all_pages_ids tree_page) ∧
  (NoDup (get_all_pages_ids tree_page) → keys = get_all_pages_ids tree_page).
Proof.
  intros keys. subst keys. rewrite get_all_pages_ids_node_ids.
  rewrite (proj2 (get_page_tree_adds tree_page)).
  destruct (add_keys_spec (node_ids tree_page) [] NoDup_nil_2) as (H1 & H2 & H3).
  split_and!; [done | | done].
  intros k. rewrite H2. split; [by intros [?%elem_of_nil|?] | by right].
Qed.

End page_ids.

(* ------------------------------------------------------------------------- *)
(** ** The links of the trees [get_page_tree] builds *)
(* ------------------------------------------------------------------------- *)

Section tree_links.
Import client LibreTextsClient.
Local Open Scope nat_scope.

(** A property of the heap that adding a page keeps is kept by the whole
    construction. *)
Lemma process_preserves (P : heap → Prop) :
  (∀ n par b, build_ok b → par < length b.1 → P b.1 → P (_add_page n par b).2.1) →
  (∀ n par b, build_ok b → par < length b.1 → P b.1 →
     P (_process_tree_data n (_add_page n par b).1 (_add_page n par b).2).1) ∧
  (∀ s par b, build_ok b → par < length b.1 → P b.1 → P (process_subs s par b).1) ∧
  (∀ subs par b, build_ok b → par < length b.1 → P b.1 →
     P (_process_subpages subs par b).1).
Proof.
  intros Hadd. apply page_tree_mutind.
  - intros nid nt np s IH par b Hok Hlt HP.
    destruct (_add_page_ok (PageNode nid nt np s) par b Hok Hlt)
      as (Hok' & _ & Hpage & Hlen & _).
    rewrite _process_tree_data_eq. apply IH; [done | | by apply Hadd].
    rewrite Hpage, Hlen. lia.
  - by intros par b _ _ HP.
  - intros sub IH par b Hok Hlt HP. simpl.
    specialize (IH par b Hok Hlt HP). by destruct (_add_page sub par b).
  - intros subs IH par b Hok Hlt HP. by apply IH.
  - by intros par b _ _ HP.
  - intros sub IHsub rest IHrest par b Hok Hlt HP. simpl.
    specialize (IHsub par b Hok Hlt HP).
    destruct (proj1 (process_ok "") sub par b Hok Hlt) as (Hok' & Hext & _).
    destruct (_add_page sub par b) as [page b1]. simpl in *.
    apply IHrest; [done | | done].
    apply extends_length in Hext. lia.
Qed.

(** Every page that has a parent is among the children of that parent, and
    no page is twice among the children of a page. *)
Definition linked (h : heap) : Prop :=
  (∀ i pg p, h !! i = Some pg → parent pg = Some p →
     ∃ pgp, h !! p = Some pgp ∧ i ∈ children pgp) ∧
  (∀ i pg, h !! i = Some pg → NoDup (children pg)).

Lemma _add_page_linked n par b :
  build_ok b → par < length b.1 → linked b.1 → linked (_add_page n par b).2.1.
Proof.
  destruct b as [h d]. destruct n as [nid nt np s]. simpl.
  intros [Hb He] Hlt [Hlink Hnd].
  destruct (lookup_lt_is_Some_2 h par Hlt) as [pgp Hpgp].
  set (new := mkPage nid nt np (Some par) []).
  set (h' := append_child par (length h) (h ++ [new])).
  assert (Hlook : ∀ i, h' !! i =
    if decide (i = par) then Some (with_child pgp (length h))
    else if decide (i = length h) then Some new else h !! i)
    by (intros i; by apply add_page_lookup).
  assert (Hkeep : ∀ p pg0, h !! p = Some pg0 →
            ∃ pg1, h' !! p = Some pg1 ∧ ∀ c, c ∈ children pg0 → c ∈ children pg1).
  { intros p pg0 Hp. rewrite Hlook. pose proof (lookup_lt_Some _ _ _ Hp).
    destruct (decide (p = par)) as [->|_].
    - rewrite Hpgp in Hp. injection Hp as <-. eexists. split; [done|].
      intros c Hc. simpl. apply elem_of_app. by left.
    - rewrite decide_False by lia. by exists pg0. }
  split.
  - intros i pg p. rewrite Hlook.
    destruct (decide (i = par)) as [->|_]; [|destruct (decide (i = length h)) as [->|_]].
    + intros [= <-]. simpl. intros Hp.
      destruct (Hlink _ _ _ Hpgp Hp) as (pg0 & Hpg0 & Hin).
      destruct (Hkeep _ _ Hpg0) as (pg1 & Hpg1 & Hsub). exists pg1. by auto.
    + intros [= <-]. simpl. intros [= <-].
      exists (with_child pgp (length h)). rewrite Hlook, decide_True by done.
      split; [done|]. simpl. apply elem_of_app. right. apply list_elem_of_here.
    + intros Hpg Hp. destruct (Hlink _ _ _ Hpg Hp) as (pg0 & Hpg0 & Hin).
      destruct (Hkeep _ _ Hpg0) as (pg1 & Hpg1 & Hsub). exists pg1. by auto.
  - intros i pg. rewrite Hlook.
    destruct (decide (i = par)) as [->|_]; [|destruct (decide (i = length h)) as [->|_]].
    + intros [= <-]. simpl. apply NoDup_app.
      split_and!; [by eapply Hnd | | apply NoDup_singleton].
      intros c Hc ->%list_elem_of_singleton.
      pose proof (closed_child h par (length h) (built_closed h Hb)) as Hcl.
      assert (length h < length h); [|lia]. apply Hcl. by exists pgp.
    + intros [= <-]. simpl. apply NoDup_nil_2.
    + apply Hnd.
Qed.

Lemma get_page_tree_linked (n : page_node) : linked (get_page_tree n).1.
Proof.
  destruct n as [nid nt np s].
  set (b0 := ([mkPage nid nt np None []], [(nid, 0)]) : build).
  assert (Heq : get_page_tree (PageNode nid nt np s) =
                ((process_subs s 0 b0).1, mkTree 0 (process_subs s 0 b0).2))
    by reflexivity.
  rewrite Heq. clear Heq. cbn [fst snd].
  apply (proj1 (proj2 (process_preserves linked _add_page_linked))).
  - split; [split|]; simpl.
    + by eexists.
    + intros [|i] pg; [by intros [= <-]|done].
    + intros [|i] pg c; [intros [= <-]; by inversion 1|done].
    + intros k r [= -> ->]%list_elem_of_singleton. by eexists.
  - simpl. lia.
  - split.
    + intros [|i] pg p; [by intros [= <-]|done].
    + intros [|i] pg; [intros [= <-]; apply NoDup_nil_2|done].
Qed.

(** X3. The links of a tree built by [get_page_tree] are those of a tree:
    the root has no parent; every other page has a parent, created before
    it, and is among the children of that parent; every child of a page has
    that page as its parent; and no page is twice among the children of a
    page. *)
Theorem get_page_tree_links (tree_page : page_node) :
  let h := (get_page_tree tree_page).1 in
  let tree := (get_page_tree tree_page).2 in
  (∃ pg, h !! root tree = Some pg ∧ parent pg = None) ∧
  (∀ i pg, h !! i = Some pg → i ≠ root tree →
     ∃ p pgp, parent pg = Some p ∧ p < i ∧ h !! p = Some pgp ∧ i ∈ children pgp) ∧
  (∀ i pg c, h !! i = Some pg → c ∈ children pg →
     ∃ pgc, h !! c = Some pgc ∧ parent pgc = Some i) ∧
  (∀ i pg, h !! i = Some pg → NoDup (children pg)).
Proof.
  pose proof (get_page_tree_ok tree_page) as Hok.
  pose proof (get_page_tree_linked tree_page) as [Hlink Hnd].
  destruct (get_page_tree tree_page) as [h tree]. cbn [fst snd] in *.
  destruct Hok as (Hb & He & -> & _).
  assert (Hpar : ∀ i pg, h !! i = Some pg → i ≠ 0 →
            ∃ p, parent pg = Some p ∧ p < i).
  { intros i pg Hpg Hne. pose proof (built_parent h Hb i pg Hpg) as Hp.
    destruct (parent pg) as [p|]; [by exists p | done]. }
  split_and!.
  - destruct (built_root h Hb) as [pg Hpg]. exists pg. split; [done|].
    pose proof (built_parent h Hb 0 pg Hpg) as Hp.
    destruct (parent pg) as [p|]; [lia | done].
  - intros i pg Hpg Hne. destruct (Hpar i pg Hpg Hne) as (p & Hp & Hlt).
    destruct (Hlink i pg p Hpg Hp) as (pgp & Hpgp & Hin). by exists p, pgp.
  - apply (built_children h Hb).
  - exact Hnd.
Qed.

(** Every page of a built and linked heap is reachable from the root. *)
Lemma reach_root h i :
  built h → linked h → i < length h → reach h 0 i.
Proof.
  intros Hb [Hlink _]. induction i as [i IH] using lt_wf_ind. intros Hi.
  destruct (lookup_lt_is_Some_2 h i Hi) as [pg Hpg].
  pose proof (built_parent h Hb i pg Hpg) as Hp.
  destruct (parent pg) as [p|] eqn:Hpar; [|subst i; apply rtc_refl].
  destruct (Hlink i pg p Hpg Hpar) as (pgp & Hpgp & Hin).
  eapply rtc_r; [apply IH; [done | by eapply lookup_lt_Some]|].
  by exists pgp.
Qed.

(** The consecutive pages of a chain are linked by [parent]. *)
Fixpoint parent_path (h : heap) (chain : list ref) : Prop :=
  match chain with
  | a :: (b :: _) as rest => (parent <$> h !! a) = Some (Some b) ∧ parent_path h rest
  | _ => True
  end.

Lemma parents_walk_chain h fuel i :
  built h → i < length h → i ≤ fuel →
  ∃ l, parents_walk fuel h i = Some l ∧ last (i :: l) = Some 0 ∧
       Forall (λ a, a < i) l ∧ NoDup l ∧ parent_path h (i :: l).
Proof.
  intros Hb. revert i. induction fuel as [|fuel IH]; intros i Hi Hfuel;
    rewrite parents_walk_unfold;
    destruct (lookup_lt_is_Some_2 h i Hi) as [pg Hpg]; rewrite Hpg; simpl;
    pose proof (built_parent h Hb i pg Hpg) as Hp;
    destruct (parent pg) as [p|] eqn:Hpar.
  - lia.
  - subst i. exists []. split_and!; [done | done | done | apply NoDup_nil_2 | done].
  - destruct (IH p) as (l & Hl & Hlast & Hall & Hnd & Hpath); [lia | lia |].
    rewrite Hl. simpl. exists (p :: l).
    split; [done|]. split; [exact Hlast|]. split; [|split].
    + apply Forall_cons. split; [done|].
      eapply Forall_impl; [exact Hall|]. simpl. lia.
    + apply NoDup_cons. split; [|done]. intros Hin.
      rewrite Forall_forall in Hall. specialize (Hall p Hin). lia.
    + split; [by rewrite Hpg; simpl; rewrite Hpar | exact Hpath].
  - subst i. exists []. split_and!; [done | done | done | apply NoDup_nil_2 | done].
Qed.

(** X4. In a tree built by [get_page_tree], [self_and_parents] of a page
    returns: the list starts with the page, goes from each page to its
    parent, ends with the root of the tree, and holds no page twice. *)
Theorem self_and_parents_to_root (tree_page : page_node) (page : ref) :
  let h := (get_page_tree tree_page).1 in
  let tree := (get_page_tree tree_page).2 in
  page < length h →
  ∃ chain, self_and_parents h page = Some chain ∧
    head chain = Some page ∧ last chain = Some (root tree) ∧
    parent_path h chain ∧ NoDup chain.
Proof.
  pose proof (get_page_tree_ok tree_page) as Hok.
  destruct (get_page_tree tree_page) as [h tree]. cbn [fst snd] in *.
  destruct Hok as (Hb & _ & -> & _). intros Hi.
  destruct (parents_walk_chain h (length h) page Hb Hi)
    as (l & Hl & Hlast & Hall & Hnd & Hpath); [lia|].
  unfold self_and_parents. rewrite Hl. simpl. exists (page :: l).
  split_and!; [done | done | done | done |].
  apply NoDup_cons. split; [|done]. intros Hin.
  rewrite Forall_forall in Hall. specialize (Hall page Hin). lia.
Qed.

End tree_links.

Section tree_links_samples.
Import client.
Local Open Scope nat_scope.

Lemma self_and_parents_to_root_witness :
  3 < length (get_page_tree repeated_id_response).1 ∧
  ∃ chain, self_and_parents (get_page_tree repeated_id_response).1 3 = Some chain ∧
           last chain = Some 0.
Proof.
  split; [simpl; lia|].
  destruct (self_and_parents_to_root repeated_id_response 3)
    as (chain & Hc & _ & Hlast & _); [simpl; lia|].
  exists chain. split; [exact Hc | exact Hlast].
Defined.

Example self_and_parents_section :
  self_and_parents (get_page_tree repeated_id_response).1 3 = Some [3; 2; 0].
Proof. reflexivity. Qed.

End tree_links_samples.

(* ------------------------------------------------------------------------- *)
(** ** [get_root_page_id] and [sub_tree] of the root *)
(* ------------------------------------------------------------------------- *)

Section root_page.
Import client LibreTextsClient.
Local Open Scope nat_scope.

(** The root page of a built tree carries the id of the response's root
    node, which is a key of the pages map. *)
Lemma root_page_id_at (n : page_node) :
  let h := (get_page_tree n).1 in
  let tree := (get_page_tree n).2 in
  (id <$> h !! 0) = Some (get_root_page_id n) ∧
  ∃ r, Py.get (get_root_page_id n) (pages tree) = Some r ∧ r < length h ∧
       (node_id_of n ∉ subpages_ids (node_subpages n) → r = 0).
Proof.
  pose proof (get_page_tree_ok n) as Hok.
  pose proof (get_page_tree_adds n) as [Hids Hkeys].
  pose proof (pages_keys_are_page_ids n) as (_ & Hmem & _).
  destruct (get_page_tree n) as [h tree]. cbn [fst snd] in *.
  destruct Hok as (Hb & He & Hroot & Hfirst).
  assert (Hid0 : (id <$> h !! 0) = Some (get_root_page_id n)).
  { rewrite <- list_lookup_fmap, Hids. by destruct n. }
  split; [done|].
  assert (Hin : get_root_page_id n ∈ Py.keys (pages tree)).
  { apply Hmem. rewrite get_all_pages_ids_node_ids. destruct n. apply list_elem_of_here. }
  destruct (Py.get (get_root_page_id n) (pages tree)) as [r|] eqn:Hget;
    [|by apply get_None_keys in Hget].
  exists r. split; [done|].
  destruct (He _ _ (get_Some_elem_of _ _ _ Hget)) as (pg & Hpg & Hidr).
  split; [by eapply lookup_lt_Some|].
  intros Hn. specialize (Hfirst Hn).
  destruct (pages tree) as [|[k0 r0] d]; [done|]. simpl in Hfirst. injection Hfirst as ->.
  destruct (He k0 0 (list_elem_of_here _ _)) as (pg0 & Hpg0 & Hk0).
  rewrite Hpg0 in Hid0. simpl in Hid0. injection Hid0 as Hid0.
  simpl in Hget. rewrite decide_True in Hget by congruence. by injection Hget as <-.
Qed.

(** X5. [get_root_page_id] is the first id of [get_all_pages_ids] and the
    id of the root page of [get_page_tree]; it is a key of the pages map, so
    that [sub_tree] of it returns a tree and raises no [KeyError]; the root
    of that tree is the root page when no page below the root repeats the
    root's id. *)
Theorem root_page_id_is_root (tree_page : page_node) :
  let h := (get_page_tree tree_page).1 in
  let tree := (get_page_tree tree_page).2 in
  head (get_all_pages_ids tree_page) = Some (get_root_page_id tree_page) ∧
  (id <$> h !! root tree) = Some (get_root_page_id tree_page) ∧
  ∃ sub, sub_tree h tree (get_root_page_id tree_page) = Some (Ok sub) ∧
         (node_id_of tree_page ∉ subpages_ids (node_subpages tree_page) →
          root sub = root tree).
Proof.
  pose proof (get_page_tree_ok tree_page) as Hok.
  pose proof (root_page_id_at tree_page) as Hroot.
  destruct (get_page_tree tree_page) as [h tree]. cbn [fst snd] in *.
  destruct Hok as (Hb & He & -> & _).
  destruct Hroot as (Hid0 & r & Hget & Hlt & Hr).
  split_and!; [rewrite get_all_pages_ids_node_ids; by destruct tree_page | done |].
  destruct (sub_tree_result h tree _ r (built_closed h Hb) Hget Hlt)
    as (sub & Hsub & Hrs & _).
  exists sub. split; [done|]. intros Hn. rewrite Hrs. by apply Hr.
Qed.

(** X6. In a tree built from a response whose ids are pairwise distinct,
    [sub_tree] of the root's id is the whole tree: it has the same root and
    its pages map holds the same page under every id (the keys may follow
    another order: [sub_tree] goes level by level). *)
Theorem sub_tree_of_root_is_whole_tree (tree_page : page_node) :
  let h := (get_page_tree tree_page).1 in
  let tree := (get_page_tree tree_page).2 in
  NoDup (get_all_pages_ids tree_page) →
  ∃ sub, sub_tree h tree (get_root_page_id tree_page) = Some (Ok sub) ∧
         root sub = root tree ∧
         (∀ k, Py.get k (pages sub) = Py.get k (pages tree)) ∧
         Py.keys (pages sub) ≡ₚ Py.keys (pages tree).
Proof.
  pose proof (get_page_tree_ok tree_page) as Hok.
  pose proof (root_page_id_at tree_page) as Hroot.
  pose proof (get_page_tree_linked tree_page) as Hlinked.
  pose proof (get_page_tree_adds tree_page) as [Hids _].
  pose proof (pages_keys_are_page_ids tree_page) as (Hkn & Hmem & _).
  rewrite get_all_pages_ids_node_ids in *.
  destruct (get_page_tree tree_page) as [h tree]. cbn [fst snd] in *.
  destruct Hok as (Hb & He & Hr0 & _). rewrite Hr0.
  destruct Hroot as (Hid0 & r & Hget & Hlt & Hr).
  intros Hnd.
  assert (Hinj : ∀ a b pga pgb, h !! a = Some pga → h !! b = Some pgb →
            id pga = id pgb → a = b).
  { intros a b pga pgb Ha Hb' Hid.
    apply (NoDup_lookup (id <$> h) a b (id pga)); [by rewrite Hids | |];
      rewrite list_lookup_fmap; [by rewrite Ha | by rewrite Hb', Hid]. }
  assert (r = 0) as ->.
  { apply Hr. destruct tree_page as [nid nt np s]. simpl in *.
    by apply NoDup_cons in Hnd as [? _]. }
  destruct (sub_tree_result h tree _ 0 (built_closed h Hb) Hget Hlt)
    as (sub & Hsub & Hrs & [Hk Hes Hreach Hhead] & Hall).
  assert (Hin : ∀ a, a < length h → a ∈ Py.values (pages sub)).
  { intros a Ha. apply Hall; [|by apply reach_root].
    intros x y pgx pgy _ _. apply Hinj. }
  assert (Hsame : ∀ k, Py.get k (pages sub) = Py.get k (pages tree)).
  { intros k. destruct (Py.get k (pages tree)) as [a|] eqn:Hk'.
    - destruct (He _ _ (get_Some_elem_of _ _ _ Hk')) as (pg & Hpg & Hid).
      specialize (Hin a (lookup_lt_Some _ _ _ Hpg)).
      apply list_elem_of_fmap in Hin as ([k1 a1] & -> & Hin1). simpl in *.
      destruct (Hes _ _ Hin1) as (pg1 & Hpg1 & Hid1).
      rewrite Hpg in Hpg1. injection Hpg1 as <-.
      apply elem_of_get_Some; [done|]. by rewrite <- Hid, Hid1.
    - destruct (Py.get k (pages sub)) as [a|] eqn:Hks; [|done].
      destruct (Hes _ _ (get_Some_elem_of _ _ _ Hks)) as (pg & Hpg & Hid).
      apply get_None_keys in Hk'. destruct Hk'. apply Hmem.
      rewrite <- Hids, <- Hid. apply list_elem_of_fmap. exists pg.
      split; [done|]. by eapply list_elem_of_lookup_2. }
  exists sub. split_and!; [done | done | done |].
  apply NoDup_Permutation; [done | done |].
  intros k. rewrite <- !contains_true. unfold Py.contains. by rewrite Hsame.
Qed.

End root_page.

Section root_page_samples.
Import client LibreTextsClient.
Local Open Scope nat_scope.

(** A library with two chapters, the first with two sections. *)
Definition nested_response : page_node :=
  PageNode "1" "Home" ""
    (PageList
       (PCons (PageNode "2" "Chapter A" "Chapter_A"
                 (PageList
                    (PCons (PageNode "3" "Section 1" "Chapter_A/Section_1" NoSubpages)
                    (PCons (PageNode "4" "Section 2" "Chapter_A/Section_2" NoSubpages)
                     PNil))))
       (PCons (PageNode "5" "Chapter B" "Chapter_B" NoSubpages)
        PNil))).

Lemma nested_response_ids : NoDup (get_all_pages_ids nested_response).
Proof.
  change (NoDup ["1"; "2"; "3"; "4"; "5"]).
  repeat (apply NoDup_cons; split;
          [intros Hin; repeat (apply elem_of_cons in Hin as [Hin|Hin]; [discriminate|]);
           inversion Hin|]).
  apply NoDup_nil_2.
Qed.

Lemma pages_keys_are_page_ids_witness :
  NoDup (get_all_pages_ids nested_response) ∧
  Py.keys (pages (get_page_tree nested_response).2) = get_all_pages_ids nested_response.
Proof.
  split; [exact nested_response_ids|].
  exact (proj2 (proj2 (pages_keys_are_page_ids nested_response)) nested_response_ids).
Defined.

Lemma root_page_id_is_root_witness :
  (node_id_of library_response ∉ subpages_ids (node_subpages library_response)) ∧
  ∃ sub, sub_tree library_heap library_tree (get_root_page_id library_response)
           = Some (Ok sub) ∧
         root sub = root library_tree.
Proof.
  split; [exact library_root_id_not_repeated|].
  destruct (root_page_id_is_root library_response) as (_ & _ & sub & Hsub & Hroot).
  exists sub. split; [exact Hsub | exact (Hroot library_root_id_not_repeated)].
Defined.

Lemma sub_tree_of_root_is_whole_tree_witness :
  NoDup (get_all_pages_ids nested_response) ∧
  ∃ sub, sub_tree (get_page_tree nested_response).1 (get_page_tree nested_response).2 "1"
           = Some (Ok sub) ∧
         ∀ k, Py.get k (pages sub) = Py.get k (pages (get_page_tree nested_response).2).
Proof.
  split; [exact nested_response_ids|].
  destruct (sub_tree_of_root_is_whole_tree nested_response nested_response_ids)
    as (sub & Hsub & _ & Hsame & _).
  exists sub. split; [exact Hsub | exact Hsame].
Defined.

(** The two maps of that library hold the same pages in different orders:
    [get_page_tree] stores a page before its siblings' subpages are met,
    [sub_tree] the pages of a level before those of the next. *)
Example nested_response_orders :
  Py.keys (pages (get_page_tree nested_response).2) = ["1"; "2"; "3"; "4"; "5"] ∧
  ∃ sub, sub_tree (get_page_tree nested_response).1 (get_page_tree nested_response).2 "1"
           = Some (Ok sub) ∧ Py.keys (pages sub) = ["1"; "2"; "5"; "3"; "4"].
Proof. split; [reflexivity | eexists; split; reflexivity]. Qed.

End root_page_samples.

(* ------------------------------------------------------------------------- *)
(** ** [ContentFilter.filter] without options *)
(* ------------------------------------------------------------------------- *)

Section filter_defaults.
Import client content_filter.
Context `{!Regex}.
Local Open Scope nat_scope.

Lemma pages_with_id_in_all h (ids : gset LibraryPageId) values :
  Forall (λ r, ∃ k, id_at h r = Some k ∧ k ∈ ids) values →
  pages_with_id_in h ids values = Some values.
Proof.
  unfold id_at. induction values as [|q values IH]; intros Hall; [done|].
  apply Forall_cons in Hall as [(k & Hk & Hin) Hall]. simpl.
  destruct (h !! q) as [pg|]; [|done]. simpl in *. injection Hk as <-.
  rewrite (IH Hall). simpl. by rewrite bool_decide_eq_true_2.
Qed.

(** X7. With no include and no exclude option (each one absent or
    empty), [filter] returns every page of the tree it works on, in the order
    of its pages map: the tree built by [get_page_tree], or its
    [sub_tree(root_page_id)] when [root_page_id] is given. *)
Theorem filter_without_options (tree_page : page_node) (cf : ContentFilter) :
  let h := (get_page_tree tree_page).1 in
  let tree := (get_page_tree tree_page).2 in
  Py.truthy (page_title_include cf) = false →
  Py.truthy (page_id_include cf) = false →
  Py.truthy (page_title_exclude cf) = false →
  match effective_tree cf h tree with
  | Some (Ok page_tree) => filter cf h tree = Some (Ok (Py.values (pages page_tree)))
  | Some (Raise e) => e = Py.KeyError ∧ filter cf h tree = Some (Raise e)
  | None => False
  end.
Proof.
  pose proof (effective_tree_rooted tree_page cf) as Heff.
  destruct (get_page_tree tree_page) as [h tree]. cbn [fst snd] in *.
  intros Hti Hii Hte. rewrite filter_select.
  destruct (effective_tree cf h tree) as [[page_tree|e]|]; [| done | done].
  destruct Heff as (Hb & [He _] & _).
  unfold select, patterns, compile_if, id_include_of. rewrite Hti, Hii, Hte. simpl.
  pose proof (entries_ok_valid h _ He) as Hvalid.
  destruct (selected_ids_spec h None None None _ Hb Hvalid) as (ids & -> & Hsel).
  simpl. rewrite pages_with_id_in_all; [done|].
  apply Forall_forall. intros r Hin.
  pose proof (proj1 (Forall_forall _ _) Hvalid r Hin) as Hlt. simpl in Hlt.
  destruct (lookup_lt_is_Some_2 h r Hlt) as [pg Hpg].
  destruct (self_and_parents_built h r Hb Hlt) as (chain & Hchain & _ & Hself & _).
  exists (id pg). unfold id_at. rewrite Hpg. split; [done|].
  apply Hsel. exists r, pg, chain, r. unfold id_at. rewrite Hpg. done.
Qed.

End filter_defaults.

Section filter_defaults_samples.
Import client content_filter.

(** Nothing but a root page: the second chapter of the library. *)
Definition below_chapter_b : ContentFilter := mkFilter None (Some "") None (Some "3").

Lemma filter_without_options_witness :
  Py.truthy (page_id_include below_chapter_b) = false ∧
  @filter word_search below_chapter_b library_heap library_tree = Some (Ok [2]).
Proof.
  split; [reflexivity|].
  exact (@filter_without_options word_search library_response below_chapter_b
           eq_refl eq_refl eq_refl).
Defined.

End filter_defaults_samples.

(* ------------------------------------------------------------------------- *)
(** ** The pages [filter] selects are distinct *)
(* ------------------------------------------------------------------------- *)

Section selected_pages.
Import client content_filter LibreTextsClient.
Context `{!Regex}.
Local Open Scope nat_scope.

Lemma ids_of_values h (d : Py.dict LibraryPageId ref) :
  entries_ok h d → ids_of h (Py.values d) = Some (Py.keys d).
Proof.
  intros He. unfold ids_of, Py.values, Py.keys. apply mapM_Some.
  apply Forall2_fmap, Forall_Forall2_diag, Forall_forall.
  intros [k r] Hin. destruct (He k r Hin) as (pg & Hpg & Hid). simpl.
  by rewrite Hpg, <- Hid.
Qed.

Lemma ids_of_sublist h l l' ids' :
  l `sublist_of` l' → ids_of h l' = Some ids' →
  ∃ ids, ids_of h l = Some ids ∧ ids `sublist_of` ids'.
Proof.
  unfold ids_of. intros Hsub Hids'. apply mapM_Some in Hids'.
  revert ids' Hids'.
  induction Hsub as [|x l1 l2 Hsub IH|x l1 l2 Hsub IH]; intros ids' Hall.
  - exists []. split; [done | apply sublist_nil_l].
  - apply Forall2_cons_inv_l in Hall as (k & ids2 & Hk & Hall & ->).
    destruct (IH _ Hall) as (ids1 & Hids1 & Hs). apply mapM_Some in Hids1.
    exists (k :: ids1). split; [|by apply sublist_skip].
    apply mapM_Some. by constructor.
  - apply Forall2_cons_inv_l in Hall as (k & ids2 & Hk & Hall & ->).
    destruct (IH _ Hall) as (ids1 & Hids1 & Hs).
    exists ids1. split; [done | by apply sublist_cons].
Qed.

Lemma length_append (a s : string) :
  String.length (a +:+ s) = String.length a + String.length s.
Proof.
  induction a as [|c a IH]; [done|].
  change (S (String.length (a +:+ s)) = S (String.length a) + String.length s).
  by rewrite IH.
Qed.

Lemma append_inj_l (s a b : string) : a +:+ s = b +:+ s → a = b.
Proof.
  revert b. induction a as [|c a IH]; intros [|c' b] Heq; [done | | |].
  - apply (f_equal String.length) in Heq.
    rewrite !length_append in Heq. simpl in Heq. lia.
  - apply (f_equal String.length) in Heq.
    rewrite !length_append in Heq. simpl in Heq. lia.
  - change (String c (a +:+ s) = String c' (b +:+ s)) in Heq.
    injection Heq as -> Heq. f_equal. by apply IH.
Qed.

Lemma page_content_path_inj : Inj eq eq page_content_path.
Proof.
  intros a b Heq. unfold page_content_path in Heq.
  apply String.app_inj in Heq. by apply append_inj_l in Heq.
Qed.

(** X8. The pages that [filter] returns for a tree built by
    [get_page_tree] are distinct pages with pairwise distinct ids, also when
    ids are repeated in the response: the items [_process_page] adds for them
    have pairwise distinct paths. *)
Theorem selected_pages_are_distinct (tree_page : page_node) (cf : ContentFilter)
    (selected_pages : list ref) :
  let h := (get_page_tree tree_page).1 in
  let tree := (get_page_tree tree_page).2 in
  filter cf h tree = Some (Ok selected_pages) →
  NoDup selected_pages ∧
  ∃ ids, ids_of h selected_pages = Some ids ∧ NoDup ids ∧
         NoDup (page_content_path <$> ids).
Proof.
  pose proof (get_page_tree_ok tree_page) as Hok.
  pose proof (get_page_tree_adds tree_page) as [_ Hkeys].
  destruct (get_page_tree tree_page) as [h tree]. cbn [fst snd] in *.
  destruct Hok as (Hb & He & Hroot & _).
  assert (Hnd : NoDup (Py.keys (pages tree))).
  { rewrite Hkeys. apply (add_keys_spec _ []), NoDup_nil_2. }
  assert (Hgo : ∀ page_tree l, entries_ok h (pages page_tree) →
            NoDup (Py.keys (pages page_tree)) →
            l `sublist_of` Py.values (pages page_tree) →
            NoDup l ∧ ∃ ids, ids_of h l = Some ids ∧ NoDup ids ∧
                             NoDup (page_content_path <$> ids)).
  { intros page_tree l He' Hnd' Hsub. split.
    - eapply sublist_NoDup; [|exact Hsub]. by apply (entries_values_NoDup h).
    - destruct (ids_of_sublist h l _ _ Hsub (ids_of_values h _ He')) as (ids & Hids & Hs).
      exists ids. assert (Hn : NoDup ids) by (by eapply sublist_NoDup).
      split_and!; [done | done |].
      apply NoDup_fmap_2; [apply page_content_path_inj | done]. }
  rewrite filter_select. unfold effective_tree.
  destruct (Py.truthy (root_page_id cf)).
  - destruct (Py.get (default "" (root_page_id cf)) (pages tree)) as [new_root|] eqn:Hget;
      [|unfold sub_tree; by rewrite Hget].
    destruct (He _ _ (get_Some_elem_of _ _ _ Hget)) as (pg & Hpg & _).
    destruct (sub_tree_result h tree _ new_root (built_closed h Hb) Hget
                (lookup_lt_Some _ _ _ Hpg))
      as (sub & -> & Hr & [Hk Hes Hreach Hhead] & _).
    assert (Hrooted : rooted h sub).
    { split; [done|]. intros r chain Hin Hchain. rewrite Hr.
      eapply reach_self_and_parents; [done | | done].
      eapply Forall_forall; [exact Hreach | done]. }
    pose proof (select_spec cf h sub Hb Hrooted) as Hsel.
    destruct (patterns cf) as [pats|e]; [|by destruct Hsel as [_ ->]].
    destruct Hsel as (l & -> & Hsub & _).
    intros [= <-]. by apply (Hgo sub).
  - assert (Hrooted : rooted h tree).
    { split; [done|]. intros r chain Hin Hchain. rewrite Hroot.
      pose proof (entries_ok_valid h _ He) as Hvalid.
      rewrite Forall_forall in Hvalid.
      destruct (self_and_parents_built h r Hb (Hvalid r Hin)) as (chain' & Hc' & H0 & _).
      rewrite Hchain in Hc'. by injection Hc' as <-. }
    pose proof (select_spec cf h tree Hb Hrooted) as Hsel.
    destruct (patterns cf) as [pats|e]; [|by destruct Hsel as [_ ->]].
    destruct Hsel as (l & -> & Hsub & _).
    intros [= <-]. by apply (Hgo tree).
Qed.

End selected_pages.

Section sub_tree_twice.
Import client LibreTextsClient.
Local Open Scope nat_scope.

(** X9. Narrowing twice is narrowing once: in a tree built from a
    response whose ids are pairwise distinct, [sub_tree] of a page of a
    sub-tree is the [sub_tree] of that page in the whole tree. *)
Theorem sub_tree_of_sub_tree (tree_page : page_node) (first second : LibraryPageId)
    (sub : LibraryTree) :
  let h := (get_page_tree tree_page).1 in
  let tree := (get_page_tree tree_page).2 in
  NoDup (get_all_pages_ids tree_page) →
  sub_tree h tree first = Some (Ok sub) →
  second ∈ Py.keys (pages sub) →
  sub_tree h sub second = sub_tree h tree second.
Proof.
  pose proof (get_page_tree_ok tree_page) as Hok.
  pose proof (get_page_tree_adds tree_page) as [Hids Hkeys].
  rewrite get_all_pages_ids_node_ids.
  destruct (get_page_tree tree_page) as [h tree]. cbn [fst snd] in *.
  destruct Hok as (Hb & He & _ & _).
  intros Hnd Hsub Hin.
  assert (Hinj : ∀ a b pga pgb, h !! a = Some pga → h !! b = Some pgb →
            id pga = id pgb → a = b).
  { intros a b pga pgb Ha Hb' Hid.
    apply (NoDup_lookup (id <$> h) a b (id pga)); [by rewrite Hids | |];
      rewrite list_lookup_fmap; [by rewrite Ha | by rewrite Hb', Hid]. }
  assert (Hes : entries_ok h (pages sub)).
  { unfold sub_tree in Hsub.
    destruct (Py.get first (pages tree)) as [r|] eqn:Hget; [|done].
    destruct (He _ _ (get_Some_elem_of _ _ _ Hget)) as (pg & Hpg & _).
    destruct (sub_tree_result h tree _ r (built_closed h Hb) Hget
                (lookup_lt_Some _ _ _ Hpg))
      as (sub' & Hsub' & _ & [_ Hes' _ _] & _).
    unfold sub_tree in Hsub'. rewrite Hget in Hsub'. rewrite Hsub in Hsub'.
    by injection Hsub' as <-. }
  assert (Hsame : Py.get second (pages sub) = Py.get second (pages tree)).
  { destruct (Py.get second (pages sub)) as [r|] eqn:Hs;
      [|by apply get_None_keys in Hs].
    destruct (Hes _ _ (get_Some_elem_of _ _ _ Hs)) as (pg & Hpg & Hid).
    destruct (Py.get second (pages tree)) as [r'|] eqn:Ht.
    - destruct (He _ _ (get_Some_elem_of _ _ _ Ht)) as (pg' & Hpg' & Hid').
      f_equal. eapply Hinj; [done | done | congruence].
    - apply get_None_keys in Ht. destruct Ht.
      rewrite Hkeys. apply (add_keys_spec _ [] NoDup_nil_2). right.
      rewrite <- Hids, <- Hid. apply list_elem_of_fmap. exists pg.
      split; [done|]. by eapply list_elem_of_lookup_2. }
  unfold sub_tree. by rewrite Hsame.
Qed.

End sub_tree_twice.

Section selected_pages_samples.
Import client content_filter LibreTextsClient.
Local Open Scope nat_scope.

Lemma selected_pages_are_distinct_witness :
  @filter word_search no_filter (get_page_tree repeated_id_response).1
          (get_page_tree repeated_id_response).2 = Some (Ok [0; 2; 3]) ∧
  ∃ ids, ids_of (get_page_tree repeated_id_response).1 [0; 2; 3] = Some ids ∧
         NoDup (page_content_path <$> ids).
Proof.
  split; [reflexivity|].
  destruct (@selected_pages_are_distinct word_search repeated_id_response no_filter
              [0; 2; 3] eq_refl) as (_ & ids & Hids & _ & Hpaths).
  exists ids. split; [exact Hids | exact Hpaths].
Defined.

Lemma sub_tree_of_sub_tree_witness :
  NoDup (get_all_pages_ids nested_response) ∧
  ∃ sub, sub_tree (get_page_tree nested_response).1 (get_page_tree nested_response).2 "2"
           = Some (Ok sub) ∧
         "3" ∈ Py.keys (pages sub) ∧
         sub_tree (get_page_tree nested_response).1 sub "3"
         = sub_tree (get_page_tree nested_response).1 (get_page_tree nested_response).2 "3".
Proof.
  split; [exact nested_response_ids|].
  eexists. split; [reflexivity|].
  assert (Hin : "3" ∈ ["2"; "3"; "4"]) by (apply list_elem_of_further, list_elem_of_here).
  split; [exact Hin|].
  exact (sub_tree_of_sub_tree nested_response "2" "3" _ nested_response_ids eq_refl Hin).
Defined.

End selected_pages_samples.

(* ------------------------------------------------------------------------- *)
(** ** [asset.py]: what an asset leaves in the archive, and what counts *)
(* ------------------------------------------------------------------------- *)

Section asset_items.
Import asset.
Context `{!World}.
Local Open Scope Z_scope.

(** The item the loop adds: the content of the first candidate that can be
    fetched, when the loop returns and there is one. *)
Definition added_item (ctx : Context) (p : ZimPath) (b : bool)
    (urls : list HttpUrl) (r : result ()) : list (string * bytes) :=
  match r, List.find (fetched ctx p b) urls with
  | Ok _, Some u =>
      match get_asset_content ctx p u b with
      | Ok c => [("content/" +:+ p, c)]
      | Raise _ => []
      end
  | _, _ => []
  end.

(** X10. A call of [process_asset] adds at most one item to the archive:
    when the call returns and a candidate can be fetched, the item
    [content/<asset_path>] with the content of the first such candidate in
    the order of the set's enumeration; nothing when no candidate can be
    fetched, or when the call raises. *)
Theorem process_asset_adds_first_fetched `{!SetIter} (ctx : Context)
    (asset_path : ZimPath) (asset_details : AssetDetails) (st : State) :
  let res := process_asset ctx asset_path asset_details st in
  zim res.1 =
    zim st ++ added_item ctx asset_path (always_fetch_online asset_details)
                (set_iter (asset_urls asset_details)) res.2.
Proof.
  intros res. subst res. unfold process_asset.
  generalize (set_iter (asset_urls asset_details)) as urls.
  generalize (always_fetch_online asset_details) as b.
  intros b urls. revert st. induction urls as [|u urls IH]; intros st.
  - simpl. by rewrite app_nil_r.
  - unfold added_item. simpl. unfold fetched at 1.
    destruct (get_asset_content ctx asset_path u b) as [c|e] eqn:Hget.
    + simpl. by rewrite Hget.
    + assert (Hgo : ∀ st1, zim st1 = zim st →
        zim (process_urls ctx asset_path b urls st1).1 =
          zim st ++ match (process_urls ctx asset_path b urls st1).2,
                          List.find (fetched ctx asset_path b) urls with
                    | Ok _, Some u0 =>
                        match get_asset_content ctx asset_path u0 b with
                        | Ok c => [("content/" +:+ asset_path, c)]
                        | Raise _ => []
                        end
                    | _, _ => []
                    end).
      { intros st1 <-. apply IH. }
      destruct ((0 <=? bad_assets_threshold ctx)
                && (bad_assets_threshold ctx <? bad_assets_count st + 1)) eqn:Hth;
        destruct e; simpl; rewrite ?Hth; simpl;
        try (by rewrite app_nil_r); by apply Hgo.
Qed.

(** X11. A failed attempt counts against the threshold unless it is a
    [RequestException] on a URL that matches the known-bad pattern: a failure
    of another class (decoding the image, the cache) counts also when the URL
    matches, and every failure counts when no pattern is configured. *)
Theorem counted_failures (ctx : Context) (asset_path : ZimPath) (asset_url : HttpUrl)
    (always_fetch_online : bool) :
  counted ctx (asset_path, asset_url, always_fetch_online) = true ↔
  ∃ e, get_asset_content_try ctx asset_path asset_url always_fetch_online = Raise e ∧
       e ≠ Py.KnownBadAssetFailedError ∧
       (Py.is_RequestException e = true →
        ∀ re, bad_assets_regex ctx = Some re → findall re asset_url = false).
Proof.
  unfold counted, get_asset_content. simpl.
  destruct (get_asset_content_try ctx asset_path asset_url always_fetch_online)
    as [c|e] eqn:Htry.
  - split; [done | by intros (e & [=] & _)].
  - destruct (Py.is_RequestException e) eqn:Hreq.
    + destruct (bad_assets_regex ctx) as [re|] eqn:Hre.
      * destruct (findall re asset_url) eqn:Hfind.
        -- split; [done|]. intros (e' & [= <-] & _ & Hno).
           specialize (Hno Hreq re eq_refl). congruence.
        -- split.
           ++ intros Hc. exists e. split_and!; [done | by intros -> |].
              by intros _ re' [= <-].
           ++ intros _. by destruct e.
      * split.
        -- intros Hc. exists e. split_and!; [done | by intros -> | done].
        -- intros _. by destruct e.
    + split.
      * intros Hc. exists e. split_and!; [done | by intros -> | intros; congruence].
      * intros (e' & [= <-] & Hne & _). by destruct e.
Qed.

End asset_items.

Section asset_cache.
Import asset.
Local Open Scope Z_scope.

(** The world [w] with another cache. *)
Definition with_s3 (w : World)
    (download : string → string → result (option bytes))
    (upload : string → string → bytes → result ()) : World :=
  {| stream_file_headers := @stream_file_headers w;
     stream_file := @stream_file w;
     findall := @findall w;
     s3_download := download;
     s3_upload := upload;
     Image_open := @Image_open w;
     resize_cover := @resize_cover w;
     save_webp := @save_webp w |}.

(** X12. Without [s3_url_with_credentials] the cache is not used: what
    [get_asset_content] returns or raises does not depend on it. *)
Theorem no_cache_without_credentials (w : World) download upload (ctx : Context)
    (asset_path : ZimPath) (asset_url : HttpUrl) (always_fetch_online : bool) :
  Py.truthy (s3_url_with_credentials ctx) = false →
  @get_asset_content (with_s3 w download upload) ctx asset_path asset_url
     always_fetch_online
  = @get_asset_content w ctx asset_path asset_url always_fetch_online.
Proof.
  intros Hs3.
  assert (Himg : ∀ hd,
    @_get_image_content (with_s3 w download upload) ctx asset_path asset_url hd
    = @_get_image_content w ctx asset_path asset_url hd).
  { intros hd.
    rewrite (@_get_image_content_unfold (with_s3 w download upload)),
      (@_get_image_content_unfold w).
    by rewrite Hs3. }
  unfold get_asset_content, get_asset_content_try, _get_header_data_for,
    _download_from_online. simpl.
  destruct always_fetch_online; [done|].
  destruct (@stream_file_headers w asset_url) as [headers|]; [|done]. simpl.
  destruct (Py.truthy (content_type (header_data_of headers))); [|done].
  destruct (pystr.mem _ SUPPORTED_IMAGE_MIME_TYPES); [|done].
  by rewrite Himg.
Qed.

(** X13. The content of an image comes from the cache or not at all.
    When [_get_image_content] returns, a cache is configured and the content
    is the copy found in it.  When no copy is found (no cache is configured,
    or the key is not in it), the file that was downloaded and opened is
    neither encoded nor resized: [NameError] is raised. *)
Theorem image_content_only_from_cache `{!World} (ctx : Context) (asset_path : ZimPath)
    (asset_url : HttpUrl) (header_data : HeaderData) :
  (∀ content,
     _get_image_content ctx asset_path asset_url header_data = Ok content →
     Py.truthy (s3_url_with_credentials ctx) = true ∧
     s3_download ("medium/" +:+ asset_path) (ident header_data) = Ok (Some content)) ∧
  (∀ unoptimized image,
     Py.truthy (s3_url_with_credentials ctx) = false ∨
       s3_download ("medium/" +:+ asset_path) (ident header_data) = Ok None →
     stream_file asset_url = Ok unoptimized →
     Image_open unoptimized = Ok image →
     _get_image_content ctx asset_path asset_url header_data = Raise Py.NameError).
Proof.
  rewrite _get_image_content_unfold. split.
  - intros content.
    destruct (Py.truthy (s3_url_with_credentials ctx)); simpl.
    + destruct (s3_download _ _) as [[s3_data|]|]; simpl; [by intros [= ->] | | done].
      destruct (stream_file asset_url) as [body|]; simpl; [|done].
      by destruct (Image_open body).
    + destruct (stream_file asset_url) as [body|]; simpl; [|done].
      by destruct (Image_open body).
  - intros unoptimized image Hmiss Hbody Himage.
    assert (Hcached : (if Py.truthy (s3_url_with_credentials ctx)
                       then s3_download ("medium/" +:+ asset_path) (ident header_data)
                       else Ok None) = Ok None).
    { destruct Hmiss as [-> | Hnone]; [done|].
      by destruct (Py.truthy (s3_url_with_credentials ctx)). }
    rewrite Hcached. simpl. rewrite Hbody. simpl. by rewrite Himage.
Qed.

End asset_cache.

Section asset_samples.
Import asset.
Local Open Scope Z_scope.

(** A run with a cache, and a cache that holds a copy of every image. *)
Definition cache_context : Context :=
  mkContext 10 None 921600 (Some "https://s3.example.org/?keyId=k&secretAccessKey=s").

Definition cached_copy : bytes := [Byte.x52; Byte.x49; Byte.x46; Byte.x46].

Definition full_cache : World :=
  with_s3 (image_server photo) (λ _ _, Ok (Some cached_copy)) (λ _ _ _, Ok ()).

Lemma image_content_only_from_cache_witness :
  @_get_image_content full_cache cache_context
     "example.org/photo.png" "https://example.org/photo.png" (mkHeaderData "-1" None)
    = Ok cached_copy ∧
  (Py.truthy (s3_url_with_credentials cache_context) = true ∧
   @s3_download full_cache ("medium/" +:+ "example.org/photo.png") "-1"
     = Ok (Some cached_copy)) ∧
  @_get_image_content (image_server photo) lenient_context
     "example.org/photo.png" "https://example.org/photo.png" (mkHeaderData "-1" None)
    = Raise Py.NameError.
Proof.
  split; [reflexivity|]. split.
  - exact (proj1 (@image_content_only_from_cache full_cache cache_context
                    "example.org/photo.png" "https://example.org/photo.png"
                    (mkHeaderData "-1" None)) cached_copy eq_refl).
  - exact (proj2 (@image_content_only_from_cache (image_server photo) lenient_context
                    "example.org/photo.png" "https://example.org/photo.png"
                    (mkHeaderData "-1" None)) [] photo (or_introl eq_refl)
                 eq_refl eq_refl).
Defined.

(** A cache that fails is of no consequence when none is configured. *)
Lemma no_cache_without_credentials_witness :
  Py.truthy (s3_url_with_credentials default_context) = false ∧
  @get_asset_content
     (with_s3 (world_without []) (λ _ _, Raise Py.OtherException)
        (λ _ _ _, Raise Py.OtherException))
     default_context "example.org/a.png" "https://example.org/a.png" false
  = @get_asset_content (world_without []) default_context
      "example.org/a.png" "https://example.org/a.png" false.
Proof.
  split; [reflexivity|].
  exact (no_cache_without_credentials (world_without []) _ _ default_context
           "example.org/a.png" "https://example.org/a.png" false eq_refl).
Defined.

End asset_samples.

(* ------------------------------------------------------------------------- *)
(** ** The content type of an asset *)
(* ------------------------------------------------------------------------- *)

Section content_types.
Import asset.
Context `{!World}.

(** [c in s] *)
Fixpoint has_char (c : ascii) (s : string) : bool :=
  match s with
  | EmptyString => false
  | String c' s' => Ascii.eqb c' c || has_char c s'
  end.

Lemma split_first (sep : ascii) (m rest : string) :
  has_char sep m = false →
  hd "" (pystr.split sep (m +:+ String sep rest)) = m.
Proof.
  induction m as [|c m IH]; intros Hm.
  - change ("" +:+ String sep rest) with (String sep rest). simpl.
    by rewrite Ascii.eqb_refl.
  - simpl in Hm. apply orb_false_iff in Hm as [Hc Hm].
    change (String c m +:+ String sep rest) with (String c (m +:+ String sep rest)).
    simpl. rewrite Hc. specialize (IH Hm).
    pose proof (split_nonempty sep (m +:+ String sep rest)) as Hne.
    destruct (pystr.split sep (m +:+ String sep rest)) as [|w ws]; [done|].
    simpl in *. by rewrite IH.
Qed.

Lemma supported_mime_types_plain :
  Forall (λ m, has_char ";" m = false ∧ pystr.strip m = m ∧ m ≠ "")
         SUPPORTED_IMAGE_MIME_TYPES.
Proof. unfold SUPPORTED_IMAGE_MIME_TYPES. repeat constructor; done. Qed.

(** X14. A [Content-Type] that gives a supported image type followed by
    parameters (as in [image/png; charset=binary]) is the content type of an
    image: the asset is handled as an image, by [_get_image_content]. *)
Theorem image_content_type_with_parameters (ctx : Context) (asset_path : ZimPath)
    (asset_url : HttpUrl) (header_data : HeaderData) (mime_type parameters : string) :
  mime_type ∈ SUPPORTED_IMAGE_MIME_TYPES →
  _get_header_data_for asset_url = Ok header_data →
  content_type header_data = Some (mime_type +:+ String ";" parameters) →
  get_asset_content_try ctx asset_path asset_url false
  = _get_image_content ctx asset_path asset_url header_data.
Proof.
  intros Hin Hhd Hct. unfold get_asset_content_try. rewrite Hhd. simpl. rewrite Hct.
  pose proof (proj1 (Forall_forall _ _) supported_mime_types_plain _ Hin)
    as (Hsemi & Hstrip & Hne).
  assert (Htruthy : Py.truthy (Some (mime_type +:+ String ";" parameters)) = true).
  { simpl. apply negb_true_iff, String.eqb_neq. by destruct mime_type. }
  rewrite Htruthy.
  change (default "" (Some (mime_type +:+ String ";" parameters)))
    with (mime_type +:+ String ";" parameters).
  rewrite split_first by done. rewrite Hstrip.
  unfold pystr.mem. by rewrite bool_decide_eq_true_2.
Qed.

End content_types.

Section content_types_samples.
Import asset.

(** A server that answers every URL with a PNG image of 4 by 3 pixels,
    under the given content type. *)
Definition png_server (content_type : string) : World :=
  {| stream_file_headers _ := Ok (<["Content-Type" := content_type]> ∅);
     stream_file _ := Ok [];
     findall re s := occurs_in re s;
     s3_download _ _ := Ok None;
     s3_upload _ _ _ := Ok ();
     Image_open _ := Ok (mkImage 4 3 []);
     resize_cover _ w h := Ok (mkImage w h []);
     save_webp image := Ok (pixels image) |}.

Lemma image_content_type_with_parameters_witness :
  "image/png" ∈ SUPPORTED_IMAGE_MIME_TYPES ∧
  @get_asset_content_try (png_server "image/png; charset=binary") default_context
     "example.org/a.png" "https://example.org/a.png" false
  = @_get_image_content (png_server "image/png; charset=binary") default_context
      "example.org/a.png" "https://example.org/a.png"
      (mkHeaderData "-1" (Some "image/png; charset=binary")).
Proof.
  assert (Hin : "image/png" ∈ SUPPORTED_IMAGE_MIME_TYPES)
    by (apply list_elem_of_further, list_elem_of_here).
  split; [exact Hin|].
  exact (@image_content_type_with_parameters (png_server "image/png; charset=binary")
           default_context "example.org/a.png" "https://example.org/a.png"
           (mkHeaderData "-1" (Some "image/png; charset=binary"))
           "image/png" " charset=binary" Hin eq_refl eq_refl).
Defined.

End content_types_samples.

(* ------------------------------------------------------------------------- *)
(** ** The HTML rules: what becomes of the tags and their attributes *)
(* ------------------------------------------------------------------------- *)

Section html_output.
Import processor.
Context `{!UrlRewriting}.

(** The attributes of a tag that the drop rule keeps. *)
Definition kept (tag : string) (attrs : list attr) : list attr :=
  List.filter (λ a : attr, negb (drop_sizes_and_srcset_attribute tag a.1)) attrs.

(** An [href] or [src] attribute with a non-empty value. *)
Definition is_link (a : attr) : bool :=
  pystr.mem a.1 ["href"; "src"] && Py.truthy a.2.

(** An attribute and what the rules made of it: the name is the same; the
    attribute is the same when it is not a link, and has a non-empty value
    when it is one. *)
Definition attr_rewritten (a a' : attr) : Prop :=
  a'.1 = a.1 ∧
  if is_link a then ∃ v', a'.2 = Some v' ∧ v' ≠ "" else a' = a.

Lemma truthy_nonempty (v : option string) :
  Py.truthy v = true → ∃ s, v = Some s ∧ s ≠ "".
Proof.
  destruct v as [s|]; [|done]. simpl. intros Hs. exists s. split; [done|].
  intros ->. done.
Qed.

Lemma rewrite_href_src_attributes_shape tag n v r base res r' :
  rewrite_href_src_attributes tag n v r base = Ok (res, r') →
  attr_rewritten (n, v) (match res with Some (n', v') => (n', Some v') | None => (n, v) end).
Proof.
  unfold rewrite_href_src_attributes, attr_rewritten, is_link. simpl.
  destruct (pystr.mem n ["href"; "src"]); simpl;
    [|by intros [= <- <-]].
  destruct (Py.truthy v); simpl; [|by intros [= <- <-]].
  match goal with
  | |- (let '(x, y) := ?p in _) = _ → _ => destruct p as [new r1]
  end.
  destruct (Py.truthy new) eqn:Hnew; [|done]. intros [= <- <-]. simpl.
  split; [done|]. destruct (truthy_nonempty _ Hnew) as (s & -> & Hs). by exists s.
Qed.

Lemma rewrite_attrs_shape tag attrs r base attrs' r' :
  rewrite_attrs tag attrs r base = Ok (attrs', r') →
  Forall2 attr_rewritten (kept tag attrs) attrs'.
Proof.
  revert r attrs'. induction attrs as [|[n v] attrs IH]; intros r attrs' Hrun;
    simpl in Hrun.
  - injection Hrun as <- <-. constructor.
  - unfold kept. simpl.
    destruct (drop_sizes_and_srcset_attribute tag n) eqn:Hdrop; simpl.
    + by eapply IH.
    + destruct (rewrite_href_src_attributes tag n v r base) as [[res r1]|] eqn:Hrule;
        [|done]. simpl in Hrun.
      destruct (rewrite_attrs tag attrs r1 base) as [[rest r2]|] eqn:Hrest; [|done].
      simpl in Hrun. injection Hrun as <- <-.
      apply rewrite_href_src_attributes_shape in Hrule.
      destruct res as [[n' v']|]; (constructor; [done | by eapply IH]).
Qed.

(** X15. A page that is rewritten keeps its tags, in their order and with
    their names; of the attributes of a tag, only [srcset] and [sizes] of an
    [img] go, and those that stay keep their order and their names; an
    attribute that is not an [href] or [src] with a non-empty value keeps its
    value, and a rewritten [href] or [src] has a non-empty value. *)
Theorem rewrite_html_keeps_structure (tags : list start_tag)
    (url_rewriter : HtmlUrlsRewriter) (base_href : option string)
    (tags' : list start_tag) (url_rewriter' : HtmlUrlsRewriter) :
  rewrite_html tags url_rewriter base_href = Ok (tags', url_rewriter') →
  Forall2 (λ t t', tag_name t' = tag_name t ∧
                   Forall2 attr_rewritten (kept (tag_name t) (tag_attrs t)) (tag_attrs t'))
          tags tags'.
Proof.
  revert url_rewriter tags'.
  induction tags as [|t tags IH]; intros r tags' Hrun; simpl in Hrun.
  - injection Hrun as <- <-. constructor.
  - unfold rewrite_start_tag in Hrun.
    destruct (refuse_unsupported_tags (tag_name t)); [|done]. simpl in Hrun.
    destruct (rewrite_attrs (tag_name t) (tag_attrs t) r base_href) as [[attrs r1]|] eqn:Ha;
      [|done]. simpl in Hrun.
    destruct (rewrite_html tags r1 base_href) as [[rest r2]|] eqn:Hrest; [|done].
    simpl in Hrun. injection Hrun as <- <-.
    constructor; [|by eapply IH]. simpl. split; [done|].
    by eapply rewrite_attrs_shape.
Qed.

(** What the rules make of an attribute of an [img] tag. *)
Definition img_attr (page_url : HttpUrl) (base_href : option string) (a : attr) : attr :=
  if is_link a
  then (a.1, Some ("content/" +:+
                   rewriten_url (rewrite_url page_url (default "" a.2) base_href true)))
  else a.

Lemma rewrite_attrs_img attrs r base :
  ∃ r', rewrite_attrs "img" attrs r base
          = Ok (img_attr (page_url r) base <$> kept "img" attrs, r') ∧
        page_url r' = page_url r ∧ library_path r' = library_path r.
Proof.
  revert r. induction attrs as [|[n v] attrs IH]; intros r; simpl.
  - by exists r.
  - unfold kept. simpl.
    destruct (drop_sizes_and_srcset_attribute "img" n) eqn:Hdrop; simpl.
    + apply IH.
    + unfold rewrite_href_src_attributes, img_attr at 1, is_link. simpl.
      destruct (pystr.mem n ["href"; "src"]); simpl.
      * destruct (Py.truthy v); simpl.
        -- match goal with
           | |- context [with_items r ?d] =>
               destruct (IH (with_items r d)) as (r' & -> & Hu & Hl)
           end.
           simpl in *. by exists r'.
        -- destruct (IH r) as (r' & -> & Hu & Hl). by exists r'.
      * destruct (IH r) as (r' & -> & Hu & Hl). by exists r'.
Qed.

(** X16. An [img] tag is never refused: whatever its attributes, the
    rules return; [srcset] and [sizes] are dropped, an [href] or [src] with a
    non-empty value becomes [content/] followed by the rewritten URL, and the
    other attributes stay as they are, in their order. *)
Theorem img_tag_rewritten (attrs : list attr) (url_rewriter : HtmlUrlsRewriter)
    (base_href : option string) :
  ∃ url_rewriter',
    rewrite_start_tag (mkTag "img" attrs) url_rewriter base_href
      = Ok (mkTag "img" (img_attr (page_url url_rewriter) base_href <$> kept "img" attrs),
            url_rewriter') ∧
    page_url url_rewriter' = page_url url_rewriter ∧
    library_path url_rewriter' = library_path url_rewriter.
Proof.
  destruct (rewrite_attrs_img attrs url_rewriter base_href) as (r' & Hrun & Hu & Hl).
  exists r'. split; [|done].
  unfold rewrite_start_tag. simpl. rewrite Hrun. done.
Qed.

Lemma prefix_app (p s : string) : String.prefix p (p +:+ s) = true.
Proof.
  induction p as [|c p IH]; simpl; [by destruct s|].
  destruct (ascii_dec c c); [done | congruence].
Qed.

Lemma drop_chars_app (p s : string) :
  drop_chars (String.length p) (p +:+ s) = s.
Proof. induction p as [|c p IH]; simpl; [by destruct s | done]. Qed.

Lemma prefix_drop_chars (p u : string) :
  String.prefix p u = true → u = p +:+ drop_chars (String.length p) u.
Proof.
  revert u. induction p as [|c p IH]; intros u; simpl; [by destruct u|].
  destruct u as [|c' u]; simpl; [done|]. destruct (ascii_dec c c') as [<-|]; [|done].
  intros Hp. change (String c u = String c (p +:+ drop_chars (String.length p) u)).
  f_equal. by apply IH.
Qed.

(** X17. The [href] (or [src]) of an [a] tag, when it has a non-empty
    value: a link that is rewritten to a URL below the library path becomes
    the route [#/] followed by the rest of that URL; another link becomes the
    rewritten URL, and [ValueError] is raised when that URL is empty. In no
    case is a download scheduled. *)
Theorem anchor_link_rewritten (attr_name v : string)
    (url_rewriter : HtmlUrlsRewriter) (base_href : option string) :
  attr_name ∈ ["href"; "src"] → v ≠ "" →
  let u := rewriten_url (rewrite_url (page_url url_rewriter) v base_href false) in
  (∀ rest, u = library_path url_rewriter +:+ rest →
     rewrite_href_src_attributes "a" attr_name (Some v) url_rewriter base_href
       = Ok (Some (attr_name, "#/" +:+ rest), url_rewriter)) ∧
  ((∀ rest, u ≠ library_path url_rewriter +:+ rest) →
     rewrite_href_src_attributes "a" attr_name (Some v) url_rewriter base_href
       = if decide (u = "") then Raise Py.ValueError
         else Ok (Some (attr_name, u), url_rewriter)).
Proof.
  intros Hn Hv u. unfold rewrite_href_src_attributes, pystr.mem.
  rewrite bool_decide_eq_true_2 by done. simpl.
  assert (Hvt : negb (v =? "") = true).
  { apply negb_true_iff, String.eqb_neq. done. }
  rewrite Hvt. simpl. fold u. split.
  - intros rest Hu. rewrite Hu, prefix_app, drop_chars_app. done.
  - intros Hno. destruct (String.prefix (library_path url_rewriter) u) eqn:Hp.
    + apply prefix_drop_chars in Hp. by destruct (Hno _ Hp).
    + destruct (decide (u = "")) as [->|Hne]; [done|].
      assert (Hut : negb (u =? "") = true).
      { apply negb_true_iff, String.eqb_neq. done. }
      simpl. rewrite Hut. done.
Qed.

End html_output.

Section html_output_samples.
Import processor.
#[local] Existing Instance absolute_rewriting.

Definition figure_page : list start_tag :=
  [ mkTag "p" [("class", Some "lead")];
    mkTag "img" [("src", Some "https://example.org/a.png");
                 ("srcset", Some "https://example.org/a.png 2x"); ("alt", Some "")];
    mkTag "a" [("href", Some "https://example.org/Bookshelves/Other")] ].

Lemma rewrite_html_keeps_structure_witness :
  ∃ tags' r',
    rewrite_html figure_page page_rewriter None = Ok (tags', r') ∧
    Forall2 (λ t t', tag_name t' = tag_name t ∧
                     Forall2 attr_rewritten (kept (tag_name t) (tag_attrs t))
                             (tag_attrs t'))
            figure_page tags'.
Proof.
  eexists _, _. split; [reflexivity|].
  eapply (rewrite_html_keeps_structure figure_page page_rewriter None). reflexivity.
Defined.

Example rewrite_html_figure_page :
  ∃ r', rewrite_html figure_page page_rewriter None =
    Ok ([ mkTag "p" [("class", Some "lead")];
          mkTag "img" [("src", Some "content/example.org/a.png"); ("alt", Some "")];
          mkTag "a" [("href", Some "#/Bookshelves/Other")] ], r').
Proof. eexists. reflexivity. Qed.

Lemma anchor_link_rewritten_witness :
  "href" ∈ ["href"; "src"] ∧
  rewrite_href_src_attributes "a" "href" (Some "https://example.org/Bookshelves/Other")
    page_rewriter None
  = Ok (Some ("href", "#/Bookshelves/Other"), page_rewriter).
Proof.
  split; [apply list_elem_of_here|].
  apply (proj1 (anchor_link_rewritten "href" "https://example.org/Bookshelves/Other"
                  page_rewriter None (list_elem_of_here _ _) ltac:(discriminate))
               "Bookshelves/Other").
  reflexivity.
Defined.

End html_output_samples.

(* ------------------------------------------------------------------------- *)
(** ** The asset loop of [Processor.run] *)
(* ------------------------------------------------------------------------- *)

Section run_assets.
Import processor.
Context `{!asset.World} `{!SetIter}.

(** The item holds what a candidate of a path of the map answered. *)
Definition downloaded (items : list (ZimPath * gset HttpUrl)) (item : string * bytes)
  : Prop :=
  ∃ asset_path asset_urls asset_url,
    (asset_path, asset_urls) ∈ items ∧ asset_url ∈ asset_urls ∧
    item.1 = "content/" +:+ asset_path ∧ asset.stream_file asset_url = Ok item.2.

(** The download of the URL returns, or raises [HTTPError]. *)
Definition tolerated (u : HttpUrl) : Prop :=
  match asset.stream_file u with
  | Ok _ | Raise Py.HTTPError => True
  | Raise _ => False
  end.

(** The outcome of a loop that requested the URLs [new]: it returns when
    every download returned or raised [HTTPError]; it raises what the last
    download raised otherwise. *)
Definition loop_outcome (new : list HttpUrl) (r : result ()) : Prop :=
  match r with
  | Ok _ => Forall tolerated new
  | Raise e =>
      e ≠ Py.HTTPError ∧
      ∃ pre u, new = pre ++ [u] ∧ Forall tolerated pre ∧ asset.stream_file u = Raise e
  end.

Lemma download_first_spec asset_path urls st :
  let res := download_first asset_path urls st in
  ∃ new, requested res.1 = requested st ++ new ∧ new `sublist_of` urls ∧
         loop_outcome new res.2 ∧
         (zim res.1 = zim st ∨
          ∃ u c, u ∈ urls ∧ asset.stream_file u = Ok c ∧
                 zim res.1 = zim st ++ [("content/" +:+ asset_path, c)]).
Proof.
  revert st. induction urls as [|u urls IH]; intros st; simpl.
  - exists []. rewrite app_nil_r. split_and!; [done | done | by constructor | by left].
  - destruct (asset.stream_file u) as [c|e] eqn:Hget.
    + simpl. exists [u]. split; [done|]. split; [|split].
      * apply sublist_skip, sublist_nil_l.
      * apply Forall_singleton. unfold tolerated. by rewrite Hget.
      * right. exists u, c. split_and!; [apply list_elem_of_here | done | done].
    + destruct (decide (e = Py.HTTPError)) as [->|Hne].
      * destruct (IH (mkRunState (zim st) (requested st ++ [u])))
          as (new & Hreq & Hsub & Hout & Hzim). simpl in *.
        exists (u :: new). split; [|split; [|split]].
        -- rewrite Hreq, <- app_assoc. done.
        -- by apply sublist_skip.
        -- assert (Hu : tolerated u) by (unfold tolerated; by rewrite Hget).
           unfold loop_outcome in *.
           destruct (download_first asset_path urls _).2 as [|e'].
           ++ by apply Forall_cons.
           ++ destruct Hout as (Hne' & pre & u' & -> & Hpre & Hraise).
              split; [done|]. exists (u :: pre), u'.
              split_and!; [done | by apply Forall_cons | done].
        -- destruct Hzim as [Hz|(u' & c & Hin & Hc & Hz)]; [by left|].
           right. exists u', c. split_and!; [by apply list_elem_of_further | done | done].
      * assert (Hres : match e with
                       | Py.HTTPError =>
                           download_first asset_path urls
                             (mkRunState (zim st) (requested st ++ [u]))
                       | _ => (mkRunState (zim st) (requested st ++ [u]), Raise e)
                       end = (mkRunState (zim st) (requested st ++ [u]), Raise e))
          by (by destruct e).
        rewrite Hres. simpl. exists [u]. split; [done|]. split; [|split; [|by left]].
        -- apply sublist_skip, sublist_nil_l.
        -- split; [done|]. exists [], u. split_and!; [done | by constructor | done].
Qed.

Lemma loop_outcome_app new1 new2 r :
  loop_outcome new1 (Ok ()) → loop_outcome new2 r → loop_outcome (new1 ++ new2) r.
Proof.
  unfold loop_outcome. intros H1 H2. destruct r as [|e].
  - apply Forall_app. by split.
  - destruct H2 as (Hne & pre & u & -> & Hpre & Hraise). split; [done|].
    exists (new1 ++ pre), u. rewrite app_assoc. split_and!; [done | | done].
    apply Forall_app. by split.
Qed.

(** The candidates of the map, in the order in which the loop meets
    them. *)
Definition candidates (items : list (ZimPath * gset HttpUrl)) : list HttpUrl :=
  items ≫= λ item, set_iter item.2.

Lemma download_assets_spec items st :
  let res := download_assets items st in
  ∃ new added,
    requested res.1 = requested st ++ new ∧ loop_outcome new res.2 ∧
    new `sublist_of` candidates items ∧
    zim res.1 = zim st ++ added ∧
    added.*1 `sublist_of` ((λ p, "content/" +:+ p) <$> items.*1) ∧
    Forall (downloaded items) added.
Proof.
  revert st. induction items as [|[p urls] items IH]; intros st; simpl.
  - exists [], []. rewrite !app_nil_r.
    split_and!; [done | by constructor | done | done | done | done].
  - pose proof (download_first_spec p (set_iter urls) st) as Hfirst.
    destruct (download_first p (set_iter urls) st) as [st1 r1]. simpl in Hfirst.
    destruct Hfirst as (new1 & Hreq1 & Hsub1 & Hout1 & Hzim1).
    assert (Hadd1 : ∃ added1, zim st1 = zim st ++ added1 ∧
              added1.*1 `sublist_of` ["content/" +:+ p] ∧
              Forall (downloaded ((p, urls) :: items)) added1).
    { destruct Hzim1 as [Hz|(u & c & Hin & Hc & Hz)].
      - exists []. rewrite app_nil_r. split_and!; [done | apply sublist_nil_l | done].
      - exists [("content/" +:+ p, c)]. split_and!; [done | done |].
        apply Forall_singleton. exists p, urls, u.
        split_and!; [apply list_elem_of_here | | done | done].
        apply elem_of_elements. by rewrite <- (set_iter_perm urls). }
    destruct Hadd1 as (added1 & Hz1 & Hs1 & Hd1).
    destruct r1 as [[]|e].
    + specialize (IH st1). destruct (download_assets items st1) as [st2 r2].
      simpl in *.
      destruct IH as (new2 & added2 & Hreq2 & Hout2 & Hsub2 & Hz2 & Hs2 & Hd2).
      exists (new1 ++ new2), (added1 ++ added2). split_and!.
      * by rewrite Hreq2, Hreq1, <- app_assoc.
      * by apply loop_outcome_app.
      * by apply sublist_app.
      * by rewrite Hz2, Hz1, <- app_assoc.
      * rewrite fmap_app. exact (sublist_app _ [_] _ _ Hs1 Hs2).
      * apply Forall_app. split; [done|].
        eapply Forall_impl; [exact Hd2|].
        intros item (p' & urls' & u' & Hin & ?). exists p', urls', u'.
        split; [by apply list_elem_of_further | done].
    + simpl. exists new1, added1.
      split; [done|]. split; [exact Hout1|].
      split; [by apply sublist_inserts_r|]. split; [done|]. split; [|done].
      rewrite <- (app_nil_r added1.*1).
      exact (sublist_app _ [_] _ _ Hs1 (sublist_nil_l _)).
Qed.

(** X18. The asset loop of [Processor.run] adds to the archive only what
    a candidate of a path answered, under [content/<path>], at most one item
    per path and in the order of the map: no path is added twice when the keys
    of the map are distinct. *)
Theorem download_assets_items (items : list (ZimPath * gset HttpUrl)) (st : RunState) :
  ∃ added,
    zim (download_assets items st).1 = zim st ++ added ∧
    added.*1 `sublist_of` ((λ p, "content/" +:+ p) <$> items.*1) ∧
    Forall (downloaded items) added ∧
    (NoDup items.*1 → NoDup added.*1).
Proof.
  destruct (download_assets_spec items st) as (new & added & _ & _ & _ & Hz & Hs & Hd).
  exists added. split_and!; [done | done | done |].
  intros Hnd. eapply sublist_NoDup; [|exact Hs].
  apply NoDup_fmap_2; [|done]. intros a b Heq. simpl in Heq. by injection Heq.
Qed.

(** X19. The asset loop of [Processor.run] requests candidates of the map
    only, in the order of the map and each at most once; it goes on after a
    download that raises [HTTPError], and stops at the first download that
    raises an exception of another class: the exception leaves the loop, and
    no other URL is requested. *)
Theorem download_assets_errors (items : list (ZimPath * gset HttpUrl)) (st : RunState) :
  ∃ new,
    requested (download_assets items st).1 = requested st ++ new ∧
    new `sublist_of` candidates items ∧
    match (download_assets items st).2 with
    | Ok _ => Forall tolerated new
    | Raise e =>
        e ≠ Py.HTTPError ∧
        ∃ pre u, new = pre ++ [u] ∧ Forall tolerated pre ∧
                 asset.stream_file u = Raise e
    end.
Proof.
  destruct (download_assets_spec items st) as (new & added & Hreq & Hout & Hsub & _).
  exists new. split_and!; [done | done |]. exact Hout.
Qed.

End run_assets.

Section run_assets_samples.
Import processor.

(** Two assets; the only candidate of the first one is not found. *)
Definition two_assets : list (ZimPath * gset HttpUrl) :=
  [ ("example.org/a.png", {["https://example.org/a.png"]});
    ("example.org/b.css", {["https://example.org/b.css"]}) ].

Lemma two_assets_paths : NoDup two_assets.*1.
Proof.
  apply NoDup_cons. split; [|apply NoDup_singleton].
  by intros [=]%list_elem_of_singleton.
Qed.

Lemma download_assets_items_witness :
  NoDup two_assets.*1 ∧
  ∃ added,
    zim (@download_assets (world_without ["https://example.org/a.png"])
           representation_order two_assets (mkRunState [] [])).1 = [] ++ added ∧
    NoDup added.*1.
Proof.
  split; [exact two_assets_paths|].
  destruct (@download_assets_items (world_without ["https://example.org/a.png"])
              representation_order two_assets (mkRunState [] []))
    as (added & Hz & _ & _ & Hnd).
  exists added. split; [exact Hz | exact (Hnd two_assets_paths)].
Defined.

Example download_assets_skips_missing :
  @download_assets (world_without ["https://example.org/a.png"])
     representation_order two_assets (mkRunState [] [])
  = (mkRunState [("content/example.org/b.css", [])]
       ["https://example.org/a.png"; "https://example.org/b.css"], Ok ()).
Proof. reflexivity. Qed.

End run_assets_samples.

(* ------------------------------------------------------------------------- *)
(** ** The illustration and the progress reports *)
(* ------------------------------------------------------------------------- *)

Section illustration_facts.
Import illustration.
Context `{!asset.World} `{!Imaging}.

Definition fails (icon_url : string) : Prop :=
  ∃ e, fetch_one icon_url = Raise e.

Lemma fetch_loop_spec icon_urls warnings :
  match (fetch_loop icon_urls warnings).2 with
  | Return png =>
      ∃ failed icon_url rest,
        icon_urls = failed ++ icon_url :: rest ∧ Forall fails failed ∧
        fetch_one icon_url = Ok png ∧
        (fetch_loop icon_urls warnings).1 = warnings ++ failed
  | NoIllustrationFoundError =>
      Forall fails icon_urls ∧
      (fetch_loop icon_urls warnings).1 = warnings ++ icon_urls
  end.
Proof.
  revert warnings. induction icon_urls as [|u icon_urls IH]; intros warnings; simpl.
  - by rewrite app_nil_r.
  - destruct (fetch_one u) as [png|e] eqn:Hu; simpl.
    + exists [], u, icon_urls. by rewrite app_nil_r.
    + specialize (IH (warnings ++ [u])).
      assert (Hf : fails u) by by exists e.
      destruct (fetch_loop icon_urls (warnings ++ [u])) as [w [png|]]; simpl in *.
      * destruct IH as (failed & v & rest & -> & Hfailed & Hv & ->).
        exists (u :: failed), v, rest.
        split_and!; [done | by apply Forall_cons | done | by rewrite <- app_assoc].
      * destruct IH as [Hall ->]. split; [by apply Forall_cons | by rewrite <- app_assoc].
Qed.

(** X20. [_fetch_zim_illustration] tries the URL given by the user, and
    only that one, when there is one (a non-empty string), the icons of the
    home page in their order otherwise; it returns the image of the first URL
    from which an image can be fetched and resized, after a warning for each
    URL before it, and raises [NoIllustrationFoundError] when there is
    none. *)
Theorem fetch_zim_illustration_first (illustration_url : option string)
    (icons_urls : list string) :
  let candidates := if Py.truthy illustration_url
                    then [default "" illustration_url] else icons_urls in
  match (_fetch_zim_illustration illustration_url icons_urls).2 with
  | Return png =>
      ∃ failed icon_url rest,
        candidates = failed ++ icon_url :: rest ∧ Forall fails failed ∧
        fetch_one icon_url = Ok png ∧
        (_fetch_zim_illustration illustration_url icons_urls).1 = failed
  | NoIllustrationFoundError =>
      Forall fails candidates ∧
      (_fetch_zim_illustration illustration_url icons_urls).1 = candidates
  end.
Proof.
  intros candidates. unfold _fetch_zim_illustration. fold candidates.
  exact (fetch_loop_spec candidates []).
Qed.

End illustration_facts.

Section progress_facts.
Import progress.
Local Open Scope Z_scope.

(** What the reports written so far show, when [T] items at least are
    announced: fewer items done than announced, and no more announced than
    known. *)
Definition behind (T : Z) (s : Stats) : Prop :=
  Forall (λ r : Z * Z, 0 ≤ r.1 < r.2 ∧ r.2 ≤ T) (reports s).

Lemma for_each_spec due n s T :
  behind T s →
  0 ≤ stats_items_done s →
  stats_items_done s + Z.of_nat n < stats_items_total s ≤ T →
  let s' := for_each due n s in
  behind T s' ∧
  stats_items_done s' = stats_items_done s + Z.of_nat n ∧
  stats_items_total s' = stats_items_total s.
Proof.
  revert s. induction n as [|n IH]; intros s Hb H0 Hlt; simpl.
  - split_and!; [done | lia | done].
  - destruct (IH (run_pending due (add_done s))) as (Hb' & Hd' & Ht').
    + unfold behind, run_pending. destruct (due (pending_calls (add_done s))); simpl.
      * apply Forall_app. split; [done|]. apply Forall_singleton. simpl. lia.
      * done.
    + unfold run_pending. destruct (due _); simpl; lia.
    + unfold run_pending. destruct (due _); simpl; lia.
    + split_and!; [done | |].
      * rewrite Hd'. unfold run_pending. destruct (due _); simpl; lia.
      * rewrite Ht'. unfold run_pending. by destruct (due _).
Qed.

(** X21. The progress of a run, when the folders hold as many files as
    were counted: every report written before the last statement of [run]
    shows fewer items done than the total it shows, and the report of the
    last statement shows all the items done: one more than the files, pages
    and assets. *)
Theorem progress_complete_at_the_end (due : nat → bool)
    (count_zimui_files zimui_files count_mathjax_files mathjax_files
     selected_pages items_to_download : nat) :
  count_zimui_files = zimui_files →
  count_mathjax_files = mathjax_files →
  let T := 1 + Z.of_nat (zimui_files + mathjax_files + selected_pages
                         + items_to_download) in
  ∃ before,
    reports (run due count_zimui_files zimui_files count_mathjax_files mathjax_files
               selected_pages items_to_download) = before ++ [(T, T)] ∧
    Forall (λ r : Z * Z, 0 ≤ r.1 < r.2 ∧ r.2 ≤ T) before.
Proof.
  intros -> -> T. unfold run.
  set (s0 := add_total zimui_files (_report_progress init)).
  assert (Hb0 : behind T s0).
  { unfold behind. simpl. apply Forall_singleton. simpl. lia. }
  destruct (for_each_spec due zimui_files s0 T Hb0) as (Hb1 & Hd1 & Ht1);
    [simpl; lia | simpl; lia |].
  set (s1 := for_each due zimui_files s0) in *.
  set (s1' := add_total mathjax_files s1).
  destruct (for_each_spec due mathjax_files s1' T Hb1) as (Hb2 & Hd2 & Ht2);
    [simpl in *; lia | simpl in *; lia |].
  set (s2 := for_each due mathjax_files s1') in *.
  set (s2' := add_total selected_pages s2).
  destruct (for_each_spec due selected_pages s2' T Hb2) as (Hb3 & Hd3 & Ht3);
    [simpl in *; lia | simpl in *; lia |].
  set (s3 := for_each due selected_pages s2') in *.
  set (s3' := add_total items_to_download s3).
  destruct (for_each_spec due items_to_download s3' T Hb3) as (Hb4 & Hd4 & Ht4);
    [simpl in *; lia | simpl in *; lia |].
  set (s4 := for_each due items_to_download s3') in *.
  exists (reports s4). split; [|exact Hb4].
  simpl. do 2 f_equal. f_equal; simpl in *; lia.
Qed.

End progress_facts.

Section illustration_samples.
Import illustration.

(** Images that are PNG files already and need no resizing. *)
Definition png_imaging : Imaging :=
  {| format_for _ := Ok (Some "PNG");
     convert_svg2png src _ _ := Ok src;
     convert_image src _ := Ok src;
     resize_image src _ _ := Ok src |}.

(** The URL given by the user is not found: the icon of the home page,
    which would do, is not tried. *)
Example illustration_url_only :
  @_fetch_zim_illustration (world_without ["https://example.org/logo.svg"]) png_imaging
     (Some "https://example.org/logo.svg") ["https://example.org/favicon.ico"]
    = (["https://example.org/logo.svg"], NoIllustrationFoundError) ∧
  @_fetch_zim_illustration (world_without ["https://example.org/logo.svg"]) png_imaging
     None ["https://example.org/logo.svg"; "https://example.org/favicon.ico"]
    = (["https://example.org/logo.svg"], Return []).
Proof. split; reflexivity. Qed.

End illustration_samples.

Section progress_samples.
Import progress.
Local Open Scope Z_scope.

(** A run over 2 files of the user interface, 1 of MathJax, 2 pages and 1
    asset, in which the report is due at every third call. *)
Lemma progress_complete_at_the_end_witness :
  ∃ before,
    reports (run (λ k, (k mod 3 =? 2)%nat) 2 2 1 1 2 1) = before ++ [(7, 7)] ∧
    Forall (λ r : Z * Z, 0 ≤ r.1 < r.2 ∧ r.2 ≤ 7) before.
Proof.
  exact (progress_complete_at_the_end (λ k, (k mod 3 =? 2)%nat) 2 2 1 1 2 1
           eq_refl eq_refl).
Defined.

Example progress_reports :
  reports (run (λ k, (k mod 3 =? 2)%nat) 2 2 1 1 2 1) = [(0, 1); (3, 4); (6, 7); (7, 7)].
Proof. reflexivity. Qed.

(** When the folder holds more files than were counted, a report can show
    all the items done before the run is over. *)
Example progress_miscounted :
  reports (run (λ _, true) 1 2 0 0 0 0) = [(0, 1); (1, 2); (2, 2); (3, 2)].
Proof. reflexivity. Qed.

End progress_samples.

(* ------------------------------------------------------------------------- *)
(** ** The answers of the API, the cache files, the slug *)
(* ------------------------------------------------------------------------- *)

Section api_answers.
Import pyjson LibreTextsClient.

(** X22. [get_page_content] returns a content for the answers of one
    shape only: an object whose [body] is a list that starts with a string
    and an object whose [@target] is ["toc"]; the content is that string. An
    answer whose [body] is a string, or a list of one element, is refused. *)
Theorem get_page_content_accepts (tree : value) (html_body : string) :
  get_page_content tree = Returns html_body ↔
  ∃ d toc rest,
    tree = JDict d ∧
    Py.get "body" d = Some (JList (JStr html_body :: JDict toc :: rest)) ∧
    Py.get "@target" toc = Some (JStr "toc").
Proof.
  unfold get_page_content. split.
  - destruct tree as [| | | | |d]; try done. simpl.
    destruct (Py.get "body" d) as [body|] eqn:Hbody; [|done]. simpl.
    destruct body as [| | |s|l|b]; try done; simpl.
    + destruct (String.get 0 s); [|done]. simpl.
      destruct (String.get 1 s); [|done]. done.
    + destruct l as [|body0 l]; [done|]. simpl.
      destruct body0 as [| | |s| |]; try done. simpl.
      destruct l as [|body1 l]; [done|]. simpl.
      destruct body1 as [| | | | |toc]; try done. simpl.
      unfold Py.contains.
      destruct (Py.get "@target" toc) as [target|] eqn:Htarget; [|done]. simpl.
      destruct target as [| | |t| |]; try done. simpl.
      destruct (String.eqb_spec t "toc") as [->|]; [|done]. simpl.
      intros [= ->]. by exists d, toc, l.
  - intros (d & toc & rest & -> & Hbody & Htarget). simpl.
    rewrite Hbody. simpl. unfold Py.contains. rewrite Htarget. done.
Qed.

Lemma endswith_slash_app (s : string) (c : ascii) (t : string) :
  endswith_slash (s +:+ String c t) = endswith_slash (String c t).
Proof.
  induction s as [|a s IH]; [done|].
  change (endswith_slash (String a (s +:+ String c t)) = endswith_slash (String c t)).
  rewrite <- IH. simpl. by destruct s.
Qed.

(** X23. The cache file of a sub-path never has a name that ends with a
    slash: [index] is appended to such a name. So the sub-paths [p/] and
    [p/index], for a non-empty [p], are cached in the same file. *)
Theorem cache_file_is_not_a_folder (url_subpath_and_query : string)
    (c : ascii) (p : string) :
  endswith_slash (_get_cache_file url_subpath_and_query) = false ∧
  _get_cache_file (String c p +:+ "/") = _get_cache_file (String c p +:+ "/index").
Proof.
  split.
  - unfold _get_cache_file.
    assert (Hgo : ∀ s, endswith_slash (if endswith_slash s then s +:+ "index" else s)
                       = false).
    { intros s. destruct (endswith_slash s) eqn:Hs; [|done].
      by rewrite endswith_slash_app. }
    apply Hgo.
  - unfold _get_cache_file.
    assert (Hgo : ∀ t, (if endswith_slash (t +:+ "/") then (t +:+ "/") +:+ "index"
                        else t +:+ "/")
                       = (if endswith_slash (t +:+ "/index") then (t +:+ "/index") +:+ "index"
                          else t +:+ "/index")).
    { intros t. rewrite !endswith_slash_app. simpl.
      induction t as [|a t IH]; [done|].
      change (String a ((t +:+ "/") +:+ "index") = String a (t +:+ "/index")).
      by f_equal. }
    destruct (decide (c = "/"%char)) as [->|Hc].
    + apply (Hgo p).
    + assert (Heq : ∀ t, match String c p +:+ t with
                         | String "/" rest => rest
                         | _ => String c p +:+ t
                         end = String c p +:+ t).
      { intros t. simpl.
        destruct c as [[] [] [] [] [] [] [] []]; try done. }
      rewrite !Heq. apply (Hgo (String c p)).
Qed.

End api_answers.

Section slug.
Import LibreTextsMetadata.

(** X24. The [clean_slug] placeholder has the length of the slug and
    holds only letters, digits, dots and dashes; a slug that holds only such
    characters is its own [clean_slug], and cleaning twice changes nothing
    more. *)
Theorem clean_slug_is_safe (slug : string) :
  String.length (clean_slug slug) = String.length slug ∧
  Forall (λ c, is_slug_char c = true ∨ c = "-"%char)
         (list_ascii_of_string (clean_slug slug)) ∧
  clean_slug (clean_slug slug) = clean_slug slug ∧
  (Forall (λ c, is_slug_char c = true ∨ c = "-"%char) (list_ascii_of_string slug) →
   clean_slug slug = slug).
Proof.
  induction slug as [|c slug (IHlen & IHall & IHidem & IHfix)]; simpl.
  - split_and!; [done | by constructor | done | done].
  - split_and!.
    + by rewrite IHlen.
    + apply Forall_cons. split; [|done].
      destruct (is_slug_char c) eqn:Hc; [by left | by right].
    + rewrite IHidem. f_equal.
      destruct (is_slug_char c) eqn:Hc; [by rewrite Hc | done].
    + intros [Hc Hrest]%Forall_cons. rewrite (IHfix Hrest). f_equal.
      destruct Hc as [-> | ->]; done.
Qed.

End slug.

Section api_samples.
Import pyjson LibreTextsClient LibreTextsMetadata.

Example get_page_content_of_string_body :
  get_page_content (JDict [("body", JStr "<p>Hello</p>")]) = Raises LibreTextsParsingError ∧
  get_page_content (JDict [("body", JList [JStr "<p>Hello</p>"])]) = Raises IndexError ∧
  get_page_content
    (JDict [("body", JList [JStr "<p>Hello</p>";
                            JDict [("@target", JStr "toc"); ("#text", JStr "")]])])
    = Returns "<p>Hello</p>".
Proof. split_and!; reflexivity. Qed.

Example cache_files :
  _get_cache_file "text/" = "text/index" ∧
  _get_cache_file "api_json/pages/home/tree" = "api_json/pages/home/tree" ∧
  _get_cache_file "/a/b/" = "a/b/index".
Proof. split_and!; reflexivity. Qed.

Lemma clean_slug_is_safe_witness :
  Forall (λ c, is_slug_char c = true ∨ c = "-"%char) (list_ascii_of_string "geo") ∧
  clean_slug "geo" = "geo".
Proof.
  assert (Hgeo : Forall (λ c, is_slug_char c = true ∨ c = "-"%char)
                        (list_ascii_of_string "geo")).
  { repeat (apply Forall_cons; split; [by left|]). apply Forall_nil_2. }
  split; [exact Hgeo|].
  exact (proj2 (proj2 (proj2 (clean_slug_is_safe "geo"))) Hgeo).
Defined.

Example clean_slug_of_host :
  clean_slug "geo_sciences/2024" = "geo-sciences-2024" ∧
  Py.keys (placeholders "Geosciences" "geo" "2024-11")
    = ["name"; "slug"; "clean_slug"; "period"].
Proof. split; reflexivity. Qed.

End api_samples.

(* ------------------------------------------------------------------------- *)
(** ** The order of [items_to_download] *)
(* ------------------------------------------------------------------------- *)

Section download_order.
Import processor.
Context `{!UrlRewriting}.

(** The paths of [l], each once, at the place of its first occurrence. *)
Definition first_seen (l : list ZimPath) : list ZimPath := foldl add_key [] l.

Lemma elem_of_add_keys (ids keys : list string) (k : string) :
  k ∈ foldl add_key keys ids ↔ k ∈ keys ∨ k ∈ ids.
Proof.
  revert keys. induction ids as [|i ids IH]; intros keys; simpl.
  - split; [by left | by intros [?|?%elem_of_nil]].
  - rewrite IH, elem_of_cons. unfold add_key.
    destruct (decide (i ∈ keys)) as [Hin|Hnin].
    + split; [intros [?|?]; [by left | right; by right]|].
      intros [?|[->|?]]; [by left | by left | by right].
    + rewrite elem_of_app, list_elem_of_singleton.
      split; [intros [[?|?]|?] | intros [?|[?|?]]]; tauto.
Qed.

(** Adding the keys of a map that was itself filled key by key is adding
    the keys it was filled with. *)
Lemma add_keys_add_keys (l acc xs : list string) :
  foldl add_key l (foldl add_key acc xs) = foldl add_key (foldl add_key l acc) xs.
Proof.
  revert acc. induction xs as [|x xs IH]; intros acc; simpl; [done|].
  rewrite IH. f_equal. unfold add_key at 2.
  destruct (decide (x ∈ acc)) as [Hin|Hnin].
  - unfold add_key. rewrite decide_True; [done|].
    apply elem_of_add_keys. by right.
  - by rewrite foldl_snoc.
Qed.

Lemma add_url_keys p u (d : items_dict) :
  Py.keys (add_url p u d) = add_key (Py.keys d) p.
Proof. unfold add_url. destruct (Py.get p d); apply keys_set. Qed.

Lemma add_item_keys r (d : items_dict) :
  Py.keys (add_item_to_download r d) =
  foldl add_key (Py.keys d) (scheduled_result r).*1.
Proof.
  unfold add_item_to_download, scheduled_result.
  destruct (zim_path r); [apply add_url_keys | done].
Qed.

Lemma rewrite_css_keys article_url urls (d : items_dict) :
  Py.keys (rewrite_css article_url urls d) =
  foldl add_key (Py.keys d) (scheduled_css article_url urls).*1.
Proof.
  revert d. induction urls as [|u urls IH]; intros d; simpl; [done|].
  unfold scheduled_css. simpl. rewrite fmap_app, foldl_app, IH.
  by rewrite add_item_keys.
Qed.

Lemma rewrite_href_src_attributes_keys tag n v r base res r' :
  rewrite_href_src_attributes tag n v r base = Ok (res, r') →
  drop_sizes_and_srcset_attribute tag n = false →
  page_url r' = page_url r ∧
  Py.keys (html_items r') =
  foldl add_key (Py.keys (html_items r))
    (scheduled_attr (page_url r) base tag (n, v)).*1.
Proof.
  unfold rewrite_href_src_attributes, scheduled_attr. simpl. intros Hrun ->.
  destruct (pystr.mem n ["href"; "src"]) eqn:Hn; simpl in *.
  - destruct (Py.truthy v) eqn:Hv; simpl in *.
    + destruct (String.eqb tag "img") eqn:Himg; simpl in *.
      * destruct (String.eqb tag "a"); simpl in Hrun; injection Hrun as <- <-;
          (split; [done|]); simpl; apply add_item_keys.
      * destruct (String.eqb tag "a"); simpl in Hrun; [|done].
        match type of Hrun with (if ?c then _ else _) = _ => destruct c end;
          [|done]. by injection Hrun as <- <-.
    + injection Hrun as <- <-. by rewrite andb_false_r.
  - injection Hrun as <- <-. by rewrite andb_false_r.
Qed.

Lemma rewrite_attrs_keys tag attrs r base attrs' r' :
  rewrite_attrs tag attrs r base = Ok (attrs', r') →
  page_url r' = page_url r ∧
  Py.keys (html_items r') =
  foldl add_key (Py.keys (html_items r))
    (attrs ≫= scheduled_attr (page_url r) base tag).*1.
Proof.
  revert r attrs'. induction attrs as [|[n v] attrs IH]; intros r attrs' Hrun;
    simpl in Hrun.
  - by injection Hrun as <- <-.
  - simpl. rewrite fmap_app, foldl_app.
    destruct (drop_sizes_and_srcset_attribute tag n) eqn:Hdrop.
    + destruct (IH _ _ Hrun) as [Hu Ha]. split; [done|].
      unfold scheduled_attr at 1. simpl. by rewrite Hdrop.
    + destruct (rewrite_href_src_attributes tag n v r base) as [[res r1]|] eqn:Hrule;
        [|done]. simpl in Hrun.
      destruct (rewrite_attrs tag attrs r1 base) as [[rest r2]|] eqn:Hrest; [|done].
      simpl in Hrun. injection Hrun as <- <-.
      destruct (rewrite_href_src_attributes_keys _ _ _ _ _ _ _ Hrule Hdrop)
        as [Hu1 Ha1].
      destruct (IH _ _ Hrest) as [Hu2 Ha2].
      split; [congruence|]. by rewrite Ha2, Ha1, Hu1.
Qed.

Lemma rewrite_html_keys tags r base tags' r' :
  rewrite_html tags r base = Ok (tags', r') →
  page_url r' = page_url r ∧
  Py.keys (html_items r') =
  foldl add_key (Py.keys (html_items r)) (scheduled_html (page_url r) base tags).*1.
Proof.
  revert r tags'. induction tags as [|t tags IH]; intros r tags' Hrun; simpl in Hrun.
  - by injection Hrun as <- <-.
  - unfold rewrite_start_tag in Hrun.
    destruct (refuse_unsupported_tags (tag_name t)); [|done]. simpl in Hrun.
    destruct (rewrite_attrs (tag_name t) (tag_attrs t) r base) as [[attrs r1]|] eqn:Ha;
      [|done]. simpl in Hrun.
    destruct (rewrite_html tags r1 base) as [[rest r2]|] eqn:Hrest; [|done].
    simpl in Hrun. injection Hrun as <- <-.
    destruct (rewrite_attrs_keys _ _ _ _ _ _ Ha) as [Hu1 Ha1].
    destruct (IH _ _ Hrest) as [Hu2 Ha2].
    split; [congruence|]. unfold scheduled_html. simpl.
    by rewrite fmap_app, foldl_app, Ha2, Ha1, Hu1.
Qed.

Lemma merge_items_keys (new : list (ZimPath * gset HttpUrl)) (acc : items_dict) :
  Py.keys (merge_items new acc) = foldl add_key (Py.keys acc) new.*1.
Proof.
  revert acc. induction new as [|[path urls] new IH]; intros acc; simpl; [done|].
  rewrite IH. f_equal. destruct (Py.get path acc); apply keys_set.
Qed.

Lemma process_pass_keys p (d d' : items_dict) :
  process_pass p d = Ok d' →
  Py.keys d' = foldl add_key (Py.keys d) (scheduled_pass p).*1.
Proof.
  intros Hrun. destruct p as [loc urls|loc lib base tags]; simpl in *.
  - injection Hrun as <-. rewrite merge_items_keys.
    change ((Py.items (rewrite_css loc urls [])).*1)
      with (Py.keys (rewrite_css loc urls [])).
    rewrite rewrite_css_keys. apply add_keys_add_keys.
  - destruct (rewrite_html tags _ base) as [[tags' r']|] eqn:Hhtml; [|done].
    simpl in Hrun. injection Hrun as <-. rewrite merge_items_keys.
    change ((Py.items (html_items r')).*1) with (Py.keys (html_items r')).
    apply rewrite_html_keys in Hhtml as [_ ->]. apply add_keys_add_keys.
Qed.

Lemma process_passes_keys ps (d d' : items_dict) :
  process_passes ps d = Ok d' →
  Py.keys d' = foldl add_key (Py.keys d) (scheduled ps).*1.
Proof.
  revert d. induction ps as [|p ps IH]; intros d Hrun; simpl in Hrun.
  - by injection Hrun as <-.
  - destruct (process_pass p d) as [d1|] eqn:Hp; [|done]. simpl in Hrun.
    unfold scheduled. simpl. rewrite fmap_app, foldl_app.
    rewrite (IH _ Hrun). f_equal. by apply process_pass_keys.
Qed.

(** X25. After all the page and stylesheet passes of a run, the entries of
    [items_to_download] are in the order in which their paths were first
    scheduled: the pages and stylesheets in the order they were processed,
    and inside each the URLs in the order of the document.  A path that is
    scheduled again, in the same document or a later one, keeps its
    place. *)
Theorem download_map_order (ps : list pass) (items_to_download : items_dict) :
  process_passes ps [] = Ok items_to_download →
  Py.keys items_to_download = first_seen (scheduled ps).*1.
Proof.
  intros Hrun. unfold first_seen. by rewrite (process_passes_keys _ _ _ Hrun).
Qed.

End download_order.

Section download_order_samples.
Import processor.

(** A rewriter of URLs for the samples: the path is the URL without its
    scheme. *)
Definition scheme_rewriter : UrlRewriting :=
  {| rewrite_url := λ _ item_url _ _,
       let path :=
         if String.prefix "https://" item_url then drop_chars 8 item_url
         else item_url in
       {| absolute_url := item_url; rewriten_url := path; zim_path := Some path |} |}.

(** A stylesheet with two images, then a page that shows the second image
    again, before a third. *)
Definition sheet_then_page : list pass :=
  [ CssPass "https://example.org/site.css"
      ["https://example.org/a.png"; "https://example.org/b.png"];
    PagePass "https://example.org/Page" "example.org/" None
      [ mkTag "img" [("src", Some "https://example.org/b.png")];
        mkTag "img" [("src", Some "https://example.org/c.png")] ] ].

Lemma download_map_order_witness :
  ∃ items,
    @process_passes scheme_rewriter sheet_then_page [] = Ok items ∧
    Py.keys items = ["example.org/a.png"; "example.org/b.png"; "example.org/c.png"].
Proof.
  eexists. split; [reflexivity|].
  etrans; [apply (@download_map_order scheme_rewriter sheet_then_page); reflexivity|].
  vm_compute. reflexivity.
Defined.

End download_order_samples.
